(** * The WebSocket chat example: registries, fan-out and typing sweep

    A shallow embedding of the chat example of the repository:
    - [websocket-chat/src/server.ts]: the [ChatManager] class (rooms,
      sessions, typing indicators, broadcast fan-out);
    - [websocket-chat/src/chat/messages.ts]: [MessageStore] and
      [RoomManager];
    - the [SessionManager] class with [validateUsername].

    Conventions of the embedding.
    - A JavaScript [Map] iterates in insertion order and [set] on an
      existing key keeps the key's position: maps that the code iterates
      ([sessions], [typingIndicators]) are association lists with these
      operations ([JsMap]); maps that are only probed by key are [gmap]s.
    - A JavaScript [Set] of strings is a duplicate-free list in insertion
      order ([JsSet]).
    - Objects stored in a map are mutated in place by the code; the
      embedding alters the entry under the object's key.
    - [new Date()] is the argument [now] (milliseconds) of an operation;
      [crypto.randomUUID()] is an argument supplied by the caller.
    - [ws.send] is recorded as a [Delivery] in the output of the
      operation; a failing send is caught by the code and does not change
      the control flow. *)

From Stdlib Require Import ZArith Ascii String List Lia.
From stdpp Require Import base relations gmap sets list strings pretty.

Local Open Scope Z_scope.

(** ** JavaScript containers *)

Module JsSet.

(** [Set.prototype.add]: a new element goes last, a present one stays. *)
Definition add (x : string) (s : list string) : list string :=
  if decide (x ∈ s) then s else s ++ [x].

(** [Set.prototype.delete]. *)
Definition delete (x : string) (s : list string) : list string :=
  filter (λ y, y ≠ x) s.

End JsSet.

Module JsMap.

Section ops.
Context {V : Type}.

(** [Map.prototype.get]. *)
Fixpoint get (k : string) (m : list (string * V)) : option V :=
  match m with
  | [] => None
  | (k', v) :: m' => if decide (k' = k) then Some v else get k m'
  end.

(** [Map.prototype.set]: an existing key keeps its position. *)
Fixpoint set (k : string) (v : V) (m : list (string * V)) : list (string * V) :=
  match m with
  | [] => [(k, v)]
  | (k', v') :: m' =>
      if decide (k' = k) then (k, v) :: m' else (k', v') :: set k v m'
  end.

(** [Map.prototype.delete]. *)
Fixpoint delete (k : string) (m : list (string * V)) : list (string * V) :=
  match m with
  | [] => []
  | (k', v') :: m' =>
      if decide (k' = k) then m' else (k', v') :: delete k m'
  end.

(** In-place mutation of the object stored under [k]. *)
Fixpoint alter (f : V → V) (k : string) (m : list (string * V)) : list (string * V) :=
  match m with
  | [] => []
  | (k', v') :: m' =>
      if decide (k' = k) then (k', f v') :: m' else (k', v') :: alter f k m'
  end.

(** Keys are unique in a [Map]. *)
Definition wf (m : list (string * V)) : Prop := NoDup (m.*1).

End ops.

End JsMap.

(** ** server.ts: the data model *)

Module ChatMessage.
Record t := mk {
  id : string;
  content : string;
  userId : string;
  username : string;
  roomId : string;
  timestamp : Z;
  type : string
}.
End ChatMessage.

Module ChatRoom.
Record t := mk {
  id : string;
  name : string;
  description : string;
  isPrivate : bool;
  users : list string;
  messages : list ChatMessage.t;
  createdAt : Z
}.

Definition with_users (f : list string → list string) (r : t) : t :=
  mk (id r) (name r) (description r) (isPrivate r) (f (users r))
     (messages r) (createdAt r).

Definition with_messages (f : list ChatMessage.t → list ChatMessage.t) (r : t) : t :=
  mk (id r) (name r) (description r) (isPrivate r) (users r)
     (f (messages r)) (createdAt r).
End ChatRoom.

Module ChatUser.
Record t := mk {
  id : string;
  username : string;
  isGuest : bool;
  joinedAt : Z
}.
End ChatUser.

Module ChatSession.
Record t := mk {
  id : string;
  userId : string;
  username : string;
  ws : nat;
  currentRoom : option string;
  isGuest : bool
}.

Definition with_currentRoom (c : option string) (s : t) : t :=
  mk (id s) (userId s) (username s) (ws s) c (isGuest s).
End ChatSession.

Module TypingIndicator.
Record t := mk {
  userId : string;
  roomId : string;
  timestamp : Z
}.
End TypingIndicator.

(** The envelopes the server writes to a socket: [{ type, data, timestamp }]. *)
Module Envelope.
Record userInfo := mkUserInfo {
  info_id : string;
  info_username : string;
  info_isGuest : bool
}.

Inductive payload :=
  | Username (username : string)
  | Message (m : ChatMessage.t)
  | RoomUsers (roomId : string) (users : list userInfo).

Record t := mk {
  type : string;
  data : payload;
  timestamp : Z
}.
End Envelope.

(** One call of [session.ws.send(JSON.stringify(message))]. *)
Module Delivery.
Record t := mk {
  sessionId : string;
  ws : nat;
  message : Envelope.t
}.
End Delivery.

(** JavaScript truthiness of [string | undefined]: [undefined] and the
    empty string are falsy. *)
Definition truthy (s : option string) : bool :=
  match s with
  | Some x => negb (String.eqb x "")
  | None => false
  end.

(** [arr.slice(-n)] for a positive [n]: the last [n] elements. *)
Definition slice_last {A : Type} (n : nat) (l : list A) : list A :=
  drop (length l - n) l.

(** ** server.ts: the ChatManager class *)

Module ChatManager.

Record t := mk {
  rooms : gmap string ChatRoom.t;
  users : gmap string ChatUser.t;
  sessions : list (string * ChatSession.t);
  typingIndicators : list (string * TypingIndicator.t)
}.

Definition with_rooms (f : gmap string ChatRoom.t → gmap string ChatRoom.t) (cm : t) : t :=
  mk (f (rooms cm)) (users cm) (sessions cm) (typingIndicators cm).

Definition with_users (f : gmap string ChatUser.t → gmap string ChatUser.t) (cm : t) : t :=
  mk (rooms cm) (f (users cm)) (sessions cm) (typingIndicators cm).

Definition with_sessions
  (f : list (string * ChatSession.t) → list (string * ChatSession.t)) (cm : t) : t :=
  mk (rooms cm) (users cm) (f (sessions cm)) (typingIndicators cm).

Definition with_typingIndicators
  (f : list (string * TypingIndicator.t) → list (string * TypingIndicator.t)) (cm : t) : t :=
  mk (rooms cm) (users cm) (sessions cm) (f (typingIndicators cm)).

Definition defaultRooms : list (string * string * string) :=
  [ ("general", "General", "General discussion for everyone");
    ("random", "Random", "Random conversations and fun topics");
    ("tech", "Tech Talk", "Technology and programming discussions");
    ("gaming", "Gaming", "Video games and gaming discussion") ]%string.

Definition createDefaultRooms (now : Z) (cm : t) : t :=
  fold_left
    (λ cm '(rid, rname, rdesc),
       with_rooms (insert rid (ChatRoom.mk rid rname rdesc false [] [] now)) cm)
    defaultRooms cm.

(** [new ChatManager()]; the sweep timer it starts is [typingCleanupTick]. *)
Definition new (now : Z) : t :=
  createDefaultRooms now (mk ∅ ∅ [] []).

Definition createUser (cm : t) (now : Z) (uuid username : string) (isGuest : bool)
  : ChatUser.t * t :=
  let user := ChatUser.mk uuid username isGuest now in
  (user, with_users (insert (ChatUser.id user) user) cm).

Definition createSession (cm : t) (uuid userId username : string) (ws : nat) (isGuest : bool)
  : ChatSession.t * t :=
  let session := ChatSession.mk uuid userId username ws None isGuest in
  (session, with_sessions (JsMap.set (ChatSession.id session) session) cm).

Definition broadcastToRoom (cm : t) (roomId : string) (message : Envelope.t)
  (excludeSessions : list string) : list Delivery.t :=
  match rooms cm !! roomId with
  | None => []
  | Some _ =>
      omap (λ '(sessionId, session),
              if decide (ChatSession.currentRoom session = Some roomId
                         ∧ sessionId ∉ excludeSessions)
              then Some (Delivery.mk sessionId (ChatSession.ws session) message)
              else None)
           (sessions cm)
  end.

(** The [users] array of a [room_users] envelope:
    [Array.from(room.users).map(...).filter(Boolean)]. *)
Definition roomUserInfos (cm : t) (room : ChatRoom.t) : list Envelope.userInfo :=
  omap (λ userId,
          match users cm !! userId with
          | Some user =>
              Some (Envelope.mkUserInfo (ChatUser.id user) (ChatUser.username user)
                      (ChatUser.isGuest user))
          | None => None
          end)
       (ChatRoom.users room).

Definition broadcastRoomUsers (cm : t) (now : Z) (roomId : string) : list Delivery.t :=
  match rooms cm !! roomId with
  | None => []
  | Some room =>
      broadcastToRoom cm roomId
        (Envelope.mk "room_users" (Envelope.RoomUsers roomId (roomUserInfos cm room)) now) []
  end.

Definition leaveRoom (cm : t) (now : Z) (sessionId roomId : string) : t * list Delivery.t :=
  match JsMap.get sessionId (sessions cm), rooms cm !! roomId with
  | Some session, Some _ =>
      let cm1 :=
        with_rooms
          (alter (ChatRoom.with_users (JsSet.delete (ChatSession.userId session))) roomId) cm in
      let cm2 :=
        with_sessions (JsMap.alter (ChatSession.with_currentRoom None) sessionId) cm1 in
      (cm2,
       broadcastToRoom cm2 roomId
         (Envelope.mk "user_left" (Envelope.Username (ChatSession.username session)) now) []
       ++ broadcastRoomUsers cm2 now roomId)
  | _, _ => (cm, [])
  end.

(** The statement shared by [joinRoom] and [removeSession]:
    [if (session.currentRoom) this.leaveRoom(sessionId, session.currentRoom)]. *)
Definition leaveCurrent (cm : t) (now : Z) (sessionId : string) (session : ChatSession.t)
  : t * list Delivery.t :=
  if truthy (ChatSession.currentRoom session)
  then leaveRoom cm now sessionId (default ""%string (ChatSession.currentRoom session))
  else (cm, []).

Definition joinRoom (cm : t) (now : Z) (sessionId roomId : string)
  : bool * t * list Delivery.t :=
  match JsMap.get sessionId (sessions cm), rooms cm !! roomId with
  | Some session, Some _ =>
      let '(cm1, out1) := leaveCurrent cm now sessionId session in
      let cm2 :=
        with_rooms
          (alter (ChatRoom.with_users (JsSet.add (ChatSession.userId session))) roomId) cm1 in
      let cm3 :=
        with_sessions
          (JsMap.alter (ChatSession.with_currentRoom (Some roomId)) sessionId) cm2 in
      (true, cm3,
       out1
       ++ broadcastToRoom cm3 roomId
            (Envelope.mk "user_joined" (Envelope.Username (ChatSession.username session)) now) []
       ++ broadcastRoomUsers cm3 now roomId)
  | _, _ => (false, cm, [])
  end.

Definition removeSession (cm : t) (now : Z) (sessionId : string) : t * list Delivery.t :=
  let '(cm1, out) :=
    match JsMap.get sessionId (sessions cm) with
    | Some session => leaveCurrent cm now sessionId session
    | None => (cm, [])
    end in
  (with_sessions (JsMap.delete sessionId) cm1, out).

(** The history cap of [sendMessage]. *)
Definition historyCap : nat := 100.

Definition sendMessage (cm : t) (now : Z) (uuid sessionId content : string)
  : bool * t * list Delivery.t :=
  match JsMap.get sessionId (sessions cm) with
  | Some session =>
      if truthy (ChatSession.currentRoom session) then
        let cur := default ""%string (ChatSession.currentRoom session) in
        match rooms cm !! cur with
        | Some _ =>
            let message :=
              ChatMessage.mk uuid content (ChatSession.userId session)
                (ChatSession.username session) cur now "message" in
            let push_capped (ms : list ChatMessage.t) :=
              let ms1 := ms ++ [message] in
              if decide (historyCap < length ms1)%nat then slice_last historyCap ms1 else ms1 in
            let cm1 := with_rooms (alter (ChatRoom.with_messages push_capped) cur) cm in
            (true, cm1,
             broadcastToRoom cm1 cur (Envelope.mk "message" (Envelope.Message message) now) [])
        | None => (false, cm, [])
        end
      else (false, cm, [])
  | None => (false, cm, [])
  end.

(** The key of a typing indicator: [`${session.userId}-${roomId}`]. *)
Definition typingKey (userId roomId : string) : string :=
  userId +:+ "-" +:+ roomId.

Definition startTyping (cm : t) (now : Z) (sessionId roomId : string) : t * list Delivery.t :=
  match JsMap.get sessionId (sessions cm) with
  | None => (cm, [])
  | Some session =>
      let key := typingKey (ChatSession.userId session) roomId in
      let cm1 :=
        with_typingIndicators
          (JsMap.set key (TypingIndicator.mk (ChatSession.userId session) roomId now)) cm in
      (cm1,
       broadcastToRoom cm1 roomId
         (Envelope.mk "typing_start" (Envelope.Username (ChatSession.username session)) now)
         [sessionId])
  end.

Definition stopTyping (cm : t) (now : Z) (sessionId roomId : string) : t * list Delivery.t :=
  match JsMap.get sessionId (sessions cm) with
  | None => (cm, [])
  | Some session =>
      let key := typingKey (ChatSession.userId session) roomId in
      let cm1 := with_typingIndicators (JsMap.delete key) cm in
      (cm1,
       broadcastToRoom cm1 roomId
         (Envelope.mk "typing_stop" (Envelope.Username (ChatSession.username session)) now)
         [sessionId])
  end.

Definition getUsernameById (cm : t) (userId : string) : string :=
  match users cm !! userId with
  | Some user => ChatUser.username user
  | None => "Unknown"
  end.

(** Period of the sweep timer and silence window, in milliseconds
    ([setInterval(..., 1000)] and [> 5000]). *)
Definition sweepPeriodMs : Z := 1000.
Definition typingTimeoutMs : Z := 5000.

Definition expired (now : Z) (indicator : TypingIndicator.t) : bool :=
  bool_decide (typingTimeoutMs < now - TypingIndicator.timestamp indicator).

(** The body of the loop of the interval callback, for one entry. *)
Definition sweepEntry (now : Z) (acc : t * list Delivery.t)
  (entry : string * TypingIndicator.t) : t * list Delivery.t :=
  let '(cm, out) := acc in
  let '(key, indicator) := entry in
  if expired now indicator then
    let cm1 := with_typingIndicators (JsMap.delete key) cm in
    (cm1,
     out ++ broadcastToRoom cm1 (TypingIndicator.roomId indicator)
              (Envelope.mk "typing_stop"
                 (Envelope.Username (getUsernameById cm1 (TypingIndicator.userId indicator)))
                 now) [])
  else (cm, out).

(** One tick of the interval callback installed by [startTypingCleanup]:
    the loop visits the entries of [typingIndicators] in insertion order
    and deletes only the entry it is visiting. *)
Definition typingCleanupTick (cm : t) (now : Z) : t * list Delivery.t :=
  fold_left (sweepEntry now) (typingIndicators cm) (cm, []).


(** [findSessionByWs]: the id of the first session, in the order of the
    [sessions] map, whose socket is [ws]. *)
Fixpoint findWs (ws : nat) (l : list (string * ChatSession.t)) : option string :=
  match l with
  | [] => None
  | (sessionId, session) :: l' =>
      if decide (ChatSession.ws session = ws) then Some sessionId else findWs ws l'
  end.

Definition findSessionByWs (cm : t) (ws : nat) : option string :=
  findWs ws (sessions cm).

End ChatManager.

(** ** server.ts: the WebSocket handlers

    The [open] handler reads the user name and the guest flag from the URL
    of the connection and then registers a user and a session; the
    [close] handler removes the session of the socket.  The [message]
    handler calls [joinRoom], [sendMessage], [startTyping] or [stopTyping]
    for the session of the socket. *)

Module Server.
Import ChatManager.

(** The registry calls of the [open] handler:
    [createUser(username, isGuest)] and then
    [createSession(user.id, username, ws, isGuest)]. *)
Definition openConnection (cm : t) (now : Z) (userUuid sessionUuid username : string)
  (ws : nat) (isGuest : bool) : ChatSession.t * t :=
  let '(user, cm1) := createUser cm now userUuid username isGuest in
  createSession cm1 sessionUuid (ChatUser.id user) username ws isGuest.

(** The [close] handler. *)
Definition closeConnection (cm : t) (now : Z) (ws : nat) : t * list Delivery.t :=
  match findSessionByWs cm ws with
  | Some sessionId =>
      if truthy (Some sessionId) then removeSession cm now sessionId else (cm, [])
  | None => (cm, [])
  end.

(** The states of the registries that the server can be in: the state
    built by [new ChatManager()], and the states the handlers and the sweep
    timer move it to.  The ids a connection is given are new
    ([crypto.randomUUID()]). *)
Inductive reachable : t → Prop :=
  | reach_new now :
      reachable (new now)
  | reach_open cm now userUuid sessionUuid username ws isGuest :
      reachable cm →
      users cm !! userUuid = None →
      JsMap.get sessionUuid (sessions cm) = None →
      sessionUuid ≠ ""%string →
      reachable (openConnection cm now userUuid sessionUuid username ws isGuest).2
  | reach_join cm now sessionId roomId :
      reachable cm → reachable (joinRoom cm now sessionId roomId).1.2
  | reach_send cm now uuid sessionId content :
      reachable cm → reachable (sendMessage cm now uuid sessionId content).1.2
  | reach_startTyping cm now sessionId roomId :
      reachable cm → reachable (startTyping cm now sessionId roomId).1
  | reach_stopTyping cm now sessionId roomId :
      reachable cm → reachable (stopTyping cm now sessionId roomId).1
  | reach_tick cm now :
      reachable cm → reachable (typingCleanupTick cm now).1
  | reach_close cm now ws :
      reachable cm → reachable (closeConnection cm now ws).1.

End Server.

(** ** types: the data model of chat/messages.ts and of SessionManager *)

Module Message.
Record t := mk {
  id : string;
  roomId : string;
  userId : string;
  content : string;
  type : string;
  timestamp : Z;
  replyTo : option string;
  reactions : list (string * list string);
  edited : option Z
}.

(** [message.content = newContent; message.edited = new Date()]. *)
Definition with_content (newContent : string) (now : Z) (m : t) : t :=
  mk (id m) (roomId m) (userId m) newContent (type m) (timestamp m) (replyTo m)
     (reactions m) (Some now).

Definition with_reactions
  (f : list (string * list string) → list (string * list string)) (m : t) : t :=
  mk (id m) (roomId m) (userId m) (content m) (type m) (timestamp m) (replyTo m)
     (f (reactions m)) (edited m).
End Message.

Module Room.
Record t := mk {
  id : string;
  name : string;
  description : string;
  isPrivate : bool;
  createdBy : string;
  createdAt : Z;
  maxUsers : option nat;
  users : list string;
  moderators : list string
}.

Definition with_users (f : list string → list string) (r : t) : t :=
  mk (id r) (name r) (description r) (isPrivate r) (createdBy r) (createdAt r)
     (maxUsers r) (f (users r)) (moderators r).

Definition with_moderators (f : list string → list string) (r : t) : t :=
  mk (id r) (name r) (description r) (isPrivate r) (createdBy r) (createdAt r)
     (maxUsers r) (users r) (f (moderators r)).
End Room.

Module User.
Inductive status := online | away | offline.

#[global] Instance status_eq_dec : EqDecision status.
Proof. solve_decision. Defined.

Record t := mk {
  id : string;
  username : string;
  displayName : string;
  isGuest : bool;
  joinedAt : Z;
  lastSeen : Z;
  avatar : option string;
  userStatus : status
}.

Definition with_status (st : status) (now : Z) (u : t) : t :=
  mk (id u) (username u) (displayName u) (isGuest u) (joinedAt u) now (avatar u) st.
End User.

(** The [{ success, error? }] results of chat/messages.ts. *)
Module Result.
Record t := mk {
  success : bool;
  error : option string
}.

Definition ok : t := mk true None.
Definition fail (e : string) : t := mk false (Some e).
End Result.

(** ** chat/messages.ts: the MessageStore class

    [messages] and [messageIndex] hold the same message objects.  The
    operations embedded here ([addMessage], [getMessage], [deleteMessage],
    [cleanupOldMessages]) never write to a message
    object, so a message is embedded as a value. *)

Module MessageStore.

Record t := mk {
  messages : gmap string (list Message.t);
  messageIndex : gmap string Message.t
}.

Definition new : t := mk ∅ ∅.

(** The default value of the parameter [maxMessages]. *)
Definition maxMessagesDefault : nat := 1000.

Definition cleanupOldMessages (st : t) (roomId : string) (maxMessages : nat) : t :=
  match messages st !! roomId with
  | Some roomMessages =>
      if decide (maxMessages < length roomMessages)%nat then
        let n := (length roomMessages - maxMessages)%nat in
        let toRemove := take n roomMessages in
        mk (<[roomId := drop n roomMessages]> (messages st))
           (fold_left (λ idx msg, delete (Message.id msg) idx) toRemove (messageIndex st))
      else st
  | None => st
  end.

Definition addMessage (st : t) (now : Z) (uuid roomId userId content type : string)
  (replyTo : option string) : Message.t * t :=
  let message := Message.mk uuid roomId userId content type now replyTo [] None in
  let roomMessages := default [] (messages st !! roomId) in
  let st1 :=
    mk (<[roomId := roomMessages ++ [message]]> (messages st))
       (<[Message.id message := message]> (messageIndex st)) in
  (message, cleanupOldMessages st1 roomId maxMessagesDefault).

Definition getMessage (st : t) (messageId : string) : option Message.t :=
  messageIndex st !! messageId.

Definition deleteMessage (st : t) (messageId userId : string) (isModeratorAction : bool)
  : Result.t * t :=
  match messageIndex st !! messageId with
  | None => (Result.fail "Message not found", st)
  | Some message =>
      if negb isModeratorAction && negb (String.eqb (Message.userId message) userId)
      then (Result.fail "Can only delete your own messages", st)
      else
        let messages1 :=
          match messages st !! Message.roomId message with
          | Some roomMessages =>
              match list_find (λ m, Message.id m = messageId) roomMessages with
              | Some (index, _) =>
                  <[Message.roomId message := delete index roomMessages]> (messages st)
              | None => messages st
              end
          | None => messages st
          end in
        (Result.ok, mk messages1 (delete messageId (messageIndex st)))
  end.

(** *** Operations that write to a message

    [editMessage], [addReaction] and [removeReaction] write to the message
    object found in [messageIndex].  [addMessage] puts one object in the
    index and in the history of its room, so the write shows in both: the
    embedding applies it to the index entry and to the messages of that
    history that carry the id. *)

Definition writeMessage (f : Message.t → Message.t) (messageId : string)
  (message : Message.t) (st : t) : t :=
  mk (alter (fmap (λ m, if decide (Message.id m = messageId) then f m else m))
        (Message.roomId message) (messages st))
     (alter f messageId (messageIndex st)).

(** The edit window in milliseconds. *)
Definition editWindowMs : Z := 300000.

Definition editMessage (st : t) (now : Z) (messageId userId newContent : string)
  : Result.t * t :=
  match messageIndex st !! messageId with
  | None => (Result.fail "Message not found", st)
  | Some message =>
      if negb (String.eqb (Message.userId message) userId)
      then (Result.fail "Can only edit your own messages", st)
      else if negb (String.eqb (Message.type message) "text")
      then (Result.fail "Can only edit text messages", st)
      else if bool_decide (editWindowMs < now - Message.timestamp message)
      then (Result.fail "Can only edit messages within 5 minutes", st)
      else (Result.ok, writeMessage (Message.with_content newContent now) messageId message st)
  end.

(** [users.splice(users.indexOf(userId), 1)] for a [userId] of the array. *)
Fixpoint removeFirst (x : string) (l : list string) : list string :=
  match l with
  | [] => []
  | y :: l' => if decide (y = x) then l' else y :: removeFirst x l'
  end.

(** The effect of [addReaction] on [message.reactions]. *)
Definition reactionsAdd (userId emoji : string) (r : list (string * list string))
  : list (string * list string) :=
  let r1 :=
    match JsMap.get emoji r with
    | None => JsMap.set emoji [] r
    | Some _ => r
    end in
  JsMap.alter (λ users, if decide (userId ∈ users) then users else users ++ [userId])
    emoji r1.

(** The effect of [removeReaction] on [message.reactions]. *)
Definition reactionsRemove (userId emoji : string) (r : list (string * list string))
  : list (string * list string) :=
  match JsMap.get emoji r with
  | None => r
  | Some users =>
      if decide (userId ∈ users) then
        let users1 := removeFirst userId users in
        if decide (length users1 = 0%nat) then JsMap.delete emoji r
        else JsMap.alter (λ _, users1) emoji r
      else r
  end.

Definition addReaction (st : t) (messageId userId emoji : string) : Result.t * t :=
  match messageIndex st !! messageId with
  | None => (Result.fail "Message not found", st)
  | Some message =>
      (Result.ok,
       writeMessage (Message.with_reactions (reactionsAdd userId emoji)) messageId message st)
  end.

Definition removeReaction (st : t) (messageId userId emoji : string) : Result.t * t :=
  match messageIndex st !! messageId with
  | None => (Result.fail "Message not found", st)
  | Some message =>
      (Result.ok,
       writeMessage (Message.with_reactions (reactionsRemove userId emoji)) messageId
         message st)
  end.

(** [arr.slice(-limit)] for a limit that is a natural number:
    [slice(-0)] is [slice(0)], the whole array. *)
Definition sliceFromEnd {A : Type} (limit : nat) (l : list A) : list A :=
  match limit with
  | O => l
  | _ => slice_last limit l
  end.

(** [getMessages(roomId, limit, before)]; an absent [before] is [None]. *)
Definition getMessages (st : t) (roomId : string) (limit : nat) (before : option string)
  : list Message.t :=
  let roomMessages := default [] (messages st !! roomId) in
  let messages1 :=
    if truthy before then
      match list_find (λ m, Message.id m = default ""%string before) roomMessages with
      | Some (beforeIndex, _) =>
          if decide (0 < beforeIndex)%nat then take beforeIndex roomMessages
          else roomMessages
      | None => roomMessages
      end
    else roomMessages in
  sliceFromEnd limit messages1.

End MessageStore.

(** ** chat/messages.ts: the RoomManager class *)

Module RoomManager.

Record t := mk {
  rooms : gmap string Room.t
}.

Definition createDefaultRooms (now : Z) (rm : t) : t :=
  let generalRoom :=
    Room.mk "general" "General" "General discussion for everyone" false "system" now
      None [] ["system"%string] in
  let randomRoom :=
    Room.mk "random" "Random" "Random conversations and off-topic chat" false "system" now
      None [] ["system"%string] in
  mk (<[Room.id randomRoom := randomRoom]> (<[Room.id generalRoom := generalRoom]> (rooms rm))).

Definition new (now : Z) : t := createDefaultRooms now (mk ∅).

Definition createRoom (rm : t) (now : Z) (uuid name description createdBy : string)
  (isPrivate : bool) : Room.t * t :=
  let room := Room.mk uuid name description isPrivate createdBy now None [] [createdBy] in
  (room, mk (<[Room.id room := room]> (rooms rm))).

Definition getRoom (rm : t) (roomId : string) : option Room.t :=
  rooms rm !! roomId.

Definition joinRoom (rm : t) (roomId userId : string) : Result.t * t :=
  match rooms rm !! roomId with
  | None => (Result.fail "Room not found", rm)
  | Some room =>
      let full :=
        match Room.maxUsers room with
        | Some n => negb (Nat.eqb n 0) && Nat.leb n (length (Room.users room))
        | None => false
        end in
      if full then (Result.fail "Room is full", rm)
      else (Result.ok, mk (alter (Room.with_users (JsSet.add userId)) roomId (rooms rm)))
  end.

Definition leaveRoom (rm : t) (roomId userId : string) : Result.t * t :=
  match rooms rm !! roomId with
  | None => (Result.fail "Room not found", rm)
  | Some _ =>
      (Result.ok, mk (alter (Room.with_users (JsSet.delete userId)) roomId (rooms rm)))
  end.

Definition isModerator (rm : t) (roomId userId : string) : bool :=
  match rooms rm !! roomId with
  | Some room => bool_decide (userId ∈ Room.moderators room)
  | None => false
  end.

Definition addModerator (rm : t) (roomId userId requesterId : string) : Result.t * t :=
  match rooms rm !! roomId with
  | None => (Result.fail "Room not found", rm)
  | Some room =>
      if negb (isModerator rm roomId requesterId)
         && negb (String.eqb (Room.createdBy room) requesterId)
      then (Result.fail "Only moderators can add moderators", rm)
      else (Result.ok, mk (alter (Room.with_moderators (JsSet.add userId)) roomId (rooms rm)))
  end.

Definition removeModerator (rm : t) (roomId userId requesterId : string) : Result.t * t :=
  match rooms rm !! roomId with
  | None => (Result.fail "Room not found", rm)
  | Some room =>
      if negb (String.eqb (Room.createdBy room) requesterId)
      then (Result.fail "Only room creator can remove moderators", rm)
      else if String.eqb userId (Room.createdBy room)
      then (Result.fail "Cannot remove room creator as moderator", rm)
      else (Result.ok,
            mk (alter (Room.with_moderators (JsSet.delete userId)) roomId (rooms rm)))
  end.

(** The room ids [deleteRoom] refuses to delete. *)
Definition protectedRooms : list string := ["general"; "random"]%string.

Definition deleteRoom (rm : t) (roomId requesterId : string) : Result.t * t :=
  match rooms rm !! roomId with
  | None => (Result.fail "Room not found", rm)
  | Some room =>
      if negb (String.eqb (Room.createdBy room) requesterId)
      then (Result.fail "Only room creator can delete the room", rm)
      else if bool_decide (roomId ∈ protectedRooms)
      then (Result.fail "Cannot delete default rooms", rm)
      else (Result.ok, mk (delete roomId (rooms rm)))
  end.

Definition getRoomUsers (rm : t) (roomId : string) : list string :=
  match rooms rm !! roomId with
  | Some room => Room.users room
  | None => []
  end.

Definition isUserInRoom (rm : t) (roomId userId : string) : bool :=
  match rooms rm !! roomId with
  | Some room => bool_decide (userId ∈ Room.users room)
  | None => false
  end.

End RoomManager.

(** ** JavaScript strings

    A string is a sequence of code units; the embedding covers the code
    units below 256.  On these, [toLowerCase] maps [A-Z] and the Latin-1
    capitals (except the multiplication sign) to their small letters, and
    [trim] strips the code units 9 to 13, 32 and 160. *)

Module JsString.

Definition lowerCode (n : nat) : nat :=
  if ((65 <=? n) && (n <=? 90))%nat then (n + 32)%nat
  else if ((192 <=? n) && (n <=? 222) && negb (n =? 215))%nat then (n + 32)%nat
  else n.

Definition lowerChar (c : ascii) : ascii := ascii_of_nat (lowerCode (nat_of_ascii c)).

Fixpoint toLowerCase (s : string) : string :=
  match s with
  | EmptyString => EmptyString
  | String c s' => String (lowerChar c) (toLowerCase s')
  end.

Definition isWhiteSpace (c : ascii) : bool :=
  let n := nat_of_ascii c in
  (((9 <=? n) && (n <=? 13)) || (n =? 32) || (n =? 160))%nat.

Fixpoint allChars (p : ascii → bool) (s : string) : bool :=
  match s with
  | EmptyString => true
  | String c s' => p c && allChars p s'
  end.

(** [s.trim().length === 0]. *)
Definition trimIsEmpty (s : string) : bool := allChars isWhiteSpace s.

(** The character class [[a-zA-Z0-9_-]]. *)
Definition isNameChar (c : ascii) : bool :=
  let n := nat_of_ascii c in
  (((97 <=? n) && (n <=? 122)) || ((65 <=? n) && (n <=? 90))
   || ((48 <=? n) && (n <=? 57)) || (n =? 95) || (n =? 45))%nat.

(** [/^[a-zA-Z0-9_-]+$/.test(s)]. *)
Definition testNamePattern (s : string) : bool :=
  negb (String.eqb s "") && allChars isNameChar s.

End JsString.

(** ** The SessionManager class *)

Module SessionManager.

Record t := mk {
  sessions : gmap string string;
  users : list (string * User.t)
}.

Definition new : t := mk ∅ [].

Definition createUser (sm : t) (now : Z) (uuid username : string) (isGuest : bool)
  : User.t * t :=
  let user := User.mk uuid username username isGuest now now None User.online in
  (user, mk (sessions sm) (JsMap.set (User.id user) user (users sm))).

Definition createSession (sm : t) (uuid : string) (user : User.t) : string * t :=
  (uuid, mk (<[uuid := User.id user]> (sessions sm)) (users sm)).

Definition getUserById (sm : t) (userId : string) : option User.t :=
  JsMap.get userId (users sm).

Definition updateUserStatus (sm : t) (now : Z) (userId : string) (st : User.status) : t :=
  mk (sessions sm) (JsMap.alter (User.with_status st now) userId (users sm)).

Definition removeSession (sm : t) (now : Z) (sessionId : string) : t :=
  match sessions sm !! sessionId with
  | Some userId =>
      if negb (String.eqb userId "") then
        let sm1 := updateUserStatus sm now userId User.offline in
        mk (delete sessionId (sessions sm1)) (users sm1)
      else sm
  | None => sm
  end.

Definition getUserBySession (sm : t) (sessionId : string) : option User.t :=
  match sessions sm !! sessionId with
  | Some userId =>
      if negb (String.eqb userId "") then JsMap.get userId (users sm) else None
  | None => None
  end.

Definition getOnlineUsers (sm : t) : list User.t :=
  filter (λ u, User.userStatus u = User.online) (users sm).*2.

Module Validation.
Record t := mk {
  valid : bool;
  error : option string
}.
End Validation.

(** [Array.from(this.users.values()).find(u => ...)] as used by
    [validateUsername]: only whether a user is found matters. *)
Definition existingUser (sm : t) (username : string) : option User.t :=
  snd <$> list_find
    (λ u, JsString.toLowerCase (User.username u) = JsString.toLowerCase username)
    (users sm).*2.

Definition validateUsername (sm : t) (username : string) : Validation.t :=
  if String.eqb username "" || JsString.trimIsEmpty username
  then Validation.mk false (Some "Username is required"%string)
  else if ((String.length username <? 2) || (20 <? String.length username))%nat
  then Validation.mk false (Some "Username must be 2-20 characters"%string)
  else if negb (JsString.testNamePattern username)
  then Validation.mk false
         (Some "Username can only contain letters, numbers, underscore, and dash"%string)
  else match existingUser sm username with
       | Some _ => Validation.mk false (Some "Username already taken"%string)
       | None => Validation.mk true None
       end.

End SessionManager.

(** ** Predicates over the state of a ChatManager *)

Module ChatInv.
Import ChatManager.

(** The sessions whose current-room pointer is [roomId], in the order of
    the [sessions] map. *)
Definition sessionsIn (cm : t) (roomId : string) : list (string * ChatSession.t) :=
  filter (λ e, ChatSession.currentRoom e.2 = Some roomId) (sessions cm).

(** For every room, [room.users] is the set of the user ids of the
    sessions whose current room is that room. *)
Definition membersConsistent (cm : t) : Prop :=
  ∀ roomId room,
    rooms cm !! roomId = Some room →
    ∀ userId,
      userId ∈ ChatRoom.users room ↔
      ∃ sessionId session,
        JsMap.get sessionId (sessions cm) = Some session
        ∧ ChatSession.currentRoom session = Some roomId
        ∧ ChatSession.userId session = userId.

(** Two sessions never carry the same user id (the [open] handler
    creates a user with a new id for every session). *)
Definition distinctUsers (cm : t) : Prop :=
  ∀ sid1 s1 sid2 s2,
    JsMap.get sid1 (sessions cm) = Some s1 →
    JsMap.get sid2 (sessions cm) = Some s2 →
    ChatSession.userId s1 = ChatSession.userId s2 →
    sid1 = sid2.

(** The shape of the registries that the operations rely on: unique
    session keys, one user per session, no room under the empty id. *)
Definition wellFormed (cm : t) : Prop :=
  JsMap.wf (sessions cm) ∧ distinctUsers cm ∧ rooms cm !! ""%string = None.

(** The session ids that are sent an envelope of type [ty], in order. *)
Definition recipients (ty : string) (out : list Delivery.t) : list string :=
  Delivery.sessionId <$> filter (λ d, Envelope.type (Delivery.message d) = ty) out.

(** The deliveries of one envelope to a list of sessions. *)
Definition deliverAll (message : Envelope.t) (l : list (string * ChatSession.t))
  : list Delivery.t :=
  (λ e, Delivery.mk e.1 (ChatSession.ws e.2) message) <$> l.

(** The two writes of [joinRoom]: [room.users.add(session.userId)] and
    [session.currentRoom = roomId]. *)
Definition enter (cm : t) (sessionId userId roomId : string) : t :=
  with_sessions (JsMap.alter (ChatSession.with_currentRoom (Some roomId)) sessionId)
    (with_rooms (alter (ChatRoom.with_users (JsSet.add userId)) roomId) cm).

(** What [leaveRoom] does when the session and the room exist. *)
Definition left (cm : t) (sid : string) (s : ChatSession.t) (R : string) : t :=
  with_sessions (JsMap.alter (ChatSession.with_currentRoom None) sid)
    (with_rooms (alter (ChatRoom.with_users (JsSet.delete (ChatSession.userId s))) R) cm).

(** The [users] map is keyed by the id of the user it holds
    ([this.users.set(user.id, user)]). *)
Definition usersKeyed (cm : t) : Prop :=
  ∀ k u, users cm !! k = Some u → ChatUser.id u = k.

(** The broadcast of the sweep for one expired entry of
    [typingIndicators]. *)
Definition sweepNotice (cm : t) (now : Z) (e : string * TypingIndicator.t)
  : list Delivery.t :=
  broadcastToRoom cm (TypingIndicator.roomId e.2)
    (Envelope.mk "typing_stop"
       (Envelope.Username (getUsernameById cm (TypingIndicator.userId e.2))) now) [].

End ChatInv.

(** ** A small run of the server, used by the examples below *)

Module Demo.
Import ChatManager.

(** The [open] handler of the server: a new user and a new session. *)
Definition connect (cm : t) (now : Z) (userUuid sessionUuid username : string) (ws : nat)
  (isGuest : bool) : t :=
  let '(user, cm1) := createUser cm now userUuid username isGuest in
  (createSession cm1 sessionUuid (ChatUser.id user) username ws isGuest).2.

(** Two connections, no room joined yet. *)
Definition connected : t :=
  connect (connect (new 0) 1 "u1" "s1" "alice" 1 false) 2 "u2" "s2" "bob" 2 false.

(** Alice and Bob are both in [general]. *)
Definition lobby : t :=
  (joinRoom (joinRoom connected 3 "s1" "general").1.2 4 "s2" "general").1.2.

(** One user with two sessions, both in [general]. *)
Definition shared : t :=
  let cm1 := (createUser (new 0) 1 "u1" "alice" false).2 in
  let cm2 := (createSession cm1 "s1" "u1" "alice" 1 false).2 in
  let cm3 := (createSession cm2 "s2" "u1" "alice" 2 false).2 in
  (joinRoom (joinRoom cm3 3 "s1" "general").1.2 4 "s2" "general").1.2.

(** Alice starts typing at 10 ms and Bob at 4000 ms. *)
Definition typing : t :=
  (startTyping (startTyping lobby 10 "s1" "general").1 4000 "s2" "general").1.

(** A session whose user id is not in [users], typing in [general]. *)
Definition ghost : t :=
  let cm1 := (createSession connected "s3" "u9" "carol" 3 false).2 in
  (startTyping (joinRoom cm1 3 "s3" "general").1.2 10 "s3" "general").1.

End Demo.

(** ** Predicates over names and identities *)

Module SessionSpec.
Import SessionManager.
(** Some registered identity, whatever its status, has this name up to
    letter case. *)
Definition nameTaken (sm : t) (username : string) : Prop :=
  ∃ u, u ∈ (users sm).*2
       ∧ JsString.toLowerCase (User.username u) = JsString.toLowerCase username.

(** Some identity that is not offline has this name up to letter case. *)
Definition nameTakenByActive (sm : t) (username : string) : Prop :=
  ∃ u, u ∈ (users sm).*2
       ∧ User.userStatus u ≠ User.offline
       ∧ JsString.toLowerCase (User.username u) = JsString.toLowerCase username.

(** The format of a display name: 2 to 20 characters, each a letter, a
    digit, an underscore or a dash. *)
Definition wellFormedName (username : string) : Prop :=
  (2 ≤ String.length username ≤ 20)%nat
  ∧ JsString.allChars JsString.isNameChar username = true.
End SessionSpec.

(** ** Predicates over the state of a MessageStore *)

Module StoreInv.
Import MessageStore.

(** The history array of a room ([this.messages.get(roomId) || []]). *)
Definition history (st : t) (roomId : string) : list Message.t :=
  default [] (messages st !! roomId).

(** Some history array holds a message with this id. *)
Definition present (st : t) (messageId : string) : Prop :=
  ∃ roomId roomMessages m,
    messages st !! roomId = Some roomMessages
    ∧ m ∈ roomMessages
    ∧ Message.id m = messageId.

(** The two maps of the store describe the same messages: an indexed
    message sits in the history of its room, a message of a history is the
    one indexed under its id, and a history has no two messages with one
    id. *)
Definition indexConsistent (st : t) : Prop :=
  (∀ messageId m,
     messageIndex st !! messageId = Some m →
     Message.id m = messageId
     ∧ ∃ roomMessages, messages st !! Message.roomId m = Some roomMessages
                       ∧ m ∈ roomMessages)
  ∧ (∀ roomId roomMessages m,
       messages st !! roomId = Some roomMessages →
       m ∈ roomMessages →
       messageIndex st !! Message.id m = Some m ∧ Message.roomId m = roomId)
  ∧ (∀ roomId roomMessages,
       messages st !! roomId = Some roomMessages →
       NoDup (Message.id <$> roomMessages)).

(** One [addMessage] call of a sequence sent to one room. *)
Record input := mkInput {
  in_uuid : string;
  in_userId : string;
  in_content : string;
  in_now : Z
}.

Definition messageOf (roomId : string) (i : input) : Message.t :=
  Message.mk (in_uuid i) roomId (in_userId i) (in_content i) "text" (in_now i) None [] None.

Definition addAll (st : t) (roomId : string) (inputs : list input) : t :=
  fold_left
    (λ st i,
       (addMessage st (in_now i) (in_uuid i) roomId (in_userId i) (in_content i)
          "text" None).2)
    inputs st.

(** The ids that [cleanupOldMessages] evicts from a history. *)
Definition evictedIds (maxMessages : nat) (roomMessages : list Message.t) : list string :=
  Message.id <$> take (length roomMessages - maxMessages) roomMessages.

End StoreInv.

(** ** Sample states of the stores and managers *)

Module DemoStore.
Import StoreInv.
(** 1001 messages with the ids [m0] to [m1000]. *)
Definition burst : list input :=
  (λ n : nat, mkInput ("m" +:+ pretty n) "u1" "hello" (Z.of_nat n)) <$> seq 0 1001.
End DemoStore.

Module DemoRooms.
Import RoomManager.
(** A room manager with the default rooms and a room created by ["u1"]. *)
Definition withClub : t := (createRoom (new 0) 1 "club" "Club" "Members only" "u1" true).2.
End DemoRooms.

Module DemoUsers.
Import SessionManager.
(** Bob connected and disconnected: his identity is offline. *)
Definition bobGone : t :=
  let '(user, sm1) := createUser new 1 "u1" "Bob" false in
  let '(sessionId, sm2) := createSession sm1 "s1" user in
  removeSession sm2 2 sessionId.
End DemoUsers.

(** ** Predicates over the states of the server *)

Module ServerInv.
Import ChatManager ChatInv.

(** The maps are keyed by the ids of the records they hold, and the user
    of every session is registered. *)
Definition registered (cm : t) : Prop :=
  usersKeyed cm
  ∧ ∀ sessionId session,
      JsMap.get sessionId (sessions cm) = Some session →
      ChatSession.id session = sessionId
      ∧ is_Some (users cm !! ChatSession.userId session).

(** The current room of a session is a room of the manager. *)
Definition currentRoomsExist (cm : t) : Prop :=
  ∀ sessionId session roomId,
    JsMap.get sessionId (sessions cm) = Some session →
    ChatSession.currentRoom session = Some roomId →
    is_Some (rooms cm !! roomId).

(** The rooms are the four default rooms. *)
Definition defaultRoomsOnly (cm : t) : Prop :=
  ∀ roomId,
    is_Some (rooms cm !! roomId)
    ↔ roomId ∈ ["general"; "random"; "tech"; "gaming"]%string.

Definition serverInvariant (cm : t) : Prop :=
  wellFormed cm
  ∧ membersConsistent cm
  ∧ registered cm
  ∧ currentRoomsExist cm
  ∧ defaultRoomsOnly cm
  ∧ JsMap.wf (typingIndicators cm).

(** The part of the invariant that the membership proofs do not need. *)
Definition shape (cm : t) : Prop :=
  registered cm ∧ currentRoomsExist cm ∧ defaultRoomsOnly cm.

End ServerInv.

(** ** chat/messages.ts: searching and counting

    [searchMessages] and [getMessageStats] read the history of a room.
    The start of the current day, which [getMessageStats] takes from the
    clock and the time zone, is an argument. *)

Module MessageQuery.
Import MessageStore.

(** [s.includes(sub)]. *)
Fixpoint includes (s sub : string) : bool :=
  String.prefix sub s
  || match s with
     | EmptyString => false
     | String _ s' => includes s' sub
     end.

(** The filter of [searchMessages]. *)
Definition matches (lowerQuery : string) (msg : Message.t) : bool :=
  String.eqb (Message.type msg) "text"
  && includes (JsString.toLowerCase (Message.content msg)) lowerQuery.

Definition searchMessages (st : t) (roomId query : string) (limit : nat)
  : list Message.t :=
  let roomMessages := default [] (messages st !! roomId) in
  let lowerQuery := JsString.toLowerCase query in
  sliceFromEnd limit (filter (λ msg, matches lowerQuery msg = true) roomMessages).

Record stats := mkStats {
  totalMessages : nat;
  todayMessages : nat;
  activeUsers : nat
}.

Definition getMessageStats (st : t) (today : Z) (roomId : string) : stats :=
  let roomMessages := default [] (messages st !! roomId) in
  let todayMessages := filter (λ msg, today ≤ Message.timestamp msg) roomMessages in
  let activeUsers := remove_dups (Message.userId <$> roomMessages) in
  mkStats (length roomMessages) (length todayMessages) (length activeUsers).

End MessageQuery.

(** ** Predicates over the reactions of a message *)

Module ReactionInv.

(** The users listed under an emoji ([reactions.get(emoji) || []]). *)
Definition reactedWith (r : list (string * list string)) (emoji : string) : list string :=
  default [] (JsMap.get emoji r).

(** A reactions map is tidy when its keys are unique, no emoji is mapped
    to an empty array and no array names a user twice. *)
Definition tidy (r : list (string * list string)) : Prop :=
  JsMap.wf r
  ∧ ∀ emoji users, JsMap.get emoji r = Some users → users ≠ [] ∧ NoDup users.

(** The reactions of the message stored under an id. *)
Definition reactionsOf (st : MessageStore.t) (messageId : string)
  : list (string * list string) :=
  default [] (Message.reactions <$> MessageStore.getMessage st messageId).

End ReactionInv.

(** ** The runs of a message store *)

Module StoreRun.
Import MessageStore.

(** The stores that a sequence of calls builds from the empty store.  The
    id of a new message is one that the index does not hold. *)
Inductive reached : t → Prop :=
| run_new : reached new
| run_addMessage st now uuid roomId userId content type replyTo :
    reached st →
    messageIndex st !! uuid = None →
    reached (addMessage st now uuid roomId userId content type replyTo).2
| run_editMessage st now messageId userId newContent :
    reached st → reached (editMessage st now messageId userId newContent).2
| run_addReaction st messageId userId emoji :
    reached st → reached (addReaction st messageId userId emoji).2
| run_removeReaction st messageId userId emoji :
    reached st → reached (removeReaction st messageId userId emoji).2
| run_deleteMessage st messageId userId isModeratorAction :
    reached st → reached (deleteMessage st messageId userId isModeratorAction).2.

(** Every indexed message has tidy reactions. *)
Definition reactionsTidy (st : t) : Prop :=
  ∀ messageId m,
    messageIndex st !! messageId = Some m → ReactionInv.tidy (Message.reactions m).

(** No history is longer than the default bound of [cleanupOldMessages]. *)
Definition bounded (st : t) : Prop :=
  ∀ roomId, (length (StoreInv.history st roomId) ≤ maxMessagesDefault)%nat.

Definition storeInvariant (st : t) : Prop :=
  StoreInv.indexConsistent st ∧ reactionsTidy st ∧ bounded st.

End StoreRun.

(** ** The runs of a room manager *)

Module RoomRun.
Import RoomManager.

(** The room managers that a sequence of calls builds from a new one.
    The id of a created room is one that no room has. *)
Inductive roomsReached : t → Prop :=
| rooms_new now : roomsReached (new now)
| rooms_createRoom rm now uuid name description createdBy isPrivate :
    roomsReached rm →
    rooms rm !! uuid = None →
    roomsReached (createRoom rm now uuid name description createdBy isPrivate).2
| rooms_joinRoom rm roomId userId :
    roomsReached rm → roomsReached (joinRoom rm roomId userId).2
| rooms_leaveRoom rm roomId userId :
    roomsReached rm → roomsReached (leaveRoom rm roomId userId).2
| rooms_addModerator rm roomId userId requesterId :
    roomsReached rm → roomsReached (addModerator rm roomId userId requesterId).2
| rooms_removeModerator rm roomId userId requesterId :
    roomsReached rm → roomsReached (removeModerator rm roomId userId requesterId).2
| rooms_deleteRoom rm roomId requesterId :
    roomsReached rm → roomsReached (deleteRoom rm roomId requesterId).2.

(** What holds of a room stored under [roomId]. *)
Definition roomOk (roomId : string) (room : Room.t) : Prop :=
  Room.id room = roomId
  ∧ Room.maxUsers room = None
  ∧ Room.createdBy room ∈ Room.moderators room
  ∧ NoDup (Room.users room)
  ∧ NoDup (Room.moderators room).

Definition roomInvariant (rm : t) : Prop :=
  (∀ d, d ∈ protectedRooms →
        ∃ room, rooms rm !! d = Some room ∧ Room.createdBy room = "system"%string)
  ∧ ∀ roomId room, rooms rm !! roomId = Some room → roomOk roomId room.

End RoomRun.

(** ** The runs of a session manager *)

Module SessionRun.
Import SessionManager.

(** One call on a session manager.  [createUser] draws an id that is not
    empty and that no user has; [createSession] is called with a
    registered user. *)
Inductive sessionStep : t → t → Prop :=
| step_createUser sm now uuid username isGuest :
    uuid ≠ ""%string →
    JsMap.get uuid (users sm) = None →
    sessionStep sm (createUser sm now uuid username isGuest).2
| step_createSession sm uuid user :
    JsMap.get (User.id user) (users sm) = Some user →
    sessionStep sm (createSession sm uuid user).2
| step_updateUserStatus sm now userId st :
    sessionStep sm (updateUserStatus sm now userId st)
| step_removeSession sm now sessionId :
    sessionStep sm (removeSession sm now sessionId).

(** The users map has unique keys, a user is stored under its own id,
    which is not empty, and every session leads to a stored user. *)
Definition sessionInvariant (sm : t) : Prop :=
  JsMap.wf (users sm)
  ∧ (∀ userId u, JsMap.get userId (users sm) = Some u →
                 User.id u = userId ∧ userId ≠ ""%string)
  ∧ (∀ sessionId userId, sessions sm !! sessionId = Some userId →
                         is_Some (JsMap.get userId (users sm))).

End SessionRun.

(** * Properties *)

(** ** Facts about the containers *)

Module JsSetFacts.
Import JsSet.

Lemma elem_of_add x y s : y ∈ add x s ↔ y = x ∨ y ∈ s.
Proof.
  unfold add. case_decide as Hx.
  - split; [by right | intros [-> | ?]; done].
  - rewrite elem_of_app, list_elem_of_singleton. tauto.
Qed.

Lemma elem_of_delete x y s : y ∈ delete x s ↔ y ≠ x ∧ y ∈ s.
Proof. unfold delete. by rewrite list_elem_of_filter. Qed.

Lemma NoDup_add x s : NoDup s → NoDup (add x s).
Proof.
  intros Hs. unfold add. case_decide as Hx; [done |].
  apply NoDup_app. split; [done |]. split; [| apply NoDup_singleton].
  intros y Hy ->%list_elem_of_singleton. done.
Qed.

Lemma NoDup_delete x s : NoDup s → NoDup (delete x s).
Proof. apply NoDup_filter. Qed.

Lemma delete_not_elem x s : x ∉ s → delete x s = s.
Proof.
  unfold delete. induction s as [| y s IH]; [done |].
  rewrite not_elem_of_cons. intros [Hne Hs].
  rewrite filter_cons_True by congruence. by rewrite IH.
Qed.

End JsSetFacts.

Module JsMapFacts.
Import JsMap.

Section facts.
Context {V : Type}.
Implicit Types (m : list (string * V)) (k : string) (v : V) (f : V → V).

Lemma get_alter_eq f k m : get k (alter f k m) = f <$> get k m.
Proof.
  induction m as [| [k' v'] m IH]; simpl; [done |].
  case_decide; simpl; case_decide; done.
Qed.

Lemma get_alter_ne f k k' m : k ≠ k' → get k' (alter f k m) = get k' m.
Proof.
  intros Hne. induction m as [| [k0 v0] m IH]; simpl; [done |].
  case_decide; simpl; case_decide; congruence.
Qed.

Lemma get_set_eq k v m : get k (set k v m) = Some v.
Proof.
  induction m as [| [k0 v0] m IH]; simpl.
  - by case_decide.
  - case_decide; simpl; case_decide; done.
Qed.

Lemma get_set_ne k k' v m : k ≠ k' → get k' (set k v m) = get k' m.
Proof.
  intros Hne. induction m as [| [k0 v0] m IH]; simpl.
  - by case_decide.
  - repeat (case_decide; simpl); congruence.
Qed.

Lemma get_Some_elem_of k v m : get k m = Some v → (k, v) ∈ m.
Proof.
  induction m as [| [k0 v0] m IH]; simpl; [done |].
  case_decide as Hk.
  - intros [= ->]. subst. apply list_elem_of_here.
  - intros H. apply list_elem_of_further. by apply IH.
Qed.

Lemma get_None_not_key k m : get k m = None ↔ k ∉ m.*1.
Proof.
  induction m as [| [k0 v0] m IH]; csimpl.
  - split; [intros _; apply not_elem_of_nil | done].
  - rewrite not_elem_of_cons. case_decide as Hk.
    + split; [done | intros [Hne _]; by subst].
    + rewrite IH. split; [intros ?; split; [congruence | done] | tauto].
Qed.

Lemma elem_of_get k v m : wf m → (k, v) ∈ m → get k m = Some v.
Proof.
  unfold wf. induction m as [| [k0 v0] m IH]; csimpl.
  - intros _ H. by apply elem_of_nil in H.
  - rewrite NoDup_cons. intros [Hk0 Hnd] [Heq | Hin]%elem_of_cons.
    + injection Heq as -> ->. by case_decide.
    + case_decide as Hk; [| by apply IH].
      subst. exfalso. apply Hk0. apply list_elem_of_fmap.
      by exists (k, v).
Qed.

Lemma alter_keys f k m : (alter f k m).*1 = m.*1.
Proof.
  induction m as [| [k0 v0] m IH]; csimpl; [done |].
  case_decide; csimpl; [done | by rewrite IH].
Qed.

Lemma wf_alter f k m : wf m → wf (alter f k m).
Proof. unfold wf. by rewrite alter_keys. Qed.

Lemma delete_keys_subset k k' m : k' ∈ (delete k m).*1 → k' ∈ m.*1.
Proof.
  induction m as [| [k0 v0] m IH]; csimpl; [done |].
  case_decide; csimpl.
  - apply list_elem_of_further.
  - rewrite !elem_of_cons. intros [-> | Hin]; [by left | right; by apply IH].
Qed.

Lemma wf_delete k m : wf m → wf (delete k m).
Proof.
  unfold wf. induction m as [| [k0 v0] m IH]; csimpl; [done |].
  rewrite NoDup_cons. intros [Hk0 Hnd]. case_decide; csimpl; [done |].
  apply NoDup_cons. split; [| by apply IH].
  intros H'. apply Hk0. by eapply delete_keys_subset.
Qed.

Lemma get_delete_eq k m : wf m → get k (delete k m) = None.
Proof.
  unfold wf. induction m as [| [k0 v0] m IH]; csimpl; [done |].
  rewrite NoDup_cons. intros [Hk0 Hnd]. case_decide as Hk; csimpl.
  - subst. by apply get_None_not_key.
  - case_decide; [done |]. by apply IH.
Qed.

Lemma get_delete_ne k k' m : k ≠ k' → get k' (delete k m) = get k' m.
Proof.
  intros Hne. induction m as [| [k0 v0] m IH]; csimpl; [done |].
  case_decide as Hk; csimpl.
  - case_decide; congruence.
  - case_decide; [done |]. apply IH.
Qed.

Lemma set_keys_elem k k' v m : k' ∈ (set k v m).*1 ↔ k' = k ∨ k' ∈ m.*1.
Proof.
  induction m as [| [k0 v0] m IH]; csimpl.
  - rewrite list_elem_of_singleton. split; [by left | intros [? | H]; [done |]].
    by apply elem_of_nil in H.
  - case_decide as Hk; csimpl; rewrite !elem_of_cons.
    + subst. tauto.
    + rewrite IH. tauto.
Qed.

Lemma wf_set k v m : wf m → wf (set k v m).
Proof.
  unfold wf. induction m as [| [k0 v0] m IH]; csimpl.
  - intros _. apply NoDup_singleton.
  - rewrite NoDup_cons. intros [Hk0 Hnd]. case_decide as Hk; csimpl.
    + subst. by apply NoDup_cons.
    + apply NoDup_cons. split; [| by apply IH].
      rewrite set_keys_elem. intros [-> | H]; done.
Qed.

Lemma alter_compose f g k m : alter f k (alter g k m) = alter (f ∘ g) k m.
Proof.
  induction m as [| [k0 v0] m IH]; simpl; [done |].
  case_decide; simpl; case_decide; try done. by rewrite IH.
Qed.

Lemma alter_ext f g k m :
  (∀ v, get k m = Some v → f v = g v) → alter f k m = alter g k m.
Proof.
  induction m as [| [k0 v0] m IH]; simpl; [done |].
  case_decide; intros Hfg; [by rewrite Hfg | by rewrite IH].
Qed.

Lemma alter_id f k m : (∀ v, get k m = Some v → f v = v) → alter f k m = m.
Proof.
  induction m as [| [k0 v0] m IH]; simpl; [done |].
  case_decide; intros Hf; [by rewrite Hf | by rewrite IH].
Qed.

Lemma delete_app_r k v m1 m2 :
  k ∉ m1.*1 → delete k (m1 ++ (k, v) :: m2) = m1 ++ m2.
Proof.
  induction m1 as [| [k0 v0] m1 IH]; csimpl.
  - intros _. by rewrite decide_True.
  - rewrite not_elem_of_cons. intros [Hne Hk].
    rewrite decide_False by done. by rewrite IH.
Qed.

End facts.

End JsMapFacts.

(** ** ChatManager: the membership invariant *)

Module ChatFacts.
Import ChatManager ChatInv.

Lemma broadcastToRoom_deliverAll cm roomId message exclude :
  broadcastToRoom cm roomId message exclude =
  match rooms cm !! roomId with
  | Some _ => deliverAll message (filter (λ e, e.1 ∉ exclude) (sessionsIn cm roomId))
  | None => []
  end.
Proof.
  unfold broadcastToRoom, deliverAll, sessionsIn.
  destruct (rooms cm !! roomId); [| done].
  induction (sessions cm) as [| [sid s] l IH]; [done |]. csimpl.
  rewrite IH. rewrite (filter_cons _ (sid, s)). simpl.
  destruct (decide (ChatSession.currentRoom s = Some roomId)) as [Hc | Hc].
  - rewrite (filter_cons _ (sid, s)). simpl.
    destruct (decide (sid ∉ exclude)) as [He | He].
    + rewrite decide_True by done. done.
    + rewrite decide_False by tauto. done.
  - rewrite decide_False by tauto. done.
Qed.

Lemma leaveRoom_consistent cm now sid R :
  membersConsistent cm →
  distinctUsers cm →
  (∀ s, JsMap.get sid (sessions cm) = Some s →
        ChatSession.currentRoom s = None ∨ ChatSession.currentRoom s = Some R) →
  membersConsistent (leaveRoom cm now sid R).1.
Proof.
  intros Hc Hd Hcur. unfold leaveRoom.
  destruct (JsMap.get sid (sessions cm)) as [s |] eqn:Hs; [| done].
  destruct (rooms cm !! R) as [r |] eqn:Hr; [| done].
  specialize (Hcur s eq_refl).
  intros R' room' Hroom' uid. simpl in *.
  destruct (decide (R' = R)) as [-> | Hne].
  - rewrite lookup_alter_eq, Hr in Hroom'. injection Hroom' as <-. simpl.
    rewrite JsSetFacts.elem_of_delete, (Hc _ _ Hr uid). split.
    + intros [Hu (sid' & s' & Hg & Hc' & Hu')].
      exists sid', s'. split; [| done].
      rewrite JsMapFacts.get_alter_ne; [done |]. intros ->. congruence.
    + intros (sid' & s' & Hg & Hc' & Hu').
      destruct (decide (sid = sid')) as [<- | Hsid].
      * rewrite JsMapFacts.get_alter_eq, Hs in Hg. injection Hg as <-. done.
      * rewrite JsMapFacts.get_alter_ne in Hg by done. split; [| by eauto].
        intros ->. apply Hsid. by eapply Hd.
  - rewrite lookup_alter_ne in Hroom' by done.
    rewrite (Hc _ _ Hroom' uid). split.
    + intros (sid' & s' & Hg & Hc' & Hu').
      exists sid', s'. split; [| done].
      rewrite JsMapFacts.get_alter_ne; [done |]. intros ->.
      rewrite Hs in Hg. injection Hg as <-. destruct Hcur; congruence.
    + intros (sid' & s' & Hg & Hc' & Hu').
      destruct (decide (sid = sid')) as [<- | Hsid].
      * rewrite JsMapFacts.get_alter_eq, Hs in Hg. injection Hg as <-. done.
      * rewrite JsMapFacts.get_alter_ne in Hg by done. eauto.
Qed.


Lemma with_sessions_alter_distinct cm f sid :
  (∀ s, ChatSession.userId (f s) = ChatSession.userId s) →
  distinctUsers cm → distinctUsers (with_sessions (JsMap.alter f sid) cm).
Proof.
  intros Hf Hd sid1 s1 sid2 s2. simpl. intros H1 H2 Hu.
  assert (∀ k v, JsMap.get k (JsMap.alter f sid (sessions cm)) = Some v →
            ∃ v0, JsMap.get k (sessions cm) = Some v0
                  ∧ ChatSession.userId v0 = ChatSession.userId v) as Hback.
  { intros k v. destruct (decide (sid = k)) as [<- | Hk].
    - rewrite JsMapFacts.get_alter_eq.
      destruct (JsMap.get sid (sessions cm)) as [v0 |]; [| done].
      intros [= <-]. eauto.
    - rewrite JsMapFacts.get_alter_ne by done. eauto. }
  apply Hback in H1 as (v1 & H1 & E1). apply Hback in H2 as (v2 & H2 & E2).
  eapply Hd; [done | done | congruence].
Qed.

Lemma leaveRoom_wellFormed cm now sid R :
  wellFormed cm → wellFormed (leaveRoom cm now sid R).1.
Proof.
  intros (Hwf & Hd & He). unfold leaveRoom.
  destruct (JsMap.get sid (sessions cm)) as [s |] eqn:Hs; [| done].
  destruct (rooms cm !! R) as [r |] eqn:Hr; [| done].
  split; [| split]; simpl.
  - by apply JsMapFacts.wf_alter.
  - by apply (with_sessions_alter_distinct (with_rooms _ cm)).
  - destruct (decide (R = ""%string)) as [-> | Hne]; [congruence |].
    by rewrite lookup_alter_ne.
Qed.

Lemma truthy_Some c : truthy c = true → ∃ x, c = Some x ∧ x ≠ ""%string.
Proof.
  destruct c as [x |]; [| done]. simpl. intros H. exists x. split; [done |].
  intros ->. done.
Qed.

Lemma truthy_false c : truthy c = false → c = None ∨ c = Some ""%string.
Proof.
  destruct c as [x |]; [| by left]. simpl. intros H. right.
  apply negb_false_iff, String.eqb_eq in H. by subst.
Qed.

Lemma leaveCurrent_spec cm now sid s :
  wellFormed cm → membersConsistent cm →
  JsMap.get sid (sessions cm) = Some s →
  let cm1 := (leaveCurrent cm now sid s).1 in
  wellFormed cm1 ∧ membersConsistent cm1
  ∧ (∀ R, is_Some (rooms cm1 !! R) ↔ is_Some (rooms cm !! R))
  ∧ ∃ s1, JsMap.get sid (sessions cm1) = Some s1
          ∧ ChatSession.userId s1 = ChatSession.userId s
          ∧ ∀ c, ChatSession.currentRoom s1 = Some c → rooms cm1 !! c = None.
Proof.
  intros Hwf Hc Hs. unfold leaveCurrent.
  destruct (truthy (ChatSession.currentRoom s)) eqn:Ht.
  - apply truthy_Some in Ht as (c & Hcur & Hne). rewrite Hcur. simpl.
    split; [by apply leaveRoom_wellFormed |].
    split.
    { apply leaveRoom_consistent; [done | apply Hwf |].
      intros s' Hs'. right. congruence. }
    unfold leaveRoom. rewrite Hs.
    destruct (rooms cm !! c) as [r |] eqn:Hr; simpl.
    + split.
      { intros R. rewrite lookup_alter_is_Some. done. }
      exists (ChatSession.with_currentRoom None s).
      rewrite JsMapFacts.get_alter_eq, Hs. done.
    + split; [done |]. exists s. split; [done |]. split; [done |].
      intros c'. rewrite Hcur. by intros [= <-].
  - simpl. split; [done |]. split; [done |]. split; [done |].
    exists s. split; [done |]. split; [done |].
    intros c Hcur. apply truthy_false in Ht as [Ht | Ht]; [congruence |].
    assert (c = ""%string) as -> by congruence. apply Hwf.
Qed.

Lemma enter_consistent cm sid s R :
  membersConsistent cm →
  JsMap.get sid (sessions cm) = Some s →
  (∀ c, ChatSession.currentRoom s = Some c → rooms cm !! c = None) →
  membersConsistent (enter cm sid (ChatSession.userId s) R).
Proof.
  intros Hc Hs Hout R' room' Hroom' uid. simpl in *.
  destruct (decide (R' = R)) as [-> | Hne].
  - rewrite lookup_alter_eq in Hroom'.
    destruct (rooms cm !! R) as [r |] eqn:Hr; [| done].
    injection Hroom' as <-. simpl.
    rewrite JsSetFacts.elem_of_add, (Hc _ _ Hr uid). split.
    + intros [-> | (sid' & s' & Hg & Hc' & Hu')].
      * exists sid, (ChatSession.with_currentRoom (Some R) s).
        by rewrite JsMapFacts.get_alter_eq, Hs.
      * exists sid', s'. split; [| done].
        rewrite JsMapFacts.get_alter_ne; [done |]. intros ->.
        rewrite Hs in Hg. injection Hg as <-.
        specialize (Hout _ Hc'). congruence.
    + intros (sid' & s' & Hg & Hc' & Hu').
      destruct (decide (sid = sid')) as [<- | Hsid].
      * rewrite JsMapFacts.get_alter_eq, Hs in Hg. injection Hg as <-.
        left. by rewrite <- Hu'.
      * rewrite JsMapFacts.get_alter_ne in Hg by done. right. eauto.
  - rewrite lookup_alter_ne in Hroom' by done.
    rewrite (Hc _ _ Hroom' uid). split.
    + intros (sid' & s' & Hg & Hc' & Hu').
      exists sid', s'. split; [| done].
      rewrite JsMapFacts.get_alter_ne; [done |]. intros ->.
      rewrite Hs in Hg. injection Hg as <-.
      specialize (Hout _ Hc'). congruence.
    + intros (sid' & s' & Hg & Hc' & Hu').
      destruct (decide (sid = sid')) as [<- | Hsid].
      * rewrite JsMapFacts.get_alter_eq, Hs in Hg. injection Hg as <-.
        simpl in Hc'. congruence.
      * rewrite JsMapFacts.get_alter_ne in Hg by done. eauto.
Qed.

Lemma enter_wellFormed cm sid uid R :
  wellFormed cm → wellFormed (enter cm sid uid R).
Proof.
  intros (Hwf & Hd & He). split; [| split]; simpl.
  - by apply JsMapFacts.wf_alter.
  - by apply (with_sessions_alter_distinct (with_rooms _ cm)).
  - destruct (decide (R = ""%string)) as [-> | Hne].
    + by rewrite lookup_alter_eq, He.
    + by rewrite lookup_alter_ne.
Qed.

Lemma joinRoom_state cm now sid R s :
  JsMap.get sid (sessions cm) = Some s →
  is_Some (rooms cm !! R) →
  joinRoom cm now sid R =
  (true,
   enter (leaveCurrent cm now sid s).1 sid (ChatSession.userId s) R,
   (leaveCurrent cm now sid s).2
   ++ broadcastToRoom (enter (leaveCurrent cm now sid s).1 sid (ChatSession.userId s) R) R
        (Envelope.mk "user_joined" (Envelope.Username (ChatSession.username s)) now) []
   ++ broadcastRoomUsers (enter (leaveCurrent cm now sid s).1 sid (ChatSession.userId s) R)
        now R).
Proof.
  intros Hs [r Hr]. unfold joinRoom. rewrite Hs, Hr.
  by destruct (leaveCurrent cm now sid s).
Qed.

Lemma joinRoom_invariant cm now sid R :
  wellFormed cm → membersConsistent cm →
  wellFormed (joinRoom cm now sid R).1.2 ∧ membersConsistent (joinRoom cm now sid R).1.2.
Proof.
  intros Hwf Hc.
  destruct (JsMap.get sid (sessions cm)) as [s |] eqn:Hs;
    [| by unfold joinRoom; rewrite Hs].
  destruct (rooms cm !! R) as [r |] eqn:Hr;
    [| by unfold joinRoom; rewrite Hs, Hr].
  rewrite (joinRoom_state _ _ _ _ s) by eauto. simpl.
  destruct (leaveCurrent_spec cm now sid s Hwf Hc Hs)
    as (Hwf1 & Hc1 & Hrooms & s1 & Hs1 & Hu1 & Hout).
  split; [by apply enter_wellFormed |].
  rewrite <- Hu1. by apply enter_consistent.
Qed.

Lemma removeSession_invariant cm now sid :
  wellFormed cm → membersConsistent cm →
  wellFormed (removeSession cm now sid).1 ∧ membersConsistent (removeSession cm now sid).1.
Proof.
  intros Hwf Hc. unfold removeSession.
  destruct (JsMap.get sid (sessions cm)) as [s |] eqn:Hs.
  -     destruct (leaveCurrent_spec cm now sid s Hwf Hc Hs)
      as (Hwf1 & Hc1 & Hrooms & s1 & Hs1 & Hu1 & Hout).
    destruct (leaveCurrent cm now sid s) as [cm1 out]. simpl in *.
    destruct Hwf1 as (Hk & Hd & He).
    split.
    + split; [by apply JsMapFacts.wf_delete |]. split; [| done].
      intros a sa b sb Ha Hb Hu. simpl in *.
      destruct (decide (sid = a)) as [<- | Hna];
        [by rewrite JsMapFacts.get_delete_eq in Ha |].
      destruct (decide (sid = b)) as [<- | Hnb];
        [by rewrite JsMapFacts.get_delete_eq in Hb |].
      rewrite JsMapFacts.get_delete_ne in Ha, Hb by done. by eapply Hd.
    + intros R' room' Hroom' uid. simpl in *.
      rewrite (Hc1 _ _ Hroom' uid). split.
      * intros (sid' & s' & Hg & Hc' & Hu').
        exists sid', s'. split; [| done].
        rewrite JsMapFacts.get_delete_ne; [done |]. intros ->.
        rewrite Hs1 in Hg. injection Hg as <-.
        specialize (Hout _ Hc'). congruence.
      * intros (sid' & s' & Hg & Hc' & Hu').
        destruct (decide (sid = sid')) as [<- | Hsid];
          [by rewrite JsMapFacts.get_delete_eq in Hg |].
        rewrite JsMapFacts.get_delete_ne in Hg by done. eauto.
  - simpl. destruct Hwf as (Hk & Hd & He).
    assert (JsMap.delete sid (sessions cm) = sessions cm) as Hid.
    { apply JsMapFacts.get_None_not_key in Hs. clear -Hs.
      induction (sessions cm) as [| [k v] l IH]; [done |]. csimpl in *.
      apply not_elem_of_cons in Hs as [Hne Hs].
      rewrite decide_False by done. by rewrite IH. }
    unfold with_sessions, wellFormed, distinctUsers, membersConsistent. simpl.
    rewrite Hid. done.
Qed.

Lemma new_invariant now : wellFormed (new now) ∧ membersConsistent (new now).
Proof.
  split.
  - split; [apply NoDup_nil_2 |]. split; [by intros ? ? ? ? [=] |].
    by vm_compute.
  - intros roomId room Hroom uid.
    assert (ChatRoom.users room = []) as ->.
    { unfold new, createDefaultRooms, defaultRooms in Hroom. simpl in Hroom.
      repeat (apply lookup_insert_Some in Hroom as [[_ <-] | [_ Hroom]]; [done |]).
      by rewrite lookup_empty in Hroom. }
    split; [by intros ?%elem_of_nil | by intros (? & ? & [=] & _)].
Qed.

Lemma createUser_invariant cm now uuid username isGuest :
  wellFormed cm → membersConsistent cm →
  wellFormed (createUser cm now uuid username isGuest).2
  ∧ membersConsistent (createUser cm now uuid username isGuest).2.
Proof. done. Qed.

Lemma createSession_invariant cm uuid userId username ws isGuest :
  wellFormed cm → membersConsistent cm →
  JsMap.get uuid (sessions cm) = None →
  (∀ sid s, JsMap.get sid (sessions cm) = Some s → ChatSession.userId s ≠ userId) →
  wellFormed (createSession cm uuid userId username ws isGuest).2
  ∧ membersConsistent (createSession cm uuid userId username ws isGuest).2.
Proof.
  intros (Hk & Hd & He) Hc Hfresh Hu.
  set (session := ChatSession.mk uuid userId username ws None isGuest).
  assert (∀ k v, JsMap.get k (JsMap.set uuid session (sessions cm)) = Some v →
            (k = uuid ∧ v = session) ∨ (k ≠ uuid ∧ JsMap.get k (sessions cm) = Some v))
    as Hget.
  { intros k v. destruct (decide (uuid = k)) as [<- | Hne].
    - rewrite JsMapFacts.get_set_eq. intros [= <-]. by left.
    - rewrite JsMapFacts.get_set_ne by done. intros ?. right. split; congruence. }
  split; [split; [| split] |]; simpl.
  - by apply JsMapFacts.wf_set.
  - intros a sa b sb Ha Hb Hab. simpl in *.
    apply Hget in Ha as [[-> ->] | [Hna Ha]]; apply Hget in Hb as [[-> ->] | [Hnb Hb]].
    + done.
    + exfalso. by eapply Hu.
    + exfalso. by eapply Hu.
    + by eapply Hd.
  - done.
  - intros R room Hroom uid. simpl in *. rewrite (Hc _ _ Hroom uid). split.
    + intros (sid' & s' & Hg & Hc' & Hu'). exists sid', s'. split; [| done].
      rewrite JsMapFacts.get_set_ne; [done |]. intros ->. congruence.
    + intros (sid' & s' & Hg & Hc' & Hu').
      apply Hget in Hg as [[-> ->] | [Hne Hg]]; [done | eauto].
Qed.

Lemma connected_invariant : wellFormed Demo.connected ∧ membersConsistent Demo.connected.
Proof.
  unfold Demo.connected, Demo.connect. simpl.
  destruct (new_invariant 0) as [H0 C0].
  destruct (createSession_invariant
              (createUser (new 0) 1 "u1" "alice" false).2 "s1" "u1" "alice" 1 false)
    as [H1 C1]; [done | done | done | by intros ? ? [=] |].
  apply createSession_invariant; [done | done | done |].
  intros sid s. simpl. case_decide; [| done]. by intros [= <-].
Qed.

Lemma lobby_invariant : wellFormed Demo.lobby ∧ membersConsistent Demo.lobby.
Proof.
  destruct connected_invariant as [H0 C0].
  destruct (joinRoom_invariant Demo.connected 3 "s1" "general" H0 C0) as [H1 C1].
  by apply joinRoom_invariant.
Qed.

(** Claim C1 (membership consistency), as the code has it.  In a
    ChatManager whose sessions carry pairwise distinct user ids and that
    has no room under the empty id, the property "for every room R,
    R.users is exactly the set of user ids of the sessions whose
    currentRoom is R" is preserved, together with these two side
    conditions, by every [joinRoom], by every [removeSession], and by every
    [leaveRoom(s, R)] in which R is the current room of s or s has no
    current room. *)
Theorem membership_consistency (cm : t) (now : Z) (sessionId roomId : string) :
  wellFormed cm →
  membersConsistent cm →
  (wellFormed (joinRoom cm now sessionId roomId).1.2
   ∧ membersConsistent (joinRoom cm now sessionId roomId).1.2)
  ∧ ((∀ s, JsMap.get sessionId (sessions cm) = Some s →
           ChatSession.currentRoom s = None ∨ ChatSession.currentRoom s = Some roomId) →
     wellFormed (leaveRoom cm now sessionId roomId).1
     ∧ membersConsistent (leaveRoom cm now sessionId roomId).1)
  ∧ (wellFormed (removeSession cm now sessionId).1
     ∧ membersConsistent (removeSession cm now sessionId).1).
Proof.
  intros Hwf Hc. split; [by apply joinRoom_invariant |].
  split; [| by apply removeSession_invariant].
  intros Hcur. split; [by apply leaveRoom_wellFormed |].
  apply leaveRoom_consistent; [done | apply Hwf | done].
Qed.

Lemma membership_consistency_witness :
  wellFormed Demo.lobby ∧ membersConsistent Demo.lobby
  ∧ membersConsistent (joinRoom Demo.lobby 5 "s1" "tech").1.2
  ∧ membersConsistent (leaveRoom Demo.lobby 5 "s1" "general").1
  ∧ membersConsistent (removeSession Demo.lobby 5 "s1").1.
Proof.
  destruct lobby_invariant as [Hwf Hc].
  destruct (membership_consistency Demo.lobby 5 "s1" "tech" Hwf Hc) as [[_ Hj] [_ [_ Hr]]].
  destruct (membership_consistency Demo.lobby 5 "s1" "general" Hwf Hc) as [_ [Hl _]].
  split; [exact Hwf |]. split; [exact Hc |]. split; [exact Hj |].
  split; [| exact Hr].
  apply Hl. intros s. vm_compute. intros [= <-]. by right.
Defined.

(** Claim C1 as stated fails in two ways.  [leaveRoom] does not compare
    its room argument with the session's current room: Alice is in
    [general], and [leaveRoom("s1", "random")] clears her current room and
    leaves her user id in the member set of [general].  And the member set
    holds user ids: when one user has two sessions in [general] and one of
    them leaves, the user id is removed although the other session is still
    in the room. *)
Lemma leaveRoom_breaks_membership :
  (membersConsistent Demo.lobby
   ∧ ¬ membersConsistent (leaveRoom Demo.lobby 5 "s1" "random").1)
  ∧ ¬ membersConsistent (leaveRoom Demo.shared 5 "s1" "general").1.
Proof.
  split; [split; [apply lobby_invariant |] |].
  - intros Hc.
    set (cm' := (leaveRoom Demo.lobby 5 "s1" "random").1) in *.
    assert (rooms cm' !! "general"%string
            = Some (ChatRoom.mk "general" "General" "General discussion for everyone"
                      false ["u1"; "u2"]%string [] 0)) as Hr by (by vm_compute).
    assert (sessions cm'
            = [("s1", ChatSession.mk "s1" "u1" "alice" 1 None false);
               ("s2", ChatSession.mk "s2" "u2" "bob" 2 (Some "general") false)]%string)
      as Hs by (by vm_compute).
    destruct (proj1 (Hc _ _ Hr "u1"%string)) as (sid & s & Hg & Hcur & Hu).
    { simpl. apply list_elem_of_here. }
    rewrite Hs in Hg. cbn [JsMap.get] in Hg. clear Hc Hr Hs.
    case_decide as H1.
    + injection Hg as <-. cbn in Hcur. discriminate.
    + case_decide as H2; [| discriminate].
      injection Hg as <-. cbn in Hu. discriminate.
  - intros Hc.
    set (cm' := (leaveRoom Demo.shared 5 "s1" "general").1) in *.
    assert (rooms cm' !! "general"%string
            = Some (ChatRoom.mk "general" "General" "General discussion for everyone"
                      false [] [] 0)) as Hr by (by vm_compute).
    assert (JsMap.get "s2"%string (sessions cm')
            = Some (ChatSession.mk "s2" "u1" "alice" 2 (Some "general"%string) false))
      as Hs by (by vm_compute).
    assert ("u1"%string ∈ @nil string) as Hin; [| by apply elem_of_nil in Hin].
    apply (Hc _ _ Hr "u1"%string). eauto.
Qed.

(** ** ChatManager: leaving and joining *)

Lemma recipients_app ty out1 out2 :
  recipients ty (out1 ++ out2) = recipients ty out1 ++ recipients ty out2.
Proof. unfold recipients. by rewrite filter_app, fmap_app. Qed.

Lemma recipients_deliverAll ty message l :
  recipients ty (deliverAll message l) =
  if decide (Envelope.type message = ty) then l.*1 else [].
Proof.
  unfold recipients, deliverAll.
  induction l as [| [sid s] l IH]; csimpl; [by case_decide |].
  rewrite filter_cons. simpl. case_decide; csimpl; by rewrite IH.
Qed.

Lemma JsSet_delete_idemp u l : JsSet.delete u (JsSet.delete u l) = JsSet.delete u l.
Proof. unfold JsSet.delete. by apply list_filter_filter_l. Qed.

Lemma filter_ne_absent_key (P : string * ChatSession.t → Prop)
  `{!∀ e, Decision (P e)} (sid : string) (l : list (string * ChatSession.t)) :
  sid ∉ l.*1 → filter (λ e, e.1 ≠ sid) (filter P l) = filter P l.
Proof.
  induction l as [| [k v] l IH]; [done |]. csimpl.
  rewrite not_elem_of_cons. intros [Hne Hl].
  rewrite (filter_cons P). case_decide.
  - rewrite filter_cons_True by (simpl; congruence). by rewrite IH.
  - by apply IH.
Qed.

(** The sessions of a room once [sid] has had its current room cleared. *)
Lemma sessionsIn_leave cm sid R :
  JsMap.wf (sessions cm) →
  sessionsIn (with_sessions (JsMap.alter (ChatSession.with_currentRoom None) sid) cm) R
  = filter (λ e, e.1 ≠ sid) (sessionsIn cm R).
Proof.
  unfold sessionsIn, JsMap.wf. simpl.
  induction (sessions cm) as [| [k v] l IH]; [done |]. csimpl.
  rewrite NoDup_cons. intros [Hk Hnd]. case_decide as Hkey.
  - subst k. rewrite filter_cons_False by (simpl; congruence).
    rewrite (filter_cons _ (sid, v)). case_decide.
    + rewrite filter_cons_False by (simpl; tauto).
      by rewrite filter_ne_absent_key.
    + by rewrite filter_ne_absent_key.
  - rewrite !(filter_cons _ (k, v)). simpl. case_decide.
    + rewrite filter_cons_True by done. by rewrite IH.
    + by apply IH.
Qed.

Lemma filter_all {A} (P : A → Prop) `{!∀ x, Decision (P x)} (l : list A) :
  (∀ x, P x) → filter P l = l.
Proof.
  intros HP. induction l as [| x l IH]; [done |].
  by rewrite filter_cons_True, IH.
Qed.

Lemma broadcastToRoom_all cm roomId message :
  broadcastToRoom cm roomId message [] =
  match rooms cm !! roomId with
  | Some _ => deliverAll message (sessionsIn cm roomId)
  | None => []
  end.
Proof.
  rewrite broadcastToRoom_deliverAll. destruct (rooms cm !! roomId); [| done].
  rewrite filter_all; [done |]. intros e. apply not_elem_of_nil.
Qed.

Lemma leaveRoom_found cm now sid R s r :
  JsMap.get sid (sessions cm) = Some s →
  rooms cm !! R = Some r →
  leaveRoom cm now sid R =
  (left cm sid s R,
   deliverAll (Envelope.mk "user_left" (Envelope.Username (ChatSession.username s)) now)
     (sessionsIn (left cm sid s R) R)
   ++ deliverAll
        (Envelope.mk "room_users"
           (Envelope.RoomUsers R
              (roomUserInfos cm
                 (ChatRoom.with_users (JsSet.delete (ChatSession.userId s)) r))) now)
        (sessionsIn (left cm sid s R) R)).
Proof.
  intros Hs Hr. unfold leaveRoom, broadcastRoomUsers. rewrite Hs, Hr.
  simpl. rewrite lookup_alter_eq, Hr. simpl.
  rewrite !broadcastToRoom_all. simpl.
  by rewrite lookup_alter_eq, Hr.
Qed.

Lemma leaveRoom_missing cm now sid R :
  JsMap.get sid (sessions cm) = None ∨ rooms cm !! R = None →
  leaveRoom cm now sid R = (cm, []).
Proof.
  unfold leaveRoom. intros [-> | ->]; [done |].
  by destruct (JsMap.get sid (sessions cm)).
Qed.

Lemma left_idemp cm sid s R :
  left (left cm sid s R) sid (ChatSession.with_currentRoom None s) R = left cm sid s R.
Proof.
  unfold left, with_sessions, with_rooms. simpl. f_equal.
  - rewrite alter_alter_eq. apply alter_ext. intros r _. unfold ChatRoom.with_users.
    simpl. by rewrite JsSet_delete_idemp.
  - rewrite JsMapFacts.alter_compose. by apply JsMapFacts.alter_ext.
Qed.

(** Claim C4 (leaveRoom twice), as the code has it.  The second of two
    successive [leaveRoom(s, R)] calls never fails and changes no registry
    state; when the session and the room exist it still broadcasts
    [user_left] and [room_users] to every session that is in R at that
    time.  A call for an unknown session or room does nothing. *)
Theorem leaveRoom_twice (cm : t) (now now' : Z) (sessionId roomId : string) :
  let cm1 := (leaveRoom cm now sessionId roomId).1 in
  (leaveRoom cm1 now' sessionId roomId).1 = cm1
  ∧ (∀ s r,
       JsMap.get sessionId (sessions cm) = Some s →
       rooms cm !! roomId = Some r →
       recipients "user_left" (leaveRoom cm1 now' sessionId roomId).2
       = (sessionsIn cm1 roomId).*1
       ∧ recipients "room_users" (leaveRoom cm1 now' sessionId roomId).2
         = (sessionsIn cm1 roomId).*1)
  ∧ (JsMap.get sessionId (sessions cm) = None ∨ rooms cm !! roomId = None →
     leaveRoom cm now sessionId roomId = (cm, [])).
Proof.
  simpl. split; [| split].
  - destruct (JsMap.get sessionId (sessions cm)) as [s |] eqn:Hs.
    + destruct (rooms cm !! roomId) as [r |] eqn:Hr.
      * rewrite (leaveRoom_found _ _ _ _ _ _ Hs Hr). simpl.
        erewrite leaveRoom_found.
        -- simpl. apply left_idemp.
        -- simpl. by rewrite JsMapFacts.get_alter_eq, Hs.
        -- simpl. by rewrite lookup_alter_eq, Hr.
      * rewrite (leaveRoom_missing cm) by auto. simpl.
        by rewrite leaveRoom_missing by auto.
    + rewrite (leaveRoom_missing cm) by auto. simpl.
      by rewrite leaveRoom_missing by auto.
  - intros s r Hs Hr. rewrite (leaveRoom_found _ _ _ _ _ _ Hs Hr). simpl.
    erewrite leaveRoom_found.
    + simpl. rewrite !recipients_app, !recipients_deliverAll. simpl.
      rewrite left_idemp. rewrite app_nil_r. done.
    + simpl. by rewrite JsMapFacts.get_alter_eq, Hs.
    + simpl. by rewrite lookup_alter_eq, Hr.
  - apply leaveRoom_missing.
Qed.

Lemma leaveRoom_twice_witness :
  (leaveRoom (leaveRoom Demo.lobby 5 "s1" "general").1 6 "s1" "general").1
  = (leaveRoom Demo.lobby 5 "s1" "general").1
  ∧ recipients "user_left"
      (leaveRoom (leaveRoom Demo.lobby 5 "s1" "general").1 6 "s1" "general").2
    = ["s2"%string].
Proof.
  destruct (leaveRoom_twice Demo.lobby 5 6 "s1" "general") as (Hst & Hout & _).
  destruct (Hout (ChatSession.mk "s1" "u1" "alice" 1 (Some "general"%string) false)
              (ChatRoom.mk "general" "General" "General discussion for everyone"
                 false ["u1"; "u2"]%string [] 0)) as [Hl _]; [by vm_compute .. |].
  split; [exact Hst |]. rewrite Hl. by vm_compute.
Defined.

(** Claim C4 as stated fails on the broadcasts: Alice leaves [general]
    twice while Bob is in it; the second call sends Bob [user_left] and
    [room_users] again. *)
Lemma leaveRoom_twice_broadcasts_again :
  (leaveRoom (leaveRoom Demo.lobby 5 "s1" "general").1 6 "s1" "general").2
  = [ Delivery.mk "s2" 2 (Envelope.mk "user_left" (Envelope.Username "alice") 6);
      Delivery.mk "s2" 2
        (Envelope.mk "room_users"
           (Envelope.RoomUsers "general" [Envelope.mkUserInfo "u2" "bob" false]) 6) ].
Proof. by vm_compute. Qed.

Lemma wellFormed_room_nonempty cm R r :
  wellFormed cm → rooms cm !! R = Some r → truthy (Some R) = true.
Proof.
  intros (_ & _ & He) Hr. simpl. apply negb_true_iff, String.eqb_neq.
  intros ->. congruence.
Qed.

Lemma with_currentRoom_restore s R :
  ChatSession.currentRoom s = Some R →
  ChatSession.with_currentRoom (Some R) (ChatSession.with_currentRoom None s) = s.
Proof. destruct s. simpl. by intros ->. Qed.

Lemma sessionsIn_sessions cm cm' R :
  sessions cm' = sessions cm → sessionsIn cm' R = sessionsIn cm R.
Proof. unfold sessionsIn. by intros ->. Qed.

Lemma sessionsIn_left cm sid s R R' :
  JsMap.wf (sessions cm) →
  sessionsIn (left cm sid s R) R' = filter (λ e, e.1 ≠ sid) (sessionsIn cm R').
Proof. intros Hwf. unfold left. by rewrite (sessionsIn_leave (with_rooms _ cm)). Qed.

(** The two broadcasts that close [joinRoom]. *)
Lemma enter_broadcasts cmL now sid u R rL message :
  rooms cmL !! R = Some rL →
  broadcastToRoom (enter cmL sid u R) R message []
  ++ broadcastRoomUsers (enter cmL sid u R) now R
  = deliverAll message (sessionsIn (enter cmL sid u R) R)
    ++ deliverAll
         (Envelope.mk "room_users"
            (Envelope.RoomUsers R
               (roomUserInfos cmL (ChatRoom.with_users (JsSet.add u) rL))) now)
         (sessionsIn (enter cmL sid u R) R).
Proof.
  intros Hr. unfold broadcastRoomUsers. simpl. rewrite lookup_alter_eq, Hr. simpl.
  rewrite !broadcastToRoom_all. simpl. by rewrite lookup_alter_eq, Hr.
Qed.

(** Claim C3 (re-join), as the code has it.  For a session s whose
    current room is the existing room R, [joinRoom(s, R)] reports success
    and leaves the registries as they were: the same sessions with the same
    current rooms, the same rooms, and in R the same members (s's user
    moves to the end of the member set).  It is carried out as a leave
    followed by a join: [user_left] and a [room_users] list are sent to the
    other sessions of R, then [user_joined] and [room_users] to every
    session of R, s included. *)
Theorem rejoin_same_room (cm : t) (now : Z) (sessionId roomId : string)
  (s : ChatSession.t) (r : ChatRoom.t) :
  wellFormed cm →
  membersConsistent cm →
  JsMap.get sessionId (sessions cm) = Some s →
  ChatSession.currentRoom s = Some roomId →
  rooms cm !! roomId = Some r →
  let cm' := (joinRoom cm now sessionId roomId).1.2 in
  let out := (joinRoom cm now sessionId roomId).2 in
  let others := filter (λ e, e.1 ≠ sessionId) (sessionsIn cm roomId) in
  (joinRoom cm now sessionId roomId).1.1 = true
  ∧ sessions cm' = sessions cm
  ∧ users cm' = users cm
  ∧ typingIndicators cm' = typingIndicators cm
  ∧ (∀ R', R' ≠ roomId → rooms cm' !! R' = rooms cm !! R')
  ∧ (∃ r', rooms cm' !! roomId = Some r'
           ∧ (∀ u, u ∈ ChatRoom.users r' ↔ u ∈ ChatRoom.users r)
           ∧ ChatRoom.with_users (λ _, ChatRoom.users r) r' = r)
  ∧ recipients "user_left" out = others.*1
  ∧ recipients "user_joined" out = (sessionsIn cm roomId).*1
  ∧ recipients "room_users" out = others.*1 ++ (sessionsIn cm roomId).*1.
Proof.
  intros Hwf Hc Hs Hcur Hr. simpl.
  rewrite (joinRoom_state _ _ _ _ s) by eauto.
  unfold leaveCurrent. rewrite Hcur, (wellFormed_room_nonempty _ _ _ Hwf Hr).
  simpl. rewrite (leaveRoom_found _ _ _ _ _ _ Hs Hr). simpl.
  assert (JsMap.alter (ChatSession.with_currentRoom (Some roomId)) sessionId
            (JsMap.alter (ChatSession.with_currentRoom None) sessionId (sessions cm))
          = sessions cm) as Hsess.
  { rewrite JsMapFacts.alter_compose. apply JsMapFacts.alter_id.
    intros v Hv. assert (v = s) as -> by congruence.
    by apply with_currentRoom_restore. }
  split; [done |]. split; [done |]. split; [done |]. split; [done |].
  split; [by intros R' Hne; rewrite !lookup_alter_ne |].
  split.
  { rewrite !lookup_alter_eq, Hr. simpl. eexists. split; [done |]. split.
    - intros u. simpl. rewrite JsSetFacts.elem_of_add, JsSetFacts.elem_of_delete.
      split; [| destruct (decide (u = ChatSession.userId s)); tauto].
      intros [-> | [_ H]]; [| done]. apply (Hc _ _ Hr). eauto.
    - by destruct r. }
  erewrite enter_broadcasts by (simpl; by rewrite lookup_alter_eq, Hr).
  rewrite !recipients_app, !recipients_deliverAll. simpl.
  rewrite !sessionsIn_left by apply Hwf.
  rewrite !(sessionsIn_sessions cm
              (enter (left cm sessionId s roomId) sessionId (ChatSession.userId s) roomId)
              roomId Hsess).
  rewrite !app_nil_r. done.
Qed.

Lemma rejoin_same_room_witness :
  recipients "user_left" (joinRoom Demo.lobby 5 "s1" "general").2 = ["s2"%string]
  ∧ recipients "user_joined" (joinRoom Demo.lobby 5 "s1" "general").2
    = ["s1"; "s2"]%string.
Proof.
  destruct lobby_invariant as [Hwf Hc].
  destruct (rejoin_same_room Demo.lobby 5 "s1" "general"
              (ChatSession.mk "s1" "u1" "alice" 1 (Some "general"%string) false)
              (ChatRoom.mk "general" "General" "General discussion for everyone"
                 false ["u1"; "u2"]%string [] 0) Hwf Hc)
    as (_ & _ & _ & _ & _ & _ & Hl & Hj & _); [by vm_compute .. |].
  split; [exact Hl | exact Hj].
Defined.

(** Claim C3 as stated fails on the effects: Alice, already in [general]
    with Bob, joins [general] again.  Bob is told that she left, and the
    member set of [general] is reordered. *)
Lemma rejoin_broadcasts_leave :
  ChatSession.currentRoom <$> JsMap.get "s1"%string (sessions Demo.lobby)
  = Some (Some "general"%string)
  ∧ (joinRoom Demo.lobby 5 "s1" "general").1.1 = true
  ∧ Delivery.mk "s2" 2 (Envelope.mk "user_left" (Envelope.Username "alice") 5)
    ∈ (joinRoom Demo.lobby 5 "s1" "general").2
  ∧ ChatRoom.users <$> rooms Demo.lobby !! "general"%string = Some ["u1"; "u2"]%string
  ∧ ChatRoom.users <$> rooms (joinRoom Demo.lobby 5 "s1" "general").1.2 !! "general"%string
    = Some ["u2"; "u1"]%string.
Proof.
  split; [by vm_compute |]. split; [by vm_compute |].
  split; [| split; by vm_compute].
  assert ((joinRoom Demo.lobby 5 "s1" "general").2 !! 0%nat
          = Some (Delivery.mk "s2" 2
                    (Envelope.mk "user_left" (Envelope.Username "alice") 5)))
    as H by (by vm_compute).
  by eapply list_elem_of_lookup_2.
Qed.


Lemma roomUserInfos_ids cm room uid :
  usersKeyed cm →
  uid ∈ Envelope.info_id <$> roomUserInfos cm room
  ↔ uid ∈ ChatRoom.users room ∧ is_Some (users cm !! uid).
Proof.
  intros Hk. unfold roomUserInfos. rewrite list_elem_of_fmap. split.
  - intros (info & -> & (u & Hu & Hinfo)%list_elem_of_omap).
    destruct (users cm !! u) as [user |] eqn:Huser; [| done].
    injection Hinfo as <-. simpl. rewrite (Hk _ _ Huser). eauto.
  - intros [Hin [user Huser]].
    exists (Envelope.mkUserInfo (ChatUser.id user) (ChatUser.username user)
              (ChatUser.isGuest user)).
    split; [by rewrite (Hk _ _ Huser) |].
    apply list_elem_of_omap. exists uid. by rewrite Huser.
Qed.

(** Claim C6 (room switch).  For a session s in room A, [joinRoom(s, B)]
    with B another existing room first does what [leaveRoom(s, A)] does and
    then joins B: its deliveries are those of the leave, addressed to the
    sessions that remain in A with a member list that no longer has s's
    user, followed by [user_joined] and a member list with s's user,
    addressed to the sessions of B, s included. *)
Theorem room_switch_order (cm : t) (now : Z) (sessionId roomA roomB : string)
  (s : ChatSession.t) (rA rB : ChatRoom.t) :
  wellFormed cm →
  usersKeyed cm →
  JsMap.get sessionId (sessions cm) = Some s →
  ChatSession.currentRoom s = Some roomA →
  rooms cm !! roomA = Some rA →
  rooms cm !! roomB = Some rB →
  roomA ≠ roomB →
  let cmA := left cm sessionId s roomA in
  let cmB := enter cmA sessionId (ChatSession.userId s) roomB in
  let infosA :=
    roomUserInfos cm (ChatRoom.with_users (JsSet.delete (ChatSession.userId s)) rA) in
  let infosB :=
    roomUserInfos cm (ChatRoom.with_users (JsSet.add (ChatSession.userId s)) rB) in
  let username := Envelope.Username (ChatSession.username s) in
  leaveRoom cm now sessionId roomA =
    (cmA,
     deliverAll (Envelope.mk "user_left" username now) (sessionsIn cmA roomA)
     ++ deliverAll (Envelope.mk "room_users" (Envelope.RoomUsers roomA infosA) now)
          (sessionsIn cmA roomA))
  ∧ joinRoom cm now sessionId roomB =
    (true, cmB,
     (leaveRoom cm now sessionId roomA).2
     ++ deliverAll (Envelope.mk "user_joined" username now) (sessionsIn cmB roomB)
     ++ deliverAll (Envelope.mk "room_users" (Envelope.RoomUsers roomB infosB) now)
          (sessionsIn cmB roomB))
  ∧ (ChatSession.userId s ∉ Envelope.info_id <$> infosA)
  ∧ (sessionId ∉ (sessionsIn cmA roomA).*1)
  ∧ (sessionId ∈ (sessionsIn cmB roomB).*1)
  ∧ (is_Some (users cm !! ChatSession.userId s) →
     ChatSession.userId s ∈ Envelope.info_id <$> infosB).
Proof.
  intros Hwf Hk Hs Hcur HA HB Hne. simpl.
  split; [by apply leaveRoom_found |].
  split.
  { rewrite (joinRoom_state _ _ _ _ s) by eauto.
    unfold leaveCurrent. rewrite Hcur, (wellFormed_room_nonempty _ _ _ Hwf HA).
    simpl. rewrite (leaveRoom_found _ _ _ _ _ _ Hs HA). simpl.
    erewrite enter_broadcasts; [done |].
    simpl. by rewrite lookup_alter_ne. }
  split.
  { rewrite roomUserInfos_ids by done. simpl.
    rewrite JsSetFacts.elem_of_delete. tauto. }
  split.
  { rewrite sessionsIn_left by apply Hwf.
    intros ([k v] & Hkv & Hin)%list_elem_of_fmap.
    apply list_elem_of_filter in Hin as [Hn _]. simpl in *. congruence. }
  split.
  { apply list_elem_of_fmap.
    exists (sessionId, ChatSession.with_currentRoom (Some roomB)
                         (ChatSession.with_currentRoom None s)).
    split; [done |]. apply list_elem_of_filter. split; [done |].
    apply JsMapFacts.get_Some_elem_of. simpl.
    by rewrite !JsMapFacts.get_alter_eq, Hs. }
  intros Hu. apply roomUserInfos_ids; [done |]. simpl.
  rewrite JsSetFacts.elem_of_add. auto.
Qed.

Lemma lobby_usersKeyed : usersKeyed Demo.lobby.
Proof.
  intros k u.
  assert (users Demo.lobby
          = <["u2"%string := ChatUser.mk "u2" "bob" false 2]>
              (<["u1"%string := ChatUser.mk "u1" "alice" false 1]> ∅)) as ->
    by (by vm_compute).
  intros [[<- <-] | [_ [[<- <-] | [_ H]]%lookup_insert_Some]]%lookup_insert_Some;
    done.
Qed.

Lemma room_switch_order_witness :
  (joinRoom Demo.lobby 5 "s1" "tech").2
  = ((leaveRoom Demo.lobby 5 "s1" "general").2)
    ++ [ Delivery.mk "s1" 1 (Envelope.mk "user_joined" (Envelope.Username "alice") 5);
         Delivery.mk "s1" 1
           (Envelope.mk "room_users"
              (Envelope.RoomUsers "tech" [Envelope.mkUserInfo "u1" "alice" false]) 5) ].
Proof.
  destruct lobby_invariant as [Hwf _].
  destruct (room_switch_order Demo.lobby 5 "s1" "general" "tech"
              (ChatSession.mk "s1" "u1" "alice" 1 (Some "general"%string) false)
              (ChatRoom.mk "general" "General" "General discussion for everyone"
                 false ["u1"; "u2"]%string [] 0)
              (ChatRoom.mk "tech" "Tech Talk" "Technology and programming discussions"
                 false [] [] 0)
              Hwf lobby_usersKeyed)
    as (_ & Hj & _); [by vm_compute .. |].
  rewrite Hj. cbn [snd].
  apply (f_equal (app (leaveRoom Demo.lobby 5 "s1" "general").2)). by vm_compute.
Defined.


(** *** Typing indicators *)

Lemma broadcastToRoom_except cm R message sid :
  broadcastToRoom cm R message [sid] =
  match rooms cm !! R with
  | Some _ => deliverAll message (filter (λ e, e.1 ≠ sid) (sessionsIn cm R))
  | None => []
  end.
Proof.
  rewrite broadcastToRoom_deliverAll. destruct (rooms cm !! R); [| done].
  f_equal. apply list_filter_iff. intros e.
  by rewrite list_elem_of_singleton.
Qed.

(** The loop of the sweep, started in the middle of the map: [pre] has
    been visited and keeps its entries that are not expired. *)
Lemma sweep_fold now (q pre : list (string * TypingIndicator.t)) cm0 out0 :
  typingIndicators cm0 = pre ++ q →
  JsMap.wf (pre ++ q) →
  fold_left (sweepEntry now) q (cm0, out0)
  = (with_typingIndicators
       (λ _, pre ++ filter (λ e, expired now e.2 = false) q) cm0,
     out0 ++ (filter (λ e, expired now e.2 = true) q ≫= sweepNotice cm0 now)).
Proof.
  revert pre cm0 out0. induction q as [| [key ind] q IH]; intros pre cm0 out0 Ht Hwf.
  - simpl. rewrite !app_nil_r. rewrite app_nil_r in Ht. rewrite <- Ht.
    by destruct cm0.
  - cbn [fold_left sweepEntry]. destruct (expired now ind) eqn:He.
    + assert (key ∉ pre.*1) as Hkey.
      { unfold JsMap.wf in Hwf. rewrite fmap_app in Hwf.
        apply NoDup_app in Hwf as (_ & Hdisj & _). intros Hin.
        apply (Hdisj _ Hin). csimpl. apply list_elem_of_here. }
      rewrite (IH pre).
      * rewrite filter_cons_False by (simpl; congruence).
        rewrite (filter_cons_True _ (key, ind)) by done.
        rewrite bind_cons, app_assoc. done.
      * simpl. rewrite Ht. by apply JsMapFacts.delete_app_r.
      * unfold JsMap.wf in *. rewrite fmap_app in *. csimpl in Hwf.
        apply NoDup_app in Hwf as (H1 & H2 & H3). apply NoDup_cons in H3 as [_ H3].
        apply NoDup_app. split; [done |]. split; [| done].
        intros x Hx Hx'. apply (H2 x Hx). by apply list_elem_of_further.
    + rewrite (IH (pre ++ [(key, ind)])).
      * rewrite (filter_cons_True _ (key, ind)) by done.
        rewrite filter_cons_False by (simpl; congruence).
        by rewrite <- app_assoc.
      * by rewrite <- app_assoc.
      * by rewrite <- app_assoc.
Qed.

Lemma typingCleanupTick_spec cm now :
  JsMap.wf (typingIndicators cm) →
  typingCleanupTick cm now
  = (with_typingIndicators (filter (λ e, expired now e.2 = false)) cm,
     filter (λ e, expired now e.2 = true) (typingIndicators cm) ≫= sweepNotice cm now).
Proof.
  intros Hwf. unfold typingCleanupTick.
  by rewrite (sweep_fold now (typingIndicators cm) [] cm []).
Qed.

Lemma sweepNotice_all cm now e :
  sweepNotice cm now e =
  match rooms cm !! TypingIndicator.roomId e.2 with
  | Some _ =>
      deliverAll
        (Envelope.mk "typing_stop"
           (Envelope.Username (getUsernameById cm (TypingIndicator.userId e.2))) now)
        (sessionsIn cm (TypingIndicator.roomId e.2))
  | None => []
  end.
Proof. apply broadcastToRoom_all. Qed.


Lemma sweepNotice_ext cm cm' now e :
  rooms cm' = rooms cm → users cm' = users cm → sessions cm' = sessions cm →
  sweepNotice cm' now e = sweepNotice cm now e.
Proof. unfold sweepNotice, broadcastToRoom, getUsernameById. by intros -> -> ->. Qed.

(** The deliveries of the loop of the sweep do not depend on
    [typingIndicators] being duplicate-free. *)
Lemma sweep_fold_out cm now (q : list (string * TypingIndicator.t)) cm0 out0 :
  rooms cm0 = rooms cm → users cm0 = users cm → sessions cm0 = sessions cm →
  (fold_left (sweepEntry now) q (cm0, out0)).2
  = out0 ++ (filter (λ e, expired now e.2 = true) q ≫= sweepNotice cm now).
Proof.
  revert cm0 out0. induction q as [| [key ind] q IH]; intros cm0 out0 Hr Hu Hs.
  - simpl. by rewrite app_nil_r.
  - cbn [fold_left sweepEntry]. destruct (expired now ind) eqn:He.
    + rewrite IH by done.
      rewrite (filter_cons_True _ (key, ind)) by done.
      rewrite bind_cons, app_assoc. f_equal. f_equal.
      by apply (sweepNotice_ext cm (with_typingIndicators (JsMap.delete key) cm0)
                  now (key, ind)).
    + rewrite IH by done.
      by rewrite filter_cons_False by (simpl; congruence).
Qed.

(** Claim C5 (typing broadcast scope), as the code has it.
    [startTyping(s, R)] sends [typing_start] to every session whose current
    room is R except s.  [stopTyping(s, R)] sends [typing_stop] to the same
    sessions: every session of R except s.  The sweep sends, for every
    expired indicator, [typing_stop] to every session of the indicator's
    room, the session that started typing included. *)
Theorem typing_broadcast_scope (cm : t) (now : Z) (sessionId roomId : string)
  (s : ChatSession.t) (r : ChatRoom.t) :
  JsMap.get sessionId (sessions cm) = Some s →
  rooms cm !! roomId = Some r →
  let username := Envelope.Username (ChatSession.username s) in
  let others := filter (λ e, e.1 ≠ sessionId) (sessionsIn cm roomId) in
  (startTyping cm now sessionId roomId).2
  = deliverAll (Envelope.mk "typing_start" username now) others
  ∧ (stopTyping cm now sessionId roomId).2
    = deliverAll (Envelope.mk "typing_stop" username now) others
  ∧ (typingCleanupTick cm now).2
    = filter (λ e, expired now e.2 = true) (typingIndicators cm) ≫=
        (λ e, match rooms cm !! TypingIndicator.roomId e.2 with
              | Some _ =>
                  deliverAll
                    (Envelope.mk "typing_stop"
                       (Envelope.Username
                          (getUsernameById cm (TypingIndicator.userId e.2))) now)
                    (sessionsIn cm (TypingIndicator.roomId e.2))
              | None => []
              end).
Proof.
  intros Hs Hr. simpl. split; [| split].
  - unfold startTyping. rewrite Hs. simpl.
    rewrite broadcastToRoom_except. simpl. by rewrite Hr.
  - unfold stopTyping. rewrite Hs. simpl.
    rewrite broadcastToRoom_except. simpl. by rewrite Hr.
  - unfold typingCleanupTick. rewrite (sweep_fold_out cm) by done. simpl.
    apply list_bind_ext; [| done]. intros e. apply sweepNotice_all.
Qed.

Lemma typing_broadcast_scope_witness :
  recipients "typing_start" (startTyping Demo.lobby 5 "s1" "general").2 = ["s2"%string]
  ∧ recipients "typing_stop" (typingCleanupTick Demo.typing 5500).2
    = ["s1"; "s2"]%string.
Proof.
  destruct (typing_broadcast_scope Demo.lobby 5 "s1" "general"
              (ChatSession.mk "s1" "u1" "alice" 1 (Some "general"%string) false)
              (ChatRoom.mk "general" "General" "General discussion for everyone"
                 false ["u1"; "u2"]%string [] 0))
    as (Hstart & _ & _); [by vm_compute .. |].
  destruct (typing_broadcast_scope Demo.typing 5500 "s1" "general"
              (ChatSession.mk "s1" "u1" "alice" 1 (Some "general"%string) false)
              (ChatRoom.mk "general" "General" "General discussion for everyone"
                 false ["u1"; "u2"]%string [] 0))
    as (_ & _ & Hsweep); [by vm_compute .. |].
  rewrite Hstart, Hsweep. split; by vm_compute.
Defined.

(** Claim C5 as stated fails for the explicit stop: Alice and Bob are in
    [general]; when Alice stops typing, [typing_stop] goes to Bob only. *)
Lemma stopTyping_excludes_sender :
  (sessionsIn Demo.lobby "general").*1 = ["s1"; "s2"]%string
  ∧ recipients "typing_stop" (stopTyping Demo.lobby 5 "s1" "general").2 = ["s2"%string].
Proof. split; by vm_compute. Qed.

(** Claim C7 (sweep).  One tick of the sweep removes from
    [typingIndicators] exactly the entries that are older than 5000 ms,
    changes nothing else, and broadcasts, for each removed entry in the
    order of the map, one [typing_stop] to the entry's room.  The username
    of the notice is looked up by a total function that answers
    ["Unknown"] for a user id that is not registered.  The timer period is
    1000 ms. *)
Theorem sweep_expiry (cm : t) (now : Z) :
  JsMap.wf (typingIndicators cm) →
  typingIndicators (typingCleanupTick cm now).1
  = filter (λ e, ¬ (now - TypingIndicator.timestamp e.2 > 5000)) (typingIndicators cm)
  ∧ rooms (typingCleanupTick cm now).1 = rooms cm
  ∧ users (typingCleanupTick cm now).1 = users cm
  ∧ sessions (typingCleanupTick cm now).1 = sessions cm
  ∧ (typingCleanupTick cm now).2
    = filter (λ e, now - TypingIndicator.timestamp e.2 > 5000) (typingIndicators cm) ≫=
        (λ e, broadcastToRoom cm (TypingIndicator.roomId e.2)
                (Envelope.mk "typing_stop"
                   (Envelope.Username (getUsernameById cm (TypingIndicator.userId e.2)))
                   now) [])
  ∧ (∀ userId, users cm !! userId = None → getUsernameById cm userId = "Unknown"%string)
  ∧ sweepPeriodMs = 1000.
Proof.
  intros Hwf. rewrite typingCleanupTick_spec by done. simpl.
  assert (∀ e : string * TypingIndicator.t,
            expired now e.2 = true ↔ now - TypingIndicator.timestamp e.2 > 5000) as Hexp.
  { intros e. unfold expired, typingTimeoutMs. rewrite bool_decide_eq_true. lia. }
  split.
  { apply list_filter_iff. intros e. rewrite <- Hexp. by destruct (expired now e.2). }
  split; [done |]. split; [done |]. split; [done |].
  split.
  { f_equal. by apply list_filter_iff. }
  split; [| done].
  intros userId Hu. unfold getUsernameById. by rewrite Hu.
Qed.

Lemma typing_wf : JsMap.wf (typingIndicators Demo.typing).
Proof. unfold JsMap.wf. apply (bool_decide_unpack _). by vm_compute. Qed.

Lemma sweep_expiry_witness :
  (typingIndicators (typingCleanupTick Demo.typing 5500).1).*1 = ["u2-general"%string]
  ∧ recipients "typing_stop" (typingCleanupTick Demo.typing 5500).2
    = ["s1"; "s2"]%string.
Proof.
  destruct (sweep_expiry Demo.typing 5500 typing_wf) as (Ht & _ & _ & _ & Hout & _).
  rewrite Ht, Hout. split; by vm_compute.
Defined.

(** The sweep of an indicator whose user id is not registered: the notice
    carries the placeholder. *)
Lemma sweep_unknown_user :
  (typingCleanupTick Demo.ghost 6000).2
  = [ Delivery.mk "s3" 3 (Envelope.mk "typing_stop" (Envelope.Username "Unknown") 6000) ].
Proof. by vm_compute. Qed.


(** The operations that touch neither a member set nor a current room
    keep the membership invariant. *)
Lemma messaging_invariant cm now uuid sessionId roomId content :
  wellFormed cm → membersConsistent cm →
  (wellFormed (sendMessage cm now uuid sessionId content).1.2
   ∧ membersConsistent (sendMessage cm now uuid sessionId content).1.2)
  ∧ (wellFormed (startTyping cm now sessionId roomId).1
     ∧ membersConsistent (startTyping cm now sessionId roomId).1)
  ∧ (wellFormed (stopTyping cm now sessionId roomId).1
     ∧ membersConsistent (stopTyping cm now sessionId roomId).1).
Proof.
  intros Hwf Hc. split; [| split].
  - unfold sendMessage.
    destruct (JsMap.get sessionId (sessions cm)) as [s |]; [| done].
    destruct (truthy (ChatSession.currentRoom s)); [| done].
    set (cur := default ""%string (ChatSession.currentRoom s)).
    destruct (rooms cm !! cur) as [r |] eqn:Hr; [| done]. cbn [fst snd].
    destruct Hwf as (Hk & Hd & He). split.
    + split; [done |]. split; [done |]. simpl.
      destruct (decide (cur = ""%string)) as [Heq | Hne].
      * rewrite Heq in *. by rewrite lookup_alter_eq, He.
      * by rewrite lookup_alter_ne.
    + intros R room' Hroom' uid. simpl in Hroom'.
      destruct (decide (cur = R)) as [<- | Hne].
      * rewrite lookup_alter_eq, Hr in Hroom'. injection Hroom' as <-.
        apply (Hc _ _ Hr uid).
      * rewrite lookup_alter_ne in Hroom' by done. apply (Hc _ _ Hroom' uid).
  - unfold startTyping. by destruct (JsMap.get sessionId (sessions cm)).
  - unfold stopTyping. by destruct (JsMap.get sessionId (sessions cm)).
Qed.

Lemma typing_wf_preserved cm now sessionId roomId :
  JsMap.wf (typingIndicators cm) →
  JsMap.wf (typingIndicators (startTyping cm now sessionId roomId).1)
  ∧ JsMap.wf (typingIndicators (stopTyping cm now sessionId roomId).1)
  ∧ JsMap.wf (typingIndicators (typingCleanupTick cm now).1).
Proof.
  intros Hwf. split; [| split].
  - unfold startTyping. destruct (JsMap.get sessionId (sessions cm)); [| done].
    by apply JsMapFacts.wf_set.
  - unfold stopTyping. destruct (JsMap.get sessionId (sessions cm)); [| done].
    by apply JsMapFacts.wf_delete.
  - rewrite typingCleanupTick_spec by done. simpl. unfold JsMap.wf in *.
    revert Hwf. generalize (typingIndicators cm). intros l.
    induction l as [| [k v] l IH]; [done |]. csimpl.
    rewrite NoDup_cons. intros [Hk Hl]. rewrite filter_cons. case_decide.
    + csimpl. apply NoDup_cons. split; [| by apply IH].
      intros ([k' v'] & -> & Hin%list_elem_of_filter)%list_elem_of_fmap.
      apply Hk. apply list_elem_of_fmap. exists (k', v'). tauto.
    + by apply IH.
Qed.

End ChatFacts.

(** ** RoomManager: deleting rooms *)

Module RoomFacts.
Import RoomManager.

Lemma deleteRoom_success_iff rm roomId requesterId :
  Result.success (deleteRoom rm roomId requesterId).1 = true
  ↔ ∃ room, rooms rm !! roomId = Some room
            ∧ Room.createdBy room = requesterId
            ∧ roomId ∉ protectedRooms.
Proof.
  unfold deleteRoom. destruct (rooms rm !! roomId) as [room |] eqn:Hroom.
  - destruct (String.eqb (Room.createdBy room) requesterId) eqn:Hc; simpl.
    + apply String.eqb_eq in Hc. case_bool_decide as Hp; simpl.
      * split; [done |]. by intros (room' & _ & _ & Hn).
      * split; [| done]. intros _. exists room. by simplify_eq.
    + apply String.eqb_neq in Hc. split; [done |].
      intros (room' & [= <-] & Hc' & _). done.
  - simpl. split; [done |]. by intros (room' & [=] & _).
Qed.

(** Claim C8 (default-room protection).  [deleteRoom("general", r)] fails
    for every requester and every state, and leaves the rooms as they were.
    A [deleteRoom] succeeds only if the room exists, the requester is a
    moderator of the room or its creator (the code asks for the creator),
    and the room is not one of the default rooms [general] and [random]. *)
Theorem default_room_protected (rm : t) (roomId requesterId : string) :
  (Result.success (deleteRoom rm "general" requesterId).1 = false
   ∧ (deleteRoom rm "general" requesterId).2 = rm)
  ∧ (Result.success (deleteRoom rm roomId requesterId).1 = true →
     ∃ room, rooms rm !! roomId = Some room
             ∧ (isModerator rm roomId requesterId = true
                ∨ Room.createdBy room = requesterId)
             ∧ Room.createdBy room = requesterId
             ∧ (roomId ∉ protectedRooms)
             ∧ rooms (deleteRoom rm roomId requesterId).2 = delete roomId (rooms rm))
  ∧ (Result.success (deleteRoom rm roomId requesterId).1 = false →
     (deleteRoom rm roomId requesterId).2 = rm)
  ∧ (∀ d, d ∈ protectedRooms →
          rooms (deleteRoom rm roomId requesterId).2 !! d = rooms rm !! d).
Proof.
  split; [| split; [| split]].
  - unfold deleteRoom. destruct (rooms rm !! "general"%string) as [room |]; [| done].
    by destruct (String.eqb (Room.createdBy room) requesterId).
  - intros Hok. pose proof Hok as (room & Hroom & Hc & Hp)%deleteRoom_success_iff.
    exists room. split; [done |]. split; [by right |]. split; [done |].
    split; [done |]. unfold deleteRoom. rewrite Hroom.
    apply String.eqb_eq in Hc. rewrite Hc. simpl.
    by rewrite bool_decide_eq_false_2.
  - unfold deleteRoom. destruct (rooms rm !! roomId) as [room |]; [| done].
    destruct (String.eqb (Room.createdBy room) requesterId); [| done]. simpl.
    by case_bool_decide.
  - intros d Hd. unfold deleteRoom.
    destruct (rooms rm !! roomId) as [room |]; [| done].
    destruct (String.eqb (Room.createdBy room) requesterId); [| done]. simpl.
    case_bool_decide as Hp; [done |]. simpl.
    apply lookup_delete_ne. by intros ->.
Qed.

Lemma default_room_protected_witness :
  Result.success (deleteRoom DemoRooms.withClub "club" "u1").1 = true
  ∧ rooms (deleteRoom DemoRooms.withClub "club" "u1").2
    = delete "club"%string (rooms DemoRooms.withClub)
  ∧ Result.success (deleteRoom DemoRooms.withClub "general" "system").1 = false.
Proof.
  assert (Result.success (deleteRoom DemoRooms.withClub "club" "u1").1 = true) as Hok
    by (by vm_compute).
  destruct (default_room_protected DemoRooms.withClub "club" "u1")
    as ([Hg _] & Hdel & _).
  destruct (default_room_protected DemoRooms.withClub "club" "system")
    as ([Hsys _] & _).
  destruct (Hdel Hok) as (room & _ & _ & _ & _ & Hrooms).
  split; [exact Hok |]. split; [exact Hrooms | exact Hsys].
Defined.

End RoomFacts.

(** ** SessionManager: display names *)

Module SessionFacts.
Import SessionManager SessionSpec.

Lemma nameChar_not_space c :
  JsString.isNameChar c = true → JsString.isWhiteSpace c = false.
Proof. destruct c as [[] [] [] [] [] [] [] []]; by vm_compute. Qed.

Lemma existingUser_None sm username :
  existingUser sm username = None ↔ ¬ nameTaken sm username.
Proof.
  unfold existingUser, nameTaken. rewrite fmap_None, list_find_None, Forall_forall.
  split.
  - intros H (u & Hin & Hu). by apply (H u).
  - intros H u Hin Hu. apply H. eauto.
Qed.

Lemma validateUsername_valid_iff sm username :
  Validation.valid (validateUsername sm username) = true
  ↔ wellFormedName username ∧ ¬ nameTaken sm username.
Proof.
  unfold validateUsername, wellFormedName, JsString.testNamePattern.
  destruct username as [| c rest].
  { simpl. split; [done |]. intros [[H _] _]. simpl in H. exfalso. lia. }
  assert (String.eqb (String c rest) "" = false) as -> by done.
  cbn [orb negb andb].
  destruct (JsString.trimIsEmpty (String c rest)) eqn:Htrim.
  { simpl. split; [done |]. intros [[_ Hc] _]. simpl in Htrim, Hc.
    apply andb_true_iff in Hc as [Hc _]. apply nameChar_not_space in Hc.
    unfold JsString.trimIsEmpty in Htrim. simpl in Htrim. by rewrite Hc in Htrim. }
  destruct ((String.length (String c rest) <? 2)%nat
            || (20 <? String.length (String c rest))%nat) eqn:Hlen.
  { simpl. split; [done |]. intros [[H _] _].
    exfalso. apply orb_true_iff in Hlen as [Hl%Nat.ltb_lt | Hl%Nat.ltb_lt];
      simpl in *; lia. }
  apply orb_false_iff in Hlen as [Hl1%Nat.ltb_ge Hl2%Nat.ltb_ge].
  destruct (JsString.allChars JsString.isNameChar (String c rest)) eqn:Hchars.
  - cbn [negb]. destruct (existingUser sm (String c rest)) as [u |] eqn:Hex.
    + simpl. split; [done |]. intros [_ Hn]. apply existingUser_None in Hn. congruence.
    + simpl. apply existingUser_None in Hex. split; [| done]. intros _.
      split; [| done]. split; [simpl in *; lia | done].
  - simpl. split; [done |]. by intros [[_ ?] _].
Qed.


(** Claim C9 (display-name validation), as the code has it.
    [validateUsername] answers valid exactly for the names of 2 to 20
    characters, all of them letters, digits, underscores or dashes, that no
    registered identity, whatever its status, carries up to letter case.
    In particular it answers invalid for the empty name, for a name that is
    too short or too long or has another character, and for a name carried
    by an identity that is not offline. *)
Theorem validateUsername_spec (sm : t) (username : string) :
  (Validation.valid (validateUsername sm username) = true
   ↔ wellFormedName username ∧ ¬ nameTaken sm username)
  ∧ (username = ""%string → Validation.valid (validateUsername sm username) = false)
  ∧ ((String.length username < 2 ∨ 20 < String.length username)%nat →
     Validation.valid (validateUsername sm username) = false)
  ∧ (JsString.allChars JsString.isNameChar username = false →
     Validation.valid (validateUsername sm username) = false)
  ∧ (nameTaken sm username → Validation.valid (validateUsername sm username) = false)
  ∧ (nameTakenByActive sm username →
     Validation.valid (validateUsername sm username) = false).
Proof.
  pose proof (validateUsername_valid_iff sm username) as Hiff.
  assert (∀ P : Prop, (wellFormedName username ∧ ¬ nameTaken sm username → ¬ P) →
            P → Validation.valid (validateUsername sm username) = false) as Hno.
  { intros P HP HPx. apply not_true_is_false. intros Hv. apply Hiff in Hv.
    by apply HP. }
  split; [done |].
  split; [apply Hno; intros [[[H _] _] _] ->; simpl in H; lia |].
  split; [apply Hno; intros [[[H1 H2] _] _] [? | ?]; lia |].
  split; [apply Hno; intros [[_ H] _]; congruence |].
  split; [apply Hno; tauto |].
  apply Hno. intros [_ Hn] (u & Hin & _ & Hu). apply Hn. by exists u.
Qed.

Lemma validateUsername_spec_witness :
  Validation.valid (validateUsername DemoUsers.bobGone "alice_1") = true
  ∧ Validation.valid (validateUsername DemoUsers.bobGone "BOB") = false.
Proof.
  destruct (validateUsername_spec DemoUsers.bobGone "alice_1") as [[_ Hvalid] _].
  destruct (validateUsername_spec DemoUsers.bobGone "BOB") as (_ & _ & _ & _ & Htaken & _).
  split.
  - apply Hvalid. split; [split; [simpl; lia | by vm_compute] |].
    intros (u & Hin & Hu). vm_compute in Hin.
    apply list_elem_of_singleton in Hin as ->. by vm_compute in Hu.
  - apply Htaken. eexists. split; [apply list_elem_of_here | by vm_compute].
Defined.

(** Claim C9 as stated fails: Bob has disconnected and his identity is
    offline, yet the name ["bob"], which is well formed and carried by no
    identity that is still active, is refused as taken. *)
Lemma offline_name_still_taken :
  wellFormedName "bob"
  ∧ ¬ nameTakenByActive DemoUsers.bobGone "bob"
  ∧ validateUsername DemoUsers.bobGone "bob"
    = Validation.mk false (Some "Username already taken"%string).
Proof.
  split; [split; [simpl; lia | by vm_compute] |].
  split; [| by vm_compute].
  intros (u & Hin & Hstatus & _). vm_compute in Hin.
  apply list_elem_of_singleton in Hin as ->. by apply Hstatus.
Qed.

End SessionFacts.

(** ** Bounded histories *)

Module HistoryFacts.
Import StoreInv.

Lemma slice_last_length {A} (n : nat) (l : list A) :
  (length (slice_last n l) ≤ n)%nat.
Proof. unfold slice_last. rewrite length_drop. lia. Qed.

Lemma slice_last_short {A} (n : nat) (l : list A) :
  (length l ≤ n)%nat → slice_last n l = l.
Proof.
  intros H. unfold slice_last. by replace (length l - n)%nat with 0%nat by lia.
Qed.

Lemma slice_last_app_l {A} (n : nat) (l k : list A) :
  slice_last n (slice_last n l ++ k) = slice_last n (l ++ k).
Proof.
  unfold slice_last.
  rewrite <- (drop_app_le l k) by lia.
  rewrite drop_drop. f_equal. rewrite length_drop, !length_app. lia.
Qed.

Lemma cleanup_history st roomId maxMessages r :
  history (MessageStore.cleanupOldMessages st roomId maxMessages) r
  = if decide (r = roomId) then slice_last maxMessages (history st roomId)
    else history st r.
Proof.
  unfold MessageStore.cleanupOldMessages, history.
  destruct (MessageStore.messages st !! roomId) as [ms |] eqn:Hms.
  - case_decide as Hlen; simpl.
    + case_decide as Hr.
      * subst. by rewrite lookup_insert_eq.
      * by rewrite lookup_insert_ne.
    + case_decide as Hr; [| done]. subst. rewrite Hms. simpl.
      by rewrite slice_last_short by lia.
  - case_decide as Hr; [| done]. subst. by rewrite Hms.
Qed.

Lemma addMessage_history st now uuid roomId userId content type replyTo r :
  history (MessageStore.addMessage st now uuid roomId userId content type replyTo).2 r
  = if decide (r = roomId)
    then slice_last MessageStore.maxMessagesDefault
           (history st roomId
            ++ [Message.mk uuid roomId userId content type now replyTo [] None])
    else history st r.
Proof.
  unfold MessageStore.addMessage. simpl. rewrite cleanup_history.
  unfold history. simpl. case_decide as Hr.
  - by rewrite lookup_insert_eq.
  - by rewrite lookup_insert_ne.
Qed.

Lemma history_new r : history MessageStore.new r = [].
Proof. unfold history, MessageStore.new. simpl. by rewrite lookup_empty. Qed.

Lemma addAll_history st roomId inputs :
  (length (history st roomId) ≤ MessageStore.maxMessagesDefault)%nat →
  history (addAll st roomId inputs) roomId
  = slice_last MessageStore.maxMessagesDefault
      (history st roomId ++ (messageOf roomId <$> inputs)).
Proof.
  revert st. induction inputs as [| i inputs IH]; intros st Hlen.
  - simpl. rewrite app_nil_r. by rewrite slice_last_short.
  - cbn [addAll fold_left]. fold (addAll
        (MessageStore.addMessage st (in_now i) (in_uuid i) roomId (in_userId i)
           (in_content i) "text" None).2 roomId inputs).
    rewrite IH.
    + rewrite addMessage_history, decide_True by done.
      rewrite slice_last_app_l. csimpl. by rewrite <- app_assoc.
    + rewrite addMessage_history, decide_True by done. apply slice_last_length.
Qed.


Lemma sendMessage_found cm now uuid sid content s R room :
  JsMap.get sid (ChatManager.sessions cm) = Some s →
  ChatSession.currentRoom s = Some R →
  R ≠ ""%string →
  ChatManager.rooms cm !! R = Some room →
  ChatManager.sendMessage cm now uuid sid content
  = (true,
     ChatManager.with_rooms
       (alter
          (ChatRoom.with_messages
             (λ ms, slice_last ChatManager.historyCap
                      (ms ++ [ChatMessage.mk uuid content (ChatSession.userId s)
                                (ChatSession.username s) R now "message"])))
          R) cm,
     ChatManager.broadcastToRoom cm R
       (Envelope.mk "message"
          (Envelope.Message
             (ChatMessage.mk uuid content (ChatSession.userId s)
                (ChatSession.username s) R now "message")) now) []).
Proof.
  intros Hs Hcur Hne Hr. unfold ChatManager.sendMessage. rewrite Hs, Hcur. simpl.
  apply String.eqb_neq in Hne. rewrite Hne. simpl. rewrite Hr.
  f_equal; [f_equal |].
  - unfold ChatManager.with_rooms. f_equal. apply alter_ext. intros r _.
    unfold ChatRoom.with_messages. f_equal. case_decide; [done |].
    by rewrite slice_last_short by lia.
  - unfold ChatManager.broadcastToRoom. simpl. by rewrite lookup_alter_eq, Hr.
Qed.

(** Claim C2 (bounded FIFO history).  In the MessageStore, [addMessage]
    leaves in the room the last 1000 messages of the old history followed
    by the new message, so the history never exceeds 1000 and the messages
    dropped are the oldest; the other rooms are untouched.  From the empty
    store, any sequence of [addMessage] to one room leaves the last 1000
    messages sent, and a sequence of 1001 leaves 1000 messages: all but the
    first.  In the ChatManager, a successful [sendMessage] does the same
    with the cap 100. *)
Theorem bounded_fifo_history :
  (∀ st now uuid roomId userId content type replyTo,
     let st' := (MessageStore.addMessage st now uuid roomId userId content type replyTo).2 in
     history st' roomId
     = slice_last 1000
         (history st roomId
          ++ [Message.mk uuid roomId userId content type now replyTo [] None])
     ∧ (length (history st' roomId) ≤ 1000)%nat
     ∧ ∀ r, r ≠ roomId → history st' r = history st r)
  ∧ (∀ roomId inputs,
       history (addAll MessageStore.new roomId inputs) roomId
       = slice_last 1000 (messageOf roomId <$> inputs)
       ∧ (length (history (addAll MessageStore.new roomId inputs) roomId) ≤ 1000)%nat)
  ∧ (∀ roomId inputs,
       length inputs = 1001%nat →
       length (history (addAll MessageStore.new roomId inputs) roomId) = 1000%nat
       ∧ history (addAll MessageStore.new roomId inputs) roomId
         = drop 1 (messageOf roomId <$> inputs))
  ∧ (∀ cm now uuid sessionId content s roomId room,
       JsMap.get sessionId (ChatManager.sessions cm) = Some s →
       ChatSession.currentRoom s = Some roomId →
       roomId ≠ ""%string →
       ChatManager.rooms cm !! roomId = Some room →
       let message :=
         ChatMessage.mk uuid content (ChatSession.userId s) (ChatSession.username s)
           roomId now "message" in
       let cm' := (ChatManager.sendMessage cm now uuid sessionId content).1.2 in
       (ChatManager.sendMessage cm now uuid sessionId content).1.1 = true
       ∧ ChatRoom.messages <$> ChatManager.rooms cm' !! roomId
         = Some (slice_last 100 (ChatRoom.messages room ++ [message]))
       ∧ (∀ room', ChatManager.rooms cm' !! roomId = Some room' →
                   (length (ChatRoom.messages room') ≤ 100)%nat)
       ∧ ∀ r, r ≠ roomId → ChatManager.rooms cm' !! r = ChatManager.rooms cm !! r).
Proof.
  split; [| split; [| split]].
  - intros st now uuid roomId userId content type replyTo. cbv zeta.
    rewrite addMessage_history, decide_True by done.
    split; [done |]. split; [apply slice_last_length |].
    intros r Hr. by rewrite addMessage_history, decide_False.
  - intros roomId inputs.
    rewrite addAll_history by (rewrite history_new; simpl; lia).
    rewrite history_new. split; [done | apply slice_last_length].
  - intros roomId inputs Hlen.
    rewrite addAll_history by (rewrite history_new; simpl; lia).
    unfold slice_last, MessageStore.maxMessagesDefault.
    rewrite history_new, app_nil_l, length_drop, length_fmap, Hlen.
    split; [lia |]. f_equal.
  - intros cm now uuid sessionId content s roomId room Hs Hcur Hne Hr. cbv zeta.
    rewrite (sendMessage_found _ _ _ _ _ _ _ _ Hs Hcur Hne Hr). simpl.
    split; [done |]. rewrite lookup_alter_eq, Hr. simpl.
    split; [done |]. split.
    + intros room' [= <-]. simpl. apply slice_last_length.
    + intros r Hn. by rewrite lookup_alter_ne.
Qed.

Lemma bounded_fifo_history_witness :
  length DemoStore.burst = 1001%nat
  ∧ length (history (addAll MessageStore.new "general" DemoStore.burst) "general")
    = 1000%nat
  ∧ history (addAll MessageStore.new "general" DemoStore.burst) "general"
    = drop 1 (messageOf "general" <$> DemoStore.burst).
Proof.
  assert (length DemoStore.burst = 1001%nat) as Hlen by (by vm_compute).
  destruct bounded_fifo_history as (_ & _ & H1001 & _).
  destruct (H1001 "general"%string DemoStore.burst Hlen) as [Hl Hh].
  split; [exact Hlen |]. split; [exact Hl | exact Hh].
Defined.

End HistoryFacts.

(** ** MessageStore: the message index *)

Module IndexFacts.
Import MessageStore StoreInv.

Lemma lookup_fold_delete (l : list Message.t) (idx : gmap string Message.t) k :
  fold_left (λ idx msg, delete (Message.id msg) idx) l idx !! k
  = if decide (k ∈ Message.id <$> l) then None else idx !! k.
Proof.
  revert idx. induction l as [| a l IH]; intros idx.
  - simpl. destruct (decide (k ∈ Message.id <$> [])) as [Hin | Hin]; [| done].
    by apply elem_of_nil in Hin.
  - cbn [fold_left]. rewrite IH, fmap_cons. destruct (decide (k ∈ Message.id <$> l)) as [Hin | Hin].
    + rewrite decide_True; [done | by apply list_elem_of_further].
    + destruct (decide (k = Message.id a)) as [-> | Hne].
      * rewrite lookup_delete_eq, decide_True; [done | apply list_elem_of_here].
      * rewrite lookup_delete_ne by done.
        rewrite decide_False; [done |]. rewrite not_elem_of_cons. done.
Qed.

Lemma NoDup_ids_take_drop (ms : list Message.t) n x y :
  NoDup (Message.id <$> ms) → x ∈ take n ms → y ∈ drop n ms →
  Message.id x ≠ Message.id y.
Proof.
  intros Hnd Hx Hy Heq. rewrite <- (take_drop n ms), fmap_app in Hnd.
  apply NoDup_app in Hnd as (_ & Hdisj & _).
  apply (Hdisj (Message.id x)).
  - apply list_elem_of_fmap. eauto.
  - rewrite Heq. apply list_elem_of_fmap. eauto.
Qed.

Lemma elem_of_take_or_drop {A} (l : list A) n x :
  x ∈ l → x ∈ take n l ∨ x ∈ drop n l.
Proof. intros H. rewrite <- (take_drop n l) in H. by apply elem_of_app in H. Qed.

Lemma indexConsistent_new : indexConsistent new.
Proof.
  split; [| split]; simpl.
  - intros ? ?. by rewrite lookup_empty.
  - intros ? ? ?. by rewrite lookup_empty.
  - intros ? ?. by rewrite lookup_empty.
Qed.

Lemma cleanup_consistent st roomId maxMessages :
  indexConsistent st → indexConsistent (cleanupOldMessages st roomId maxMessages).
Proof.
  intros (I1 & I2 & I3). unfold cleanupOldMessages.
  destruct (messages st !! roomId) as [ms |] eqn:Hms; [| done].
  case_decide as Hlen; [| done].
  set (n := (length ms - maxMessages)%nat).
  split; [| split]; simpl.
  - intros k m. rewrite lookup_fold_delete. case_decide as Hk; [done |].
    intros Hm. destruct (I1 _ _ Hm) as [Hid (ms0 & Hms0 & Hin)].
    split; [done |].
    destruct (decide (Message.roomId m = roomId)) as [Hr | Hr].
    + rewrite Hr, lookup_insert_eq. eexists. split; [done |].
      rewrite Hr, Hms in Hms0. injection Hms0 as <-.
      destruct (elem_of_take_or_drop ms n m Hin) as [Ht | Hd]; [| done].
      exfalso. apply Hk. rewrite <- Hid. apply list_elem_of_fmap. eauto.
    + rewrite lookup_insert_ne by done. eauto.
  - intros r ms1 m Hms1 Hin. rewrite lookup_fold_delete.
    destruct (decide (r = roomId)) as [-> | Hr].
    + rewrite lookup_insert_eq in Hms1. injection Hms1 as <-.
      assert (m ∈ ms) as Hin' by (by eapply subseteq_drop).
      destruct (I2 _ _ _ Hms Hin') as [Hidx Hroom].
      rewrite decide_False; [done |].
      intros (x & Hx & Hxin)%list_elem_of_fmap.
      by apply (NoDup_ids_take_drop ms n x m (I3 _ _ Hms) Hxin Hin).
    + rewrite lookup_insert_ne in Hms1 by done.
      destruct (I2 _ _ _ Hms1 Hin) as [Hidx Hroom].
      rewrite decide_False; [done |].
      intros (x & Hx & Hxin)%list_elem_of_fmap.
      assert (x ∈ ms) as Hxin' by (by eapply subseteq_take).
      destruct (I2 _ _ _ Hms Hxin') as [Hidx' Hroom'].
      rewrite Hx, Hidx' in Hidx. injection Hidx as ->. congruence.
  - intros r ms1. destruct (decide (r = roomId)) as [-> | Hr].
    + rewrite lookup_insert_eq. intros [= <-]. rewrite fmap_drop.
      apply (sublist_NoDup _ (Message.id <$> ms)); [by eapply I3 | apply sublist_drop].
    + rewrite lookup_insert_ne by done. apply I3.
Qed.

Lemma addMessage_consistent st now uuid roomId userId content type replyTo :
  indexConsistent st →
  messageIndex st !! uuid = None →
  indexConsistent (addMessage st now uuid roomId userId content type replyTo).2.
Proof.
  intros (I1 & I2 & I3) Hfresh. unfold addMessage. cbn [snd].
  apply cleanup_consistent.
  set (message := Message.mk uuid roomId userId content type now replyTo [] None).
  assert (∀ m, m ∈ default [] (messages st !! roomId) → Message.id m ≠ uuid) as Hold.
  { intros m Hin Hid. destruct (messages st !! roomId) as [ms |] eqn:Hms;
      [| by apply elem_of_nil in Hin].
    destruct (I2 _ _ _ Hms Hin) as [Hidx _]. congruence. }
  split; [| split]; simpl.
  - intros k m. destruct (decide (uuid = k)) as [<- | Hk].
    + rewrite lookup_insert_eq. intros [= <-]. split; [done |]. simpl.
      rewrite lookup_insert_eq. eexists. split; [done |].
      apply elem_of_app. right. apply list_elem_of_here.
    + rewrite lookup_insert_ne by done. intros Hm.
      destruct (I1 _ _ Hm) as [Hid (ms0 & Hms0 & Hin)]. split; [done |].
      destruct (decide (Message.roomId m = roomId)) as [Hr | Hr].
      * rewrite Hr, lookup_insert_eq. eexists. split; [done |].
        rewrite Hr in Hms0. rewrite Hms0. simpl. apply elem_of_app. by left.
      * rewrite lookup_insert_ne by done. eauto.
  - intros r ms1 m. destruct (decide (r = roomId)) as [-> | Hr].
    + rewrite lookup_insert_eq. intros [= <-] [Hin | ->%list_elem_of_singleton]%elem_of_app.
      * rewrite lookup_insert_ne by (by intros Heq; symmetry in Heq; revert Heq; apply Hold).
        destruct (messages st !! roomId) as [ms |] eqn:Hms;
          [| by apply elem_of_nil in Hin].
        by apply (I2 roomId ms).
      * simpl. by rewrite lookup_insert_eq.
    + rewrite lookup_insert_ne by done. intros Hms1 Hin.
      destruct (I2 _ _ _ Hms1 Hin) as [Hidx Hroom]. split; [| done].
      rewrite lookup_insert_ne; [done |]. intros Heq. congruence.
  - intros r ms1. destruct (decide (r = roomId)) as [-> | Hr].
    + rewrite lookup_insert_eq. intros [= <-]. rewrite fmap_app. csimpl.
      apply NoDup_app. split; [| split; [| apply NoDup_singleton]].
      * destruct (messages st !! roomId) as [ms |] eqn:Hms; [| apply NoDup_nil_2].
        by eapply I3.
      * intros x (m & -> & Hin)%list_elem_of_fmap Heq%list_elem_of_singleton.
        by apply (Hold m).
    + rewrite lookup_insert_ne by done. apply I3.
Qed.


Lemma deleteMessage_consistent st messageId userId isModeratorAction :
  indexConsistent st →
  indexConsistent (deleteMessage st messageId userId isModeratorAction).2.
Proof.
  intros (I1 & I2 & I3). unfold deleteMessage.
  destruct (messageIndex st !! messageId) as [m0 |] eqn:Hm0; [| done].
  destruct (negb isModeratorAction && negb (String.eqb (Message.userId m0) userId));
    [done |].
  cbn [snd]. destruct (I1 _ _ Hm0) as [Hid0 (ms & Hms & Hin0)]. rewrite Hms.
  destruct (list_find (λ m, Message.id m = messageId) ms) as [[i x] |] eqn:Hfind.
  2: { apply list_find_None in Hfind. rewrite Forall_forall in Hfind.
       exfalso. by apply (Hfind m0 Hin0). }
  apply list_find_Some in Hfind as (Hix & Hidx & _).
  assert (x = m0) as ->.
  { destruct (I2 _ _ x Hms) as [Hx _]; [by eapply list_elem_of_lookup_2 |].
    rewrite Hidx, Hm0 in Hx. by injection Hx. }
  pose proof (delete_Permutation ms i m0 Hix) as Hperm.
  assert (NoDup (Message.id m0 :: (Message.id <$> delete i ms))) as Hnd.
  { rewrite <- fmap_cons, <- Hperm. by eapply I3. }
  apply NoDup_cons in Hnd as [Hnotin Hnd].
  assert (∀ m, m ∈ delete i ms → Message.id m ≠ messageId) as Hrest.
  { intros m Hin Heq. apply Hnotin. rewrite Hid0, <- Heq.
    apply list_elem_of_fmap. eauto. }
  split; [| split]; simpl.
  - intros k m. destruct (decide (messageId = k)) as [<- | Hk];
      [by rewrite lookup_delete_eq |].
    rewrite lookup_delete_ne by done. intros Hm.
    destruct (I1 _ _ Hm) as [Hid (ms0 & Hms0 & Hin)]. split; [done |].
    destruct (decide (Message.roomId m = Message.roomId m0)) as [Hr | Hr].
    + rewrite Hr, lookup_insert_eq. eexists. split; [done |].
      rewrite Hr, Hms in Hms0. injection Hms0 as <-.
      rewrite Hperm in Hin. apply elem_of_cons in Hin as [-> | Hin]; [| done].
      congruence.
    + rewrite lookup_insert_ne by done. eauto.
  - intros r ms1 m. destruct (decide (r = Message.roomId m0)) as [-> | Hr].
    + rewrite lookup_insert_eq. intros [= <-] Hin.
      destruct (I2 _ _ m Hms) as [Hidx' Hroom]; [by eapply list_elem_of_delete_inv |].
      split; [| done]. rewrite lookup_delete_ne; [done |].
      intros Heq. by apply (Hrest m Hin).
    + rewrite lookup_insert_ne by done. intros Hms1 Hin.
      destruct (I2 _ _ _ Hms1 Hin) as [Hidx' Hroom]. split; [| done].
      rewrite lookup_delete_ne; [done |]. intros Heq.
      rewrite <- Heq, Hm0 in Hidx'. injection Hidx' as ->. congruence.
  - intros r ms1. destruct (decide (r = Message.roomId m0)) as [-> | Hr].
    + rewrite lookup_insert_eq. by intros [= <-].
    + rewrite lookup_insert_ne by done. apply I3.
Qed.

Lemma addMessage_getMessage st now uuid roomId userId content type replyTo messageId :
  let message := Message.mk uuid roomId userId content type now replyTo [] None in
  getMessage (addMessage st now uuid roomId userId content type replyTo).2 messageId
  = if decide (messageId ∈ evictedIds maxMessagesDefault (history st roomId ++ [message]))
    then None
    else if decide (messageId = uuid) then Some message else getMessage st messageId.
Proof.
  intros message. unfold addMessage, cleanupOldMessages, getMessage, evictedIds, history.
  cbn [snd messages messageIndex]. rewrite lookup_insert_eq.
  fold message. cbn [Message.id].
  set (ms := default [] (messages st !! roomId) ++ [message]).
  assert (<[uuid:=message]> (messageIndex st) !! messageId
          = if decide (messageId = uuid) then Some message
            else messageIndex st !! messageId) as Hins.
  { case_decide as Hk; [subst; by rewrite lookup_insert_eq |].
    by rewrite lookup_insert_ne. }
  destruct (decide (maxMessagesDefault < length ms)%nat) as [Hlen | Hlen].
  - cbn [messageIndex]. change (Message.id message) with uuid.
    by rewrite lookup_fold_delete, Hins.
  - replace (length ms - maxMessagesDefault)%nat with 0%nat by lia.
    rewrite take_0. cbn [messageIndex]. change (Message.id message) with uuid.
    rewrite Hins.
    destruct (decide (messageId ∈ Message.id <$> [])) as [Hin | Hin]; [| done].
    by apply elem_of_nil in Hin.
Qed.

Lemma addMessage_keeps_new st now uuid roomId userId content type replyTo :
  indexConsistent st →
  messageIndex st !! uuid = None →
  getMessage (addMessage st now uuid roomId userId content type replyTo).2 uuid
  = Some (addMessage st now uuid roomId userId content type replyTo).1.
Proof.
  intros (I1 & I2 & I3) Hfresh. rewrite addMessage_getMessage. cbv zeta.
  rewrite decide_False; [by rewrite decide_True |].
  unfold evictedIds, history. rewrite length_app. cbn [length].
  rewrite take_app_le by (unfold maxMessagesDefault; lia).
  intros (m & Hid & Hin%subseteq_take)%list_elem_of_fmap.
  destruct (messages st !! roomId) as [ms |] eqn:Hms; [| by apply elem_of_nil in Hin].
  destruct (I2 _ _ _ Hms Hin) as [Hidx _]. congruence.
Qed.

Lemma indexConsistent_present st messageId :
  indexConsistent st →
  is_Some (messageIndex st !! messageId) ↔ present st messageId.
Proof.
  intros (I1 & I2 & I3). split.
  - intros [m Hm]. destruct (I1 _ _ Hm) as [Hid (ms & Hms & Hin)].
    by exists (Message.roomId m), ms, m.
  - intros (r & ms & m & Hms & Hin & <-).
    destruct (I2 _ _ _ Hms Hin) as [Hidx _]. eauto.
Qed.

(** Claim C10 (message index).  The empty store is consistent: a message
    id is mapped by [messageIndex] exactly when a message with that id sits
    in the history of its room.  [addMessage] under a new id,
    [deleteMessage] and [cleanupOldMessages] keep the store consistent.
    After [addMessage] the new message is found by [getMessage], the
    messages evicted by the cap are not, and every other id answers as
    before; after a successful [deleteMessage] the deleted id is not found
    and every other id answers as before; a refused [deleteMessage] changes
    nothing.  In a consistent store [getMessage] answers null exactly for
    the ids that are in no history. *)
Theorem index_consistency :
  indexConsistent new
  ∧ (∀ st now uuid roomId userId content type replyTo,
       indexConsistent st →
       messageIndex st !! uuid = None →
       let res := addMessage st now uuid roomId userId content type replyTo in
       indexConsistent res.2
       ∧ getMessage res.2 uuid = Some res.1
       ∧ ∀ messageId,
           getMessage res.2 messageId
           = if decide (messageId ∈ evictedIds 1000 (history st roomId ++ [res.1]))
             then None
             else if decide (messageId = uuid) then Some res.1
                  else getMessage st messageId)
  ∧ (∀ st messageId userId isModeratorAction,
       indexConsistent st →
       let res := deleteMessage st messageId userId isModeratorAction in
       indexConsistent res.2
       ∧ (Result.success res.1 = true →
          ∀ k, getMessage res.2 k
               = if decide (k = messageId) then None else getMessage st k)
       ∧ (Result.success res.1 = false → res.2 = st))
  ∧ (∀ st roomId maxMessages,
       indexConsistent st → indexConsistent (cleanupOldMessages st roomId maxMessages))
  ∧ (∀ st messageId,
       indexConsistent st →
       (is_Some (messageIndex st !! messageId) ↔ present st messageId)
       ∧ (getMessage st messageId = None ↔ ¬ present st messageId)).
Proof.
  split; [apply indexConsistent_new |].
  split; [| split; [| split]].
  - intros st now uuid roomId userId content type replyTo Hc Hfresh. cbv zeta.
    split; [by apply addMessage_consistent |].
    split; [by apply addMessage_keeps_new |].
    intros messageId. apply addMessage_getMessage.
  - intros st messageId userId isModeratorAction Hc. cbv zeta.
    split; [by apply deleteMessage_consistent |].
    unfold deleteMessage, getMessage.
    destruct (messageIndex st !! messageId) as [m0 |] eqn:Hm0; [| done].
    destruct (negb isModeratorAction && negb (String.eqb (Message.userId m0) userId));
      [done |].
    split; [| done]. intros _ k. cbn [snd messageIndex].
    case_decide as Hk; [subst; by rewrite lookup_delete_eq |].
    by rewrite lookup_delete_ne.
  - intros st roomId maxMessages. apply cleanup_consistent.
  - intros st messageId Hc.
    pose proof (indexConsistent_present st messageId Hc) as Hp.
    split; [done |]. unfold getMessage. rewrite <- Hp, eq_None_not_Some. done.
Qed.


Lemma index_consistency_witness :
  indexConsistent (addMessage new 1 "m0" "general" "u1" "hello" "text" None).2
  ∧ getMessage (addMessage new 1 "m0" "general" "u1" "hello" "text" None).2 "m0"
    = Some (Message.mk "m0" "general" "u1" "hello" "text" 1 None [] None)
  ∧ getMessage
      (deleteMessage (addMessage new 1 "m0" "general" "u1" "hello" "text" None).2
         "m0" "u1" false).2 "m0"
    = None.
Proof.
  destruct index_consistency as (Hnew & Hadd & Hdel & _).
  destruct (Hadd new 1 "m0" "general" "u1" "hello" "text" None Hnew)%string
    as (Hc & Hget & _); [by vm_compute |].
  destruct (Hdel (addMessage new 1 "m0" "general" "u1" "hello" "text" None).2
              "m0" "u1" false Hc)%string as (_ & Hgone & _).
  split; [exact Hc |]. split; [exact Hget |].
  rewrite Hgone by (by vm_compute). by rewrite decide_True.
Defined.

(** Scenario 2 on the index: after 1001 messages the first one is gone
    from the history and from the index, the second one is the oldest
    kept. *)
Lemma burst_evicts_first :
  getMessage (addAll new "general" DemoStore.burst) "m0" = None
  ∧ Message.id <$> head (history (addAll new "general" DemoStore.burst) "general")
    = Some "m1"%string
  ∧ Message.id <$> getMessage (addAll new "general" DemoStore.burst) "m1000"
    = Some "m1000"%string.
Proof. split; [| split]; by vm_compute. Qed.

End IndexFacts.

(** * Further properties of the code *)

(** ** server.ts: the states the server reaches *)

Module ServerFacts.
Import ChatManager ChatInv ChatFacts ServerInv Server.

Lemma get_alter_Some {V} (f : V → V) sid k (m : list (string * V)) v' :
  JsMap.get k (JsMap.alter f sid m) = Some v' →
  ∃ v, JsMap.get k m = Some v ∧ ((k = sid ∧ v' = f v) ∨ (k ≠ sid ∧ v' = v)).
Proof.
  destruct (decide (sid = k)) as [<- | Hne].
  - rewrite JsMapFacts.get_alter_eq. destruct (JsMap.get sid m) as [v |]; [| done].
    intros [= <-]. eauto.
  - rewrite JsMapFacts.get_alter_ne by done. intros H. exists v'. split; [done |].
    right. split; [congruence | done].
Qed.

Lemma shape_left cm sid s R : shape cm → shape (left cm sid s R).
Proof.
  intros ((Hk & Hreg) & Hcur & Hrooms). split; [split | split].
  - done.
  - intros k s'. simpl. intros (v & Hv & [[-> ->] | [_ ->]])%get_alter_Some;
      simpl; by apply Hreg.
  - intros k s' c. simpl. intros (v & Hv & [[-> ->] | [_ ->]])%get_alter_Some Hc;
      [done |].
    rewrite lookup_alter_is_Some. by eapply Hcur.
  - intros r. simpl. rewrite lookup_alter_is_Some. apply Hrooms.
Qed.

Lemma shape_enter cm sid u R :
  shape cm → is_Some (rooms cm !! R) → shape (enter cm sid u R).
Proof.
  intros ((Hk & Hreg) & Hcur & Hrooms) HR. split; [split | split].
  - done.
  - intros k s'. simpl. intros (v & Hv & [[-> ->] | [_ ->]])%get_alter_Some;
      simpl; by apply Hreg.
  - intros k s' c. simpl. rewrite lookup_alter_is_Some.
    intros (v & Hv & [[-> ->] | [_ ->]])%get_alter_Some Hc.
    + simpl in Hc. by injection Hc as <-.
    + by eapply Hcur.
  - intros r. simpl. rewrite lookup_alter_is_Some. apply Hrooms.
Qed.

Lemma shape_drop cm sid :
  JsMap.wf (sessions cm) → shape cm → shape (with_sessions (JsMap.delete sid) cm).
Proof.
  intros Hwf ((Hk & Hreg) & Hcur & Hrooms).
  assert (∀ k v, JsMap.get k (JsMap.delete sid (sessions cm)) = Some v →
            JsMap.get k (sessions cm) = Some v) as Hback.
  { intros k v. destruct (decide (sid = k)) as [<- | Hne].
    - by rewrite JsMapFacts.get_delete_eq by done.
    - by rewrite JsMapFacts.get_delete_ne by done. }
  split; [split | split].
  - done.
  - intros k s' Hs'. apply Hreg. by apply Hback.
  - intros k s' c Hs' Hc. eapply Hcur; [by apply Hback | done].
  - done.
Qed.

Lemma shape_leaveRoom cm now sid R : shape cm → shape (leaveRoom cm now sid R).1.
Proof.
  intros Hs. destruct (JsMap.get sid (sessions cm)) as [s |] eqn:Hg.
  - destruct (rooms cm !! R) as [r |] eqn:Hr.
    + rewrite (leaveRoom_found _ _ _ _ _ _ Hg Hr). by apply shape_left.
    + by rewrite leaveRoom_missing by auto.
  - by rewrite leaveRoom_missing by auto.
Qed.

Lemma leaveCurrent_rooms cm now sid s R :
  is_Some (rooms (leaveCurrent cm now sid s).1 !! R) ↔ is_Some (rooms cm !! R).
Proof.
  unfold leaveCurrent. destruct (truthy (ChatSession.currentRoom s)); [| done].
  unfold leaveRoom. destruct (JsMap.get sid (sessions cm)); [| done].
  destruct (rooms cm !! default ""%string (ChatSession.currentRoom s)); [| done].
  simpl. by rewrite lookup_alter_is_Some.
Qed.

Lemma shape_leaveCurrent cm now sid s : shape cm → shape (leaveCurrent cm now sid s).1.
Proof.
  intros Hs. unfold leaveCurrent. destruct (truthy (ChatSession.currentRoom s)); [| done].
  by apply shape_leaveRoom.
Qed.

Lemma shape_joinRoom cm now sid R : shape cm → shape (joinRoom cm now sid R).1.2.
Proof.
  intros Hs.
  destruct (JsMap.get sid (sessions cm)) as [s |] eqn:Hg;
    [| by unfold joinRoom; rewrite Hg].
  destruct (rooms cm !! R) as [r |] eqn:Hr;
    [| by unfold joinRoom; rewrite Hg, Hr].
  rewrite (joinRoom_state _ _ _ _ s) by eauto. simpl.
  apply shape_enter; [by apply shape_leaveCurrent |].
  apply leaveCurrent_rooms. eauto.
Qed.

Lemma leaveCurrent_sessions_wf cm now sid s :
  JsMap.wf (sessions cm) → JsMap.wf (sessions (leaveCurrent cm now sid s).1).
Proof.
  intros Hwf. unfold leaveCurrent. destruct (truthy (ChatSession.currentRoom s)); [| done].
  unfold leaveRoom. destruct (JsMap.get sid (sessions cm)); [| done].
  destruct (rooms cm !! default ""%string (ChatSession.currentRoom s)); [| done].
  simpl. by apply JsMapFacts.wf_alter.
Qed.

Lemma shape_removeSession cm now sid :
  JsMap.wf (sessions cm) → shape cm → shape (removeSession cm now sid).1.
Proof.
  intros Hwf Hs. unfold removeSession.
  destruct (JsMap.get sid (sessions cm)) as [s |] eqn:Hg.
  - pose proof (shape_leaveCurrent cm now sid s Hs) as H1.
    pose proof (leaveCurrent_sessions_wf cm now sid s Hwf) as H2.
    destruct (leaveCurrent cm now sid s) as [cm1 out]. simpl in *.
    by apply shape_drop.
  - simpl. by apply shape_drop.
Qed.

Lemma shape_sendMessage cm now uuid sid content :
  shape cm → shape (sendMessage cm now uuid sid content).1.2.
Proof.
  intros ((Hk & Hreg) & Hcur & Hrooms). unfold sendMessage.
  destruct (JsMap.get sid (sessions cm)) as [s |]; [| done].
  destruct (truthy (ChatSession.currentRoom s)); [| done].
  set (cur := default ""%string (ChatSession.currentRoom s)).
  destruct (rooms cm !! cur); [| done].
  cbn [fst snd]. split; [split | split]; try done.
  - intros k s' c Hs' Hc. cbn [rooms with_rooms].
    rewrite lookup_alter_is_Some. by eapply Hcur.
  - intros r. cbn [rooms with_rooms]. rewrite lookup_alter_is_Some. apply Hrooms.
Qed.

Lemma new_shape now : shape (new now).
Proof.
  split; [split | split].
  - intros k u. unfold new. simpl. by rewrite lookup_empty.
  - by intros k s [=].
  - by intros k s c [=].
  - intros r. unfold new, createDefaultRooms, defaultRooms. simpl. split.
    + intros [room Hroom].
      repeat (apply lookup_insert_Some in Hroom as [[<- _] | [_ Hroom]];
              [rewrite !elem_of_cons; tauto |]).
      by rewrite lookup_empty in Hroom.
    + rewrite !elem_of_cons, elem_of_nil.
      intros [-> | [-> | [-> | [-> | []]]]]; by eexists.
Qed.

Lemma openConnection_invariant cm now userUuid sessionUuid username ws isGuest :
  wellFormed cm → membersConsistent cm → shape cm →
  users cm !! userUuid = None →
  JsMap.get sessionUuid (sessions cm) = None →
  let cm' := (openConnection cm now userUuid sessionUuid username ws isGuest).2 in
  wellFormed cm' ∧ membersConsistent cm' ∧ shape cm'.
Proof.
  intros Hwf Hc ((Hk & Hreg) & Hcur & Hrooms) Hu Hs. unfold openConnection. simpl.
  assert (∀ sid s, JsMap.get sid (sessions cm) = Some s →
            ChatSession.userId s ≠ userUuid) as Hfresh.
  { intros sid s Hg Heq. destruct (Hreg _ _ Hg) as [_ [u Hu']]. congruence. }
  destruct (createSession_invariant
              (createUser cm now userUuid username isGuest).2
              sessionUuid userUuid username ws isGuest Hwf Hc Hs Hfresh) as [H1 H2].
  split; [done |]. split; [done |].
  split; [split | split]; simpl.
  - intros k u. simpl. destruct (decide (userUuid = k)) as [<- | Hne].
    + rewrite lookup_insert_eq. by intros [= <-].
    + rewrite lookup_insert_ne by done. apply Hk.
  - intros k s. simpl. destruct (decide (sessionUuid = k)) as [<- | Hne].
    + rewrite JsMapFacts.get_set_eq. intros [= <-]. simpl.
      by rewrite lookup_insert_eq.
    + rewrite JsMapFacts.get_set_ne by done. intros Hg.
      destruct (Hreg _ _ Hg) as [Hid Hsome]. split; [done |].
      rewrite lookup_insert_is_Some. destruct (decide (userUuid = ChatSession.userId s));
        [by left | by right].
  - intros k s c. simpl. destruct (decide (sessionUuid = k)) as [<- | Hne].
    + rewrite JsMapFacts.get_set_eq. by intros [= <-].
    + rewrite JsMapFacts.get_set_ne by done. apply Hcur.
  - done.
Qed.


Lemma leaveCurrent_typing cm now sid s :
  typingIndicators (leaveCurrent cm now sid s).1 = typingIndicators cm.
Proof.
  unfold leaveCurrent. destruct (truthy (ChatSession.currentRoom s)); [| done].
  unfold leaveRoom. destruct (JsMap.get sid (sessions cm)); [| done].
  by destruct (rooms cm !! default ""%string (ChatSession.currentRoom s)).
Qed.

Lemma joinRoom_typing cm now sid R :
  typingIndicators (joinRoom cm now sid R).1.2 = typingIndicators cm.
Proof.
  destruct (JsMap.get sid (sessions cm)) as [s |] eqn:Hg;
    [| by unfold joinRoom; rewrite Hg].
  destruct (rooms cm !! R) as [r |] eqn:Hr;
    [| by unfold joinRoom; rewrite Hg, Hr].
  rewrite (joinRoom_state _ _ _ _ s) by eauto. simpl. apply leaveCurrent_typing.
Qed.

Lemma removeSession_typing cm now sid :
  typingIndicators (removeSession cm now sid).1 = typingIndicators cm.
Proof.
  unfold removeSession. destruct (JsMap.get sid (sessions cm)) as [s |]; [| done].
  pose proof (leaveCurrent_typing cm now sid s) as H.
  by destruct (leaveCurrent cm now sid s).
Qed.

Lemma sendMessage_typing cm now uuid sid content :
  typingIndicators (sendMessage cm now uuid sid content).1.2 = typingIndicators cm.
Proof.
  unfold sendMessage. destruct (JsMap.get sid (sessions cm)) as [s |]; [| done].
  destruct (truthy (ChatSession.currentRoom s)); [| done].
  by destruct (rooms cm !! default ""%string (ChatSession.currentRoom s)).
Qed.

Lemma removeSession_serverInvariant cm now sid :
  serverInvariant cm → serverInvariant (removeSession cm now sid).1.
Proof.
  intros (Hwf & Hc & Hreg & Hcur & Hrooms & Ht).
  destruct (removeSession_invariant cm now sid Hwf Hc) as [H1 H2].
  destruct (shape_removeSession cm now sid) as (H3 & H4 & H5); [apply Hwf | done |].
  by rewrite <- (removeSession_typing cm now sid) in Ht.
Qed.

(** Property X1 (the invariant of the server).  Every state of the
    registries that the server reaches from [new ChatManager()] through its
    [open], [message] and [close] handlers and its sweep timer, with new ids
    for every connection, has consistent memberships ([room.users] is the
    set of the user ids of the sessions whose current room is that room),
    one registered user per session, an existing room as the current room of
    every session, exactly the four default rooms, and duplicate-free
    session and typing maps. *)
Theorem server_invariant (cm : t) : reachable cm → serverInvariant cm.
Proof.
  induction 1 as [now
                 | cm now userUuid sessionUuid username ws isGuest Hreach IH Hu Hs Hne
                 | cm now sessionId roomId Hreach IH
                 | cm now uuid sessionId content Hreach IH
                 | cm now sessionId roomId Hreach IH
                 | cm now sessionId roomId Hreach IH
                 | cm now Hreach IH
                 | cm now ws Hreach IH].
  - destruct (new_invariant now) as [H1 H2]. destruct (new_shape now) as (H3 & H4 & H5).
    repeat (split; [done |]). apply NoDup_nil_2.
  - destruct IH as (Hwf & Hc & Hreg & Hcur & Hrooms & Ht).
    destruct (openConnection_invariant cm now userUuid sessionUuid username ws isGuest)
      as (H1 & H2 & H3 & H4 & H5); done.
  - destruct IH as (Hwf & Hc & Hreg & Hcur & Hrooms & Ht).
    destruct (joinRoom_invariant cm now sessionId roomId Hwf Hc) as [H1 H2].
    destruct (shape_joinRoom cm now sessionId roomId) as (H3 & H4 & H5); [done |].
    by rewrite <- (joinRoom_typing cm now sessionId roomId) in Ht.
  - destruct IH as (Hwf & Hc & Hreg & Hcur & Hrooms & Ht).
    destruct (messaging_invariant cm now uuid sessionId ""%string content Hwf Hc)
      as [[H1 H2] _].
    destruct (shape_sendMessage cm now uuid sessionId content) as (H3 & H4 & H5);
      [done |].
    by rewrite <- (sendMessage_typing cm now uuid sessionId content) in Ht.
  - destruct IH as (Hwf & Hc & Hreg & Hcur & Hrooms & Ht).
    destruct (typing_wf_preserved cm now sessionId roomId Ht) as (Ht' & _).
    revert Ht'. unfold startTyping.
    by destruct (JsMap.get sessionId (sessions cm)).
  - destruct IH as (Hwf & Hc & Hreg & Hcur & Hrooms & Ht).
    destruct (typing_wf_preserved cm now sessionId roomId Ht) as (_ & Ht' & _).
    revert Ht'. unfold stopTyping.
    by destruct (JsMap.get sessionId (sessions cm)).
  - destruct IH as (Hwf & Hc & Hreg & Hcur & Hrooms & Ht).
    destruct (typing_wf_preserved cm now ""%string ""%string Ht) as (_ & _ & Ht').
    revert Ht'. by rewrite typingCleanupTick_spec.
  - unfold closeConnection. destruct (findSessionByWs cm ws) as [sid |]; [| done].
    destruct (truthy (Some sid)); [| done].
    by apply removeSession_serverInvariant.
Qed.

Lemma lobby_reachable : reachable Demo.lobby.
Proof.
  apply reach_join, reach_join.
  apply (reach_open _ 2 "u2" "s2" "bob" 2 false); [| done | done | done].
  by apply (reach_open _ 1 "u1" "s1" "alice" 1 false); [apply reach_new | ..].
Qed.

Lemma server_invariant_witness : serverInvariant Demo.lobby.
Proof. exact (server_invariant Demo.lobby lobby_reachable). Defined.



End ServerFacts.

(** ** server.ts: the outcome of joinRoom and sendMessage *)

Module OutcomeFacts.
Import ChatManager ChatInv ChatFacts ServerInv Server ServerFacts.

Lemma elem_of_sessionsIn_get cm sid s R :
  JsMap.get sid (sessions cm) = Some s →
  ChatSession.currentRoom s = Some R →
  sid ∈ (sessionsIn cm R).*1.
Proof.
  intros Hg Hc. apply list_elem_of_fmap. exists (sid, s). split; [done |].
  apply list_elem_of_filter. split; [done |]. by apply JsMapFacts.get_Some_elem_of.
Qed.

(** Property X3 (outcome of joinRoom).  [joinRoom] reports success exactly
    when the session and the room exist.  When it reports failure nothing
    is changed and nothing is sent: in particular a session that asks for a
    room that does not exist stays in its current room.  When it reports
    success the room is the current room of the session, the user of the
    session is in the member set of the room, and the session itself is
    sent [user_joined] and [room_users]. *)
Theorem joinRoom_outcome (cm : t) (now : Z) (sessionId roomId : string) :
  ((joinRoom cm now sessionId roomId).1.1 = true
   ↔ is_Some (JsMap.get sessionId (sessions cm)) ∧ is_Some (rooms cm !! roomId))
  ∧ ((joinRoom cm now sessionId roomId).1.1 = false →
     joinRoom cm now sessionId roomId = (false, cm, []))
  ∧ ((joinRoom cm now sessionId roomId).1.1 = true →
     ∃ session room,
       JsMap.get sessionId (sessions (joinRoom cm now sessionId roomId).1.2) = Some session
       ∧ ChatSession.currentRoom session = Some roomId
       ∧ rooms (joinRoom cm now sessionId roomId).1.2 !! roomId = Some room
       ∧ ChatSession.userId session ∈ ChatRoom.users room
       ∧ sessionId ∈ recipients "user_joined" (joinRoom cm now sessionId roomId).2
       ∧ sessionId ∈ recipients "room_users" (joinRoom cm now sessionId roomId).2).
Proof.
  destruct (JsMap.get sessionId (sessions cm)) as [s |] eqn:Hg.
  2: { unfold joinRoom. rewrite Hg. simpl. split; [| done].
       split; [done |]. by intros [[? ?] _]. }
  destruct (rooms cm !! roomId) as [r |] eqn:Hr.
  2: { unfold joinRoom. rewrite Hg, Hr. simpl. split; [| done].
       split; [done |]. by intros [_ [? ?]]. }
  rewrite (joinRoom_state _ _ _ _ s) by eauto. cbn [fst snd].
  split; [by eauto |]. split; [done |]. intros _.
  set (cmL := (leaveCurrent cm now sessionId s).1).
  assert (∃ sL, JsMap.get sessionId (sessions cmL) = Some sL
                ∧ ChatSession.userId sL = ChatSession.userId s) as (sL & HsL & HuL).
  { unfold cmL, leaveCurrent. destruct (truthy (ChatSession.currentRoom s)); [| by eauto].
    unfold leaveRoom. rewrite Hg.
    destruct (rooms cm !! default ""%string (ChatSession.currentRoom s)); [| by eauto].
    simpl. rewrite JsMapFacts.get_alter_eq, Hg. by eauto. }
  assert (∃ rL, rooms cmL !! roomId = Some rL) as [rL HrL].
  { apply (leaveCurrent_rooms cm now sessionId s roomId). eauto. }
  set (cm' := enter cmL sessionId (ChatSession.userId s) roomId).
  assert (JsMap.get sessionId (sessions cm')
          = Some (ChatSession.with_currentRoom (Some roomId) sL)) as Hs'.
  { unfold cm'. simpl. by rewrite JsMapFacts.get_alter_eq, HsL. }
  assert (sessionId ∈ (sessionsIn cm' roomId).*1) as Hin.
  { by eapply elem_of_sessionsIn_get. }
  exists (ChatSession.with_currentRoom (Some roomId) sL),
         (ChatRoom.with_users (JsSet.add (ChatSession.userId s)) rL).
  split; [done |]. split; [done |].
  split; [unfold cm'; simpl; by rewrite lookup_alter_eq, HrL |].
  split; [simpl; rewrite HuL; apply JsSetFacts.elem_of_add; by left |].
  fold cmL. fold cm'.
  rewrite (enter_broadcasts cmL now sessionId (ChatSession.userId s) roomId rL) by done.
  fold cm'. rewrite !recipients_app, !recipients_deliverAll. simpl.
  rewrite !elem_of_app. tauto.
Qed.


Lemma joinRoom_outcome_witness :
  (joinRoom Demo.lobby 5 "s1" "tech").1.1 = true
  ∧ "s1"%string ∈ recipients "user_joined" (joinRoom Demo.lobby 5 "s1" "tech").2
  ∧ joinRoom Demo.lobby 5 "s1" "attic" = (false, Demo.lobby, []).
Proof.
  destruct (joinRoom_outcome Demo.lobby 5 "s1" "tech") as (Hiff & _ & Hok).
  destruct (joinRoom_outcome Demo.lobby 5 "s1" "attic") as (_ & Hfail & _).
  assert ((joinRoom Demo.lobby 5 "s1" "tech").1.1 = true) as Htrue.
  { apply Hiff. split; eexists; vm_compute; reflexivity. }
  destruct (Hok Htrue) as (session & room & _ & _ & _ & _ & Hjoined & _).
  split; [exact Htrue |]. split; [exact Hjoined |].
  apply Hfail. by vm_compute.
Defined.





End OutcomeFacts.

(** ** server.ts: typing indicators *)

Module JsMapMore.
Section more.
Context {V : Type}.
Implicit Types (m : list (string * V)) (k : string) (v : V).

Lemma length_set_present k v m :
  is_Some (JsMap.get k m) → length (JsMap.set k v m) = length m.
Proof.
  induction m as [| [k0 v0] m IH]; simpl; [by intros [? ?] |].
  case_decide; simpl; [done |]. intros Hsome. by rewrite IH.
Qed.

Lemma delete_set_absent k v m :
  JsMap.get k m = None → JsMap.delete k (JsMap.set k v m) = m.
Proof.
  induction m as [| [k0 v0] m IH]; simpl.
  - intros _. by rewrite decide_True.
  - case_decide; [done |]. intros Hnone. simpl. rewrite decide_False by done.
    by rewrite IH.
Qed.

Lemma get_filter (P : string * V → Prop) `{!∀ e, Decision (P e)} k m :
  JsMap.wf m →
  JsMap.get k (filter P m)
  = match JsMap.get k m with
    | Some v => if decide (P (k, v)) then Some v else None
    | None => None
    end.
Proof.
  unfold JsMap.wf. induction m as [| [k0 v0] m IH]; [done |]. csimpl.
  rewrite NoDup_cons. intros [Hk0 Hnd].
  rewrite filter_cons. destruct (decide (k0 = k)) as [-> | Hne].
  - destruct (decide (P (k, v0))) as [HP | HP].
    + simpl. by rewrite decide_True.
    + rewrite IH by done.
      apply JsMapFacts.get_None_not_key in Hk0. by rewrite Hk0.
  - destruct (decide (P (k0, v0))); [| by apply IH].
    simpl. rewrite decide_False by done. by apply IH.
Qed.

End more.
End JsMapMore.

Module TypingFacts.
Import ChatManager ChatInv ChatFacts ServerInv Server ServerFacts OutcomeFacts.

(** Property X5 (typing indicator round trip).  For an existing session,
    [startTyping] records under the key of the user and the room an
    indicator with the time of the call and leaves the other keys alone;
    a second [startTyping] refreshes the time without adding an entry;
    [stopTyping] removes the entry, and when the key was not tracked before
    the pair [startTyping], [stopTyping] restores the map of indicators.
    For an unknown session both do nothing. *)
Theorem typing_round_trip (cm : t) (now now' : Z) (sessionId roomId : string)
  (s : ChatSession.t) :
  JsMap.get sessionId (sessions cm) = Some s →
  JsMap.wf (typingIndicators cm) →
  let key := typingKey (ChatSession.userId s) roomId in
  let started := (startTyping cm now sessionId roomId).1 in
  JsMap.get key (typingIndicators started)
  = Some (TypingIndicator.mk (ChatSession.userId s) roomId now)
  ∧ (∀ k, k ≠ key →
          JsMap.get k (typingIndicators started) = JsMap.get k (typingIndicators cm))
  ∧ JsMap.get key (typingIndicators (startTyping started now' sessionId roomId).1)
    = Some (TypingIndicator.mk (ChatSession.userId s) roomId now')
  ∧ length (typingIndicators (startTyping started now' sessionId roomId).1)
    = length (typingIndicators started)
  ∧ JsMap.get key (typingIndicators (stopTyping started now' sessionId roomId).1) = None
  ∧ (JsMap.get key (typingIndicators cm) = None →
     typingIndicators (stopTyping started now' sessionId roomId).1 = typingIndicators cm)
  ∧ (∀ unknown,
       JsMap.get unknown (sessions cm) = None →
       startTyping cm now unknown roomId = (cm, [])
       ∧ stopTyping cm now unknown roomId = (cm, [])).
Proof.
  intros Hs Hwf. cbv zeta.
  assert (sessions (startTyping cm now sessionId roomId).1 = sessions cm) as Hsess.
  { unfold startTyping. by rewrite Hs. }
  assert (typingIndicators (startTyping cm now sessionId roomId).1
          = JsMap.set (typingKey (ChatSession.userId s) roomId)
              (TypingIndicator.mk (ChatSession.userId s) roomId now)
              (typingIndicators cm)) as Ht.
  { unfold startTyping. by rewrite Hs. }
  split; [by rewrite Ht, JsMapFacts.get_set_eq |].
  split; [by intros k Hk; rewrite Ht, JsMapFacts.get_set_ne |].
  split.
  { unfold startTyping at 1. rewrite Hsess, Hs. simpl.
    by rewrite JsMapFacts.get_set_eq. }
  split.
  { unfold startTyping at 1. rewrite Hsess, Hs. simpl.
    apply JsMapMore.length_set_present. rewrite Ht, JsMapFacts.get_set_eq. eauto. }
  split.
  { unfold stopTyping. rewrite Hsess, Hs. simpl.
    apply JsMapFacts.get_delete_eq. rewrite Ht. by apply JsMapFacts.wf_set. }
  split.
  { intros Hnone. unfold stopTyping. rewrite Hsess, Hs. simpl. rewrite Ht.
    by apply JsMapMore.delete_set_absent. }
  intros unknown Hu. unfold startTyping, stopTyping. by rewrite Hu.
Qed.

Lemma typing_round_trip_witness :
  JsMap.get "u1-general"%string
    (typingIndicators (startTyping Demo.lobby 10 "s1" "general").1)
  = Some (TypingIndicator.mk "u1" "general" 10)
  ∧ typingIndicators
      (stopTyping (startTyping Demo.lobby 10 "s1" "general").1 20 "s1" "general").1
    = typingIndicators Demo.lobby.
Proof.
  destruct (typing_round_trip Demo.lobby 10 20 "s1" "general"
              (ChatSession.mk "s1" "u1" "alice" 1 (Some "general"%string) false))
    as (Hget & _ & _ & _ & _ & Hback & _);
    [by vm_compute | apply NoDup_nil_2 |].
  split; [exact Hget |]. apply Hback. by vm_compute.
Defined.

(** Property X6 (expiry of a typing indicator).  An indicator recorded by
    [startTyping] at time [t] survives every sweep that runs at most 5000 ms
    later, and the first sweep that runs more than 5000 ms later removes it
    and sends [typing_stop] to every session whose current room is the
    room of the indicator. *)
Theorem typing_expiry (cm : t) (t now : Z) (sessionId roomId : string)
  (s : ChatSession.t) :
  JsMap.get sessionId (sessions cm) = Some s →
  JsMap.wf (typingIndicators cm) →
  let key := typingKey (ChatSession.userId s) roomId in
  let started := (startTyping cm t sessionId roomId).1 in
  (now - t ≤ 5000 →
   JsMap.get key (typingIndicators (typingCleanupTick started now).1)
   = Some (TypingIndicator.mk (ChatSession.userId s) roomId t))
  ∧ (now - t > 5000 →
     JsMap.get key (typingIndicators (typingCleanupTick started now).1) = None
     ∧ (is_Some (rooms cm !! roomId) →
        ∀ sid, sid ∈ (sessionsIn cm roomId).*1 →
               sid ∈ recipients "typing_stop" (typingCleanupTick started now).2)).
Proof.
  intros Hs Hwf. cbv zeta.
  assert ((startTyping cm t sessionId roomId).1
          = with_typingIndicators
              (JsMap.set (typingKey (ChatSession.userId s) roomId)
                 (TypingIndicator.mk (ChatSession.userId s) roomId t)) cm) as ->.
  { unfold startTyping. by rewrite Hs. }
  set (key := typingKey (ChatSession.userId s) roomId).
  set (ind := TypingIndicator.mk (ChatSession.userId s) roomId t).
  set (started := with_typingIndicators (JsMap.set key ind) cm).
  assert (JsMap.wf (typingIndicators started)) as Hwf'.
  { by apply JsMapFacts.wf_set. }
  assert (JsMap.get key (typingIndicators started) = Some ind) as Hget.
  { apply JsMapFacts.get_set_eq. }
  rewrite typingCleanupTick_spec by done. cbn [fst snd typingIndicators with_typingIndicators].
  rewrite (JsMapMore.get_filter _ key) by exact Hwf'.
  fold (typingIndicators started). rewrite Hget. split.
  - intros Hle. rewrite decide_True; [done |].
    unfold expired, typingTimeoutMs. simpl. apply bool_decide_eq_false. lia.
  - intros Hgt.
    assert (expired now ind = true) as Hexp.
    { unfold expired, typingTimeoutMs. simpl. apply bool_decide_eq_true. lia. }
    split; [rewrite decide_False; [done |]; simpl; by rewrite Hexp |].
    intros [r Hr] sid Hsid. unfold recipients.
    apply list_elem_of_fmap in Hsid as ([sid' s'] & -> & Hin).
    apply list_elem_of_fmap.
    exists (Delivery.mk sid' (ChatSession.ws s')
              (Envelope.mk "typing_stop"
                 (Envelope.Username (getUsernameById cm (ChatSession.userId s))) now)).
    split; [done |]. apply list_elem_of_filter. split; [done |].
    apply list_elem_of_bind. exists (key, ind). split.
    + rewrite sweepNotice_all. simpl. rewrite Hr.
      apply list_elem_of_fmap. by exists (sid', s').
    + apply list_elem_of_filter. split; [done |].
      by apply JsMapFacts.get_Some_elem_of.
Qed.

Lemma typing_expiry_witness :
  JsMap.get "u1-general"%string
    (typingIndicators
       (typingCleanupTick (startTyping Demo.lobby 10 "s1" "general").1 5010).1)
  = Some (TypingIndicator.mk "u1" "general" 10)
  ∧ JsMap.get "u1-general"%string
      (typingIndicators
         (typingCleanupTick (startTyping Demo.lobby 10 "s1" "general").1 5011).1)
    = None.
Proof.
  destruct (typing_expiry Demo.lobby 10 5010 "s1" "general"
              (ChatSession.mk "s1" "u1" "alice" 1 (Some "general"%string) false))
    as (Hkeep & _); [by vm_compute | apply NoDup_nil_2 |].
  destruct (typing_expiry Demo.lobby 10 5011 "s1" "general"
              (ChatSession.mk "s1" "u1" "alice" 1 (Some "general"%string) false))
    as (_ & Hdrop); [by vm_compute | apply NoDup_nil_2 |].
  split; [apply Hkeep; lia | apply Hdrop; lia].
Defined.

End TypingFacts.

(** ** server.ts: closing a connection *)

Module CloseFacts.
Import ChatManager ChatInv ChatFacts ServerInv Server ServerFacts OutcomeFacts.

Lemma delete_absent {V} k (m : list (string * V)) :
  JsMap.get k m = None → JsMap.delete k m = m.
Proof.
  induction m as [| [k0 v0] m IH]; simpl; [done |].
  case_decide; [done |]. intros Hn. by rewrite IH.
Qed.

Lemma leaveCurrent_get_other cm now sid s k :
  k ≠ sid →
  JsMap.get k (sessions (leaveCurrent cm now sid s).1) = JsMap.get k (sessions cm).
Proof.
  intros Hne. unfold leaveCurrent. destruct (truthy (ChatSession.currentRoom s)); [| done].
  unfold leaveRoom. destruct (JsMap.get sid (sessions cm)); [| done].
  destruct (rooms cm !! default ""%string (ChatSession.currentRoom s)); [| done].
  simpl. by rewrite JsMapFacts.get_alter_ne.
Qed.

Lemma removeSession_get cm now sid k :
  JsMap.wf (sessions cm) →
  JsMap.get k (sessions (removeSession cm now sid).1)
  = if decide (k = sid) then None else JsMap.get k (sessions cm).
Proof.
  intros Hwf. unfold removeSession.
  destruct (JsMap.get sid (sessions cm)) as [s |] eqn:Hg.
  - pose proof (leaveCurrent_sessions_wf cm now sid s Hwf) as Hwf1.
    pose proof (leaveCurrent_get_other cm now sid s k) as Hother.
    destruct (leaveCurrent cm now sid s) as [cm1 out]. simpl in *.
    case_decide as Hk.
    + subst. by apply JsMapFacts.get_delete_eq.
    + rewrite JsMapFacts.get_delete_ne by done. by apply Hother.
  - simpl. rewrite delete_absent by done. case_decide; [by subst | done].
Qed.

Lemma removeSession_unknown cm now sid :
  JsMap.get sid (sessions cm) = None → removeSession cm now sid = (cm, []).
Proof.
  intros Hg. unfold removeSession. rewrite Hg. simpl.
  unfold with_sessions. rewrite delete_absent by done. by destruct cm.
Qed.

Lemma removeSession_user_gone cm now sid s R r :
  wellFormed cm → membersConsistent cm →
  JsMap.get sid (sessions cm) = Some s →
  rooms (removeSession cm now sid).1 !! R = Some r →
  ChatSession.userId s ∉ ChatRoom.users r.
Proof.
  intros Hwf Hc Hs Hr Hin.
  destruct (removeSession_invariant cm now sid Hwf Hc) as [_ Hc'].
  apply (Hc' _ _ Hr) in Hin as (k & s' & Hk & _ & Hu).
  rewrite removeSession_get in Hk by apply Hwf.
  case_decide as Hne; [done |].
  destruct Hwf as (_ & Hd & _). apply Hne. by eapply Hd.
Qed.

(** Property X7 (cleanup of a removed session).  In a manager with
    consistent memberships and one user per session, [removeSession]
    deletes the session and leaves every other session as it was; afterwards
    the user of the session is in the member set of no room, and if the
    session was in a room the sessions that remain there are sent
    [user_left].  For an unknown session it does nothing. *)
Theorem removeSession_cleanup (cm : t) (now : Z) (sessionId : string) (s : ChatSession.t) :
  wellFormed cm →
  membersConsistent cm →
  JsMap.get sessionId (sessions cm) = Some s →
  JsMap.get sessionId (sessions (removeSession cm now sessionId).1) = None
  ∧ (∀ k, k ≠ sessionId →
          JsMap.get k (sessions (removeSession cm now sessionId).1)
          = JsMap.get k (sessions cm))
  ∧ (∀ roomId room,
       rooms (removeSession cm now sessionId).1 !! roomId = Some room →
       ChatSession.userId s ∉ ChatRoom.users room)
  ∧ (∀ roomId,
       ChatSession.currentRoom s = Some roomId →
       is_Some (rooms cm !! roomId) →
       recipients "user_left" (removeSession cm now sessionId).2
       = (filter (λ e, e.1 ≠ sessionId) (sessionsIn cm roomId)).*1)
  ∧ (∀ unknown,
       JsMap.get unknown (sessions cm) = None →
       removeSession cm now unknown = (cm, [])).
Proof.
  intros Hwf Hc Hs.
  split; [by rewrite removeSession_get, decide_True by (done || apply Hwf) |].
  split; [by intros k Hk; rewrite removeSession_get, decide_False by (done || apply Hwf) |].
  split; [by intros R r; eapply removeSession_user_gone |].
  split; [| by intros unknown; apply removeSession_unknown].
  intros R Hcur [r Hr]. unfold removeSession. rewrite Hs.
  unfold leaveCurrent. rewrite Hcur, (wellFormed_room_nonempty _ _ _ Hwf Hr). simpl.
  rewrite (leaveRoom_found _ _ _ _ _ _ Hs Hr). simpl.
  rewrite !recipients_app, !recipients_deliverAll. simpl.
  rewrite sessionsIn_left by apply Hwf. by rewrite app_nil_r.
Qed.

Lemma removeSession_cleanup_witness :
  JsMap.get "s1"%string (sessions (removeSession Demo.lobby 5 "s1").1) = None
  ∧ recipients "user_left" (removeSession Demo.lobby 5 "s1").2 = ["s2"%string].
Proof.
  destruct lobby_invariant as [Hwf Hc].
  destruct (removeSession_cleanup Demo.lobby 5 "s1"
              (ChatSession.mk "s1" "u1" "alice" 1 (Some "general"%string) false) Hwf Hc)
    as (Hgone & _ & _ & Hleft & _); [by vm_compute |].
  split; [exact Hgone |].
  rewrite (Hleft "general"%string) by (done || (eexists; vm_compute; reflexivity)).
  by vm_compute.
Defined.

(** *** The session of a socket *)

Lemma findWs_Some ws l sid :
  findWs ws l = Some sid → ∃ s, (sid, s) ∈ l ∧ ChatSession.ws s = ws.
Proof.
  induction l as [| [k v] l IH]; simpl; [done |]. case_decide as Hw.
  - intros [= <-]. exists v. split; [apply list_elem_of_here | done].
  - intros (s & Hin & Hs)%IH. exists s. split; [by apply list_elem_of_further | done].
Qed.

Lemma findWs_None ws l :
  findWs ws l = None ↔ ∀ sid s, (sid, s) ∈ l → ChatSession.ws s ≠ ws.
Proof.
  induction l as [| [k v] l IH]; simpl.
  - split; [by intros _ ? ? ?%elem_of_nil | done].
  - case_decide as Hw.
    + split; [done |]. intros H. exfalso. apply (H k v); [apply list_elem_of_here | done].
    + rewrite IH. split.
      * intros H sid s [[= -> ->] | Hin]%elem_of_cons; [done | by eapply H].
      * intros H sid s Hin. apply (H sid s). by apply list_elem_of_further.
Qed.

Lemma findWs_set_new ws l sid s :
  (∀ k v, (k, v) ∈ l → ChatSession.ws v ≠ ws) →
  ChatSession.ws s = ws →
  findWs ws (JsMap.set sid s l) = Some sid.
Proof.
  intros Hfree Hs. induction l as [| [k v] l IH]; simpl.
  - by rewrite decide_True.
  - case_decide as Hk; simpl.
    + by rewrite decide_True.
    + rewrite decide_False by (apply (Hfree k v), list_elem_of_here).
      apply IH. intros k' v' Hin. apply (Hfree k' v'). by apply list_elem_of_further.
Qed.

(** Property X8 (the session of a socket).  In a duplicate-free session
    map, [findSessionByWs] answers the id of a session that is registered
    under that id and holds the socket, and it answers nothing exactly when
    no session holds the socket.  After [createSession] for a socket that no
    session holds, it answers the id of the new session. *)
Theorem findSessionByWs_spec (cm : t) (ws : nat) :
  JsMap.wf (sessions cm) →
  (∀ sessionId,
     findSessionByWs cm ws = Some sessionId →
     ∃ s, JsMap.get sessionId (sessions cm) = Some s ∧ ChatSession.ws s = ws)
  ∧ (findSessionByWs cm ws = None
     ↔ ∀ sessionId s, JsMap.get sessionId (sessions cm) = Some s → ChatSession.ws s ≠ ws)
  ∧ (findSessionByWs cm ws = None →
     ∀ uuid userId username isGuest,
       findSessionByWs (createSession cm uuid userId username ws isGuest).2 ws
       = Some uuid).
Proof.
  intros Hwf. unfold findSessionByWs. split; [| split].
  - intros sid (s & Hin & Hs)%findWs_Some. exists s. split; [| done].
    by apply JsMapFacts.elem_of_get.
  - rewrite findWs_None. split.
    + intros H sid s Hg. apply (H sid s). by apply JsMapFacts.get_Some_elem_of.
    + intros H sid s Hin. apply (H sid s). by apply JsMapFacts.elem_of_get.
  - intros Hnone uuid userId username isGuest. simpl.
    apply findWs_set_new; [| done]. by apply findWs_None.
Qed.

Lemma findSessionByWs_spec_witness :
  (∃ s, JsMap.get "s2"%string (sessions Demo.lobby) = Some s ∧ ChatSession.ws s = 2%nat)
  ∧ findSessionByWs (createSession Demo.lobby "s3" "u3" "carol" 7 true).2 7 = Some "s3"%string.
Proof.
  destruct lobby_invariant as [(Hwf & _) _].
  destruct (findSessionByWs_spec Demo.lobby 2 Hwf) as (Hfound & _ & _).
  destruct (findSessionByWs_spec Demo.lobby 7 Hwf) as (_ & _ & Hnew).
  split; [apply Hfound; by vm_compute | apply Hnew; by vm_compute].
Defined.

Lemma findSessionByWs_None_or_Some cm ws :
  JsMap.wf (sessions cm) →
  findSessionByWs cm ws = None
  ∨ ∃ sid s, findSessionByWs cm ws = Some sid
             ∧ JsMap.get sid (sessions cm) = Some s
             ∧ ChatSession.ws s = ws.
Proof.
  intros Hwf. unfold findSessionByWs.
  destruct (findWs ws (sessions cm)) as [sid |] eqn:Hfind; [| by left].
  right. apply findWs_Some in Hfind as (s & Hin & Hs). exists sid, s.
  split; [done |]. split; [by apply JsMapFacts.elem_of_get | done].
Qed.

(** Property X9 (closing a connection).  In a manager with consistent
    memberships, one user per session, non-empty session ids and at most
    one session per socket, the [close] handler leaves no session for the
    socket, keeps every session of another socket, and leaves the user of
    the closed session in the member set of no room.  For a socket without
    a session it does nothing. *)
Theorem closeConnection_cleanup (cm : t) (now : Z) (ws : nat) :
  wellFormed cm →
  membersConsistent cm →
  JsMap.get ""%string (sessions cm) = None →
  (∀ sidA sA sidB sB,
     JsMap.get sidA (sessions cm) = Some sA →
     JsMap.get sidB (sessions cm) = Some sB →
     ChatSession.ws sA = ChatSession.ws sB → sidA = sidB) →
  findSessionByWs (closeConnection cm now ws).1 ws = None
  ∧ (∀ k s, JsMap.get k (sessions cm) = Some s → ChatSession.ws s ≠ ws →
            JsMap.get k (sessions (closeConnection cm now ws).1) = Some s)
  ∧ (∀ sessionId s roomId room,
       JsMap.get sessionId (sessions cm) = Some s →
       ChatSession.ws s = ws →
       rooms (closeConnection cm now ws).1 !! roomId = Some room →
       ChatSession.userId s ∉ ChatRoom.users room)
  ∧ (findSessionByWs cm ws = None → closeConnection cm now ws = (cm, [])).
Proof.
  intros Hwf Hc Hempty Hsock.
  assert (JsMap.wf (sessions cm)) as Hk by apply Hwf.
  destruct (findSessionByWs_None_or_Some cm ws Hk) as [Hnone | (sid & s0 & Hfind & Hs0 & Hws0)].
  - unfold closeConnection. rewrite Hnone.
    split; [done |]. split; [done |]. split; [| done].
    intros sid s R r Hs Hws. exfalso.
    unfold findSessionByWs in Hnone. rewrite findWs_None in Hnone.
    apply (Hnone sid s); [by apply JsMapFacts.get_Some_elem_of | done].
  - assert (sid ≠ ""%string) as Hne by (intros ->; congruence).
    unfold closeConnection. rewrite Hfind. simpl.
    apply String.eqb_neq in Hne. rewrite Hne. simpl.
    split; [| split; [| split; [| done]]].
    + unfold findSessionByWs. apply findWs_None. intros k s Hin Hws.
      assert (JsMap.get k (sessions (removeSession cm now sid).1) = Some s) as Hg.
      { apply JsMapFacts.elem_of_get; [| done].
        by destruct (removeSession_invariant cm now sid Hwf Hc) as [(? & _) _]. }
      rewrite removeSession_get in Hg by done. case_decide as Hks; [done |].
      apply Hks. eapply Hsock; [done | done | congruence].
    + intros k s Hg Hws. rewrite removeSession_get by done.
      rewrite decide_False; [done |]. intros ->. congruence.
    + intros sid' s R r Hs Hws Hr.
      assert (sid' = sid) as -> by (eapply Hsock; [done | done | congruence]).
      by eapply removeSession_user_gone.
Qed.


Lemma lobby_sockets_distinct sidA sA sidB sB :
  JsMap.get sidA (sessions Demo.lobby) = Some sA →
  JsMap.get sidB (sessions Demo.lobby) = Some sB →
  ChatSession.ws sA = ChatSession.ws sB → sidA = sidB.
Proof.
  assert (sessions Demo.lobby
          = [("s1", ChatSession.mk "s1" "u1" "alice" 1 (Some "general") false);
             ("s2", ChatSession.mk "s2" "u2" "bob" 2 (Some "general") false)]%string)
    as -> by (by vm_compute).
  cbn [JsMap.get]. intros HA HB Hws.
  repeat case_decide; try discriminate;
    injection HA as <-; injection HB as <-; cbn in Hws; congruence.
Qed.

Lemma closeConnection_cleanup_witness :
  findSessionByWs (closeConnection Demo.lobby 5 1).1 1 = None
  ∧ closeConnection Demo.lobby 5 9 = (Demo.lobby, []).
Proof.
  destruct lobby_invariant as [Hwf Hc].
  destruct (closeConnection_cleanup Demo.lobby 5 1 Hwf Hc) as (Hgone & _);
    [by vm_compute | apply lobby_sockets_distinct |].
  destruct (closeConnection_cleanup Demo.lobby 5 9 Hwf Hc) as (_ & _ & _ & Hnone);
    [by vm_compute | apply lobby_sockets_distinct |].
  split; [exact Hgone | apply Hnone; by vm_compute].
Defined.

End CloseFacts.

(** ** chat/messages.ts: editing a message *)

Module EditFacts.
Import MessageStore StoreInv IndexFacts.

Lemma writeMessage_consistent (f : Message.t → Message.t) st messageId m :
  indexConsistent st →
  messageIndex st !! messageId = Some m →
  (∀ x, Message.id (f x) = Message.id x ∧ Message.roomId (f x) = Message.roomId x) →
  indexConsistent (writeMessage f messageId m st).
Proof.
  intros (I1 & I2 & I3) Hm Hf.
  destruct (I1 _ _ Hm) as [Hid (ms & Hms & Hin)].
  set (F := λ x : Message.t, if decide (Message.id x = messageId) then f x else x).
  assert (∀ x, Message.id (F x) = Message.id x ∧ Message.roomId (F x) = Message.roomId x)
    as HF.
  { intros x. unfold F. case_decide; [apply Hf | done]. }
  split; [| split]; simpl.
  - intros k m'. destruct (decide (messageId = k)) as [<- | Hk].
    + rewrite lookup_alter_eq, Hm. intros [= <-].
      destruct (Hf m) as [-> ->]. split; [done |].
      rewrite lookup_alter_eq, Hms. eexists. split; [done |].
      apply list_elem_of_fmap. exists m. split; [| done].
      unfold F. by rewrite decide_True.
    + rewrite lookup_alter_ne by done. intros Hm'.
      destruct (I1 _ _ Hm') as [Hid' (ms0 & Hms0 & Hin0)]. split; [done |].
      destruct (decide (Message.roomId m = Message.roomId m')) as [Hr | Hr].
      * rewrite <- Hr, lookup_alter_eq, Hms. eexists. split; [done |].
        rewrite <- Hr, Hms in Hms0. injection Hms0 as <-.
        apply list_elem_of_fmap. exists m'. split; [| done].
        unfold F. rewrite decide_False; [done | congruence].
      * rewrite lookup_alter_ne by done. eauto.
  - intros r ms1 x'. destruct (decide (Message.roomId m = r)) as [<- | Hr].
    + rewrite lookup_alter_eq, Hms. intros [= <-] (x & -> & Hx)%list_elem_of_fmap.
      destruct (I2 _ _ _ Hms Hx) as [Hidx Hroom].
      destruct (Hf x) as [Hfid Hfroom]. case_decide as Hxid.
      * rewrite Hfid, Hfroom. split; [| done].
        rewrite <- Hxid, lookup_alter_eq, Hidx. done.
      * split; [| done]. rewrite lookup_alter_ne by done. done.
    + rewrite lookup_alter_ne by done. intros Hms1 Hin1.
      destruct (I2 _ _ _ Hms1 Hin1) as [Hidx Hroom]. split; [| done].
      rewrite lookup_alter_ne; [done |]. intros Heq.
      rewrite <- Heq, Hm in Hidx. injection Hidx as ->. done.
  - intros r ms1. destruct (decide (Message.roomId m = r)) as [<- | Hr].
    + rewrite lookup_alter_eq, Hms. intros [= <-].
      rewrite <- list_fmap_compose.
      rewrite (list_fmap_ext _ Message.id ms); [by eapply I3 |].
      intros ? x _. simpl. apply HF.
    + rewrite lookup_alter_ne by done. apply I3.
Qed.

Lemma writeMessage_getMessage (f : Message.t → Message.t) st messageId m k :
  getMessage (writeMessage f messageId m st) k
  = if decide (k = messageId) then f <$> getMessage st messageId else getMessage st k.
Proof.
  unfold getMessage. simpl. case_decide as Hk.
  - subst. by rewrite lookup_alter_eq.
  - by rewrite lookup_alter_ne.
Qed.

Lemma writeMessage_history (f : Message.t → Message.t) st messageId m r :
  is_Some (messages st !! Message.roomId m) →
  history (writeMessage f messageId m st) r
  = if decide (r = Message.roomId m)
    then (λ x, if decide (Message.id x = messageId) then f x else x) <$> history st r
    else history st r.
Proof.
  intros [ms Hms]. unfold history. simpl. case_decide as Hr.
  - subst. by rewrite lookup_alter_eq, Hms.
  - by rewrite lookup_alter_ne.
Qed.

Lemma editMessage_success_iff st now messageId userId newContent :
  Result.success (editMessage st now messageId userId newContent).1 = true
  ↔ ∃ m, messageIndex st !! messageId = Some m
         ∧ Message.userId m = userId
         ∧ Message.type m = "text"%string
         ∧ now - Message.timestamp m ≤ 300000.
Proof.
  unfold editMessage, editWindowMs.
  destruct (messageIndex st !! messageId) as [m |] eqn:Hm.
  2: { simpl. split; [done |]. by intros (? & [=] & _). }
  destruct (String.eqb (Message.userId m) userId) eqn:Hu; simpl.
  2: { apply String.eqb_neq in Hu. split; [done |]. intros (? & [= <-] & ? & _). done. }
  apply String.eqb_eq in Hu.
  destruct (String.eqb (Message.type m) "text") eqn:Ht; simpl.
  2: { apply String.eqb_neq in Ht. split; [done |]. intros (? & [= <-] & _ & ? & _). done. }
  apply String.eqb_eq in Ht.
  case_bool_decide as Hw; simpl.
  - split; [done |]. intros (? & [= <-] & _ & _ & ?). lia.
  - split; [| done]. intros _. exists m. repeat split; try done. lia.
Qed.

(** Property X10 (editing a message).  [editMessage] succeeds exactly
    when the message is indexed, the requester is its author, its type is
    [text] and at most 300000 ms have passed since it was created; the
    refusals are reported in this order, and a refused edit changes
    nothing.  A successful edit sets the content and the edited time of the
    message, in the index and at its place in the history of its room,
    keeps its id, room, author and creation time, leaves the other messages
    alone and keeps the store consistent. *)
Theorem editMessage_outcome (st : t) (now : Z) (messageId userId newContent : string) :
  indexConsistent st →
  let res := editMessage st now messageId userId newContent in
  (Result.success res.1 = true
   ↔ ∃ m, messageIndex st !! messageId = Some m
          ∧ Message.userId m = userId
          ∧ Message.type m = "text"%string
          ∧ now - Message.timestamp m ≤ 300000)
  ∧ (Result.success res.1 = false → res.2 = st)
  ∧ (messageIndex st !! messageId = None → res.1 = Result.fail "Message not found")
  ∧ (∀ m, messageIndex st !! messageId = Some m →
          (Message.userId m ≠ userId →
           res.1 = Result.fail "Can only edit your own messages")
          ∧ (Message.userId m = userId → Message.type m ≠ "text"%string →
             res.1 = Result.fail "Can only edit text messages")
          ∧ (Message.userId m = userId → Message.type m = "text"%string →
             now - Message.timestamp m > 300000 →
             res.1 = Result.fail "Can only edit messages within 5 minutes"))
  ∧ (Result.success res.1 = true →
     ∀ m, messageIndex st !! messageId = Some m →
          getMessage res.2 messageId = Some (Message.with_content newContent now m)
          ∧ (∀ k, k ≠ messageId → getMessage res.2 k = getMessage st k)
          ∧ history res.2 (Message.roomId m)
            = (λ x, if decide (Message.id x = messageId)
                    then Message.with_content newContent now x else x)
                <$> history st (Message.roomId m)
          ∧ (∀ r, r ≠ Message.roomId m → history res.2 r = history st r)
          ∧ indexConsistent res.2).
Proof.
  intros Hc. cbv zeta.
  split; [apply editMessage_success_iff |].
  split.
  { unfold editMessage. destruct (messageIndex st !! messageId) as [m |]; [| done].
    destruct (negb (String.eqb (Message.userId m) userId)); [done |].
    destruct (negb (String.eqb (Message.type m) "text")); [done |].
    by case_bool_decide. }
  split; [by unfold editMessage; intros -> |].
  split.
  { intros m Hm. unfold editMessage, editWindowMs. rewrite Hm. split; [| split].
    - intros Hu%String.eqb_neq. by rewrite Hu.
    - intros Hu%String.eqb_eq Ht%String.eqb_neq. by rewrite Hu, Ht.
    - intros Hu%String.eqb_eq Ht%String.eqb_eq Hw. rewrite Hu, Ht. simpl.
      rewrite bool_decide_eq_true_2; [done | lia]. }
  intros Hok m Hm.
  pose proof Hok as (m' & Hm' & Hu & Ht & Hw)%editMessage_success_iff.
  assert (m' = m) as -> by congruence.
  assert (editMessage st now messageId userId newContent
          = (Result.ok, writeMessage (Message.with_content newContent now) messageId m st))
    as ->.
  { unfold editMessage, editWindowMs. rewrite Hm.
    apply String.eqb_eq in Hu, Ht. rewrite Hu, Ht. simpl.
    rewrite bool_decide_eq_false_2; [done | lia]. }
  cbn [fst snd]. destruct Hc as (I1 & I2 & I3).
  destruct (I1 _ _ Hm) as [Hid (ms & Hms & Hin)].
  split; [by rewrite writeMessage_getMessage, decide_True; [unfold getMessage; rewrite Hm |] |].
  split; [by intros k Hk; rewrite writeMessage_getMessage, decide_False |].
  split; [by rewrite writeMessage_history, decide_True by eauto |].
  split; [by intros r Hr; rewrite writeMessage_history, decide_False by eauto |].
  by apply writeMessage_consistent.
Qed.

Lemma editMessage_outcome_witness :
  let st := (addMessage new 1 "m0" "general" "u1" "hello" "text" None).2 in
  Result.success (editMessage st 300001 "m0" "u1" "hi").1 = true
  ∧ getMessage (editMessage st 300001 "m0" "u1" "hi").2 "m0"
    = Some (Message.mk "m0" "general" "u1" "hi" "text" 1 None [] (Some 300001))
  ∧ (editMessage st 300002 "m0" "u1" "hi").1
    = Result.fail "Can only edit messages within 5 minutes".
Proof.
  cbv zeta.
  set (st := (addMessage new 1 "m0" "general" "u1" "hello" "text" None).2).
  set (m := Message.mk "m0" "general" "u1" "hello" "text" 1 None [] None).
  assert (indexConsistent st) as Hc.
  { apply addMessage_consistent; [apply indexConsistent_new | by vm_compute]. }
  assert (messageIndex st !! "m0"%string = Some m) as Hm by (by vm_compute).
  destruct (editMessage_outcome st 300001 "m0" "u1" "hi" Hc) as (Hiff & _ & _ & _ & Heff).
  destruct (editMessage_outcome st 300002 "m0" "u1" "hi" Hc) as (_ & _ & _ & Hlate & _).
  assert (Result.success (editMessage st 300001 "m0" "u1" "hi").1 = true) as Hok.
  { apply Hiff. exists m. split; [exact Hm |]. split; [done |]. split; [done |].
    cbn [Message.timestamp m]. lia. }
  split; [exact Hok |]. split.
  - by destruct (Heff Hok m Hm) as (-> & _).
  - destruct (Hlate m Hm) as (_ & _ & Hl). apply Hl; [done | done |].
    cbn [Message.timestamp m]. lia.
Defined.

End EditFacts.

(** ** chat/messages.ts: deleting a message *)

Module DeleteFacts.
Import MessageStore StoreInv IndexFacts.

Lemma filter_true_on {A} (P : A → Prop) `{!∀ x, Decision (P x)} (l : list A) :
  (∀ x, x ∈ l → P x) → filter P l = l.
Proof.
  induction l as [| a l IH]; intros HP; [done |].
  rewrite filter_cons_True by (apply HP, list_elem_of_here).
  rewrite IH; [done |]. intros x Hx. by apply HP, list_elem_of_further.
Qed.

Lemma delete_filter_NoDup {A B} `{EqDecision B} (f : A → B) (l : list A) (i : nat) (x : A) :
  NoDup (f <$> l) → l !! i = Some x → delete i l = filter (λ y, f y ≠ f x) l.
Proof.
  revert i. induction l as [| a l IH]; intros i; [done |].
  rewrite fmap_cons, NoDup_cons. intros [Ha Hnd]. destruct i as [| i]; simpl.
  - intros [= ->]. rewrite filter_cons_False by (intros H; by apply H).
    symmetry. apply filter_true_on. intros y Hy Heq. apply Ha. rewrite <- Heq.
    apply list_elem_of_fmap. eauto.
  - intros Hx. rewrite filter_cons_True.
    + f_equal. by apply IH.
    + intros Heq. apply Ha. rewrite Heq. apply list_elem_of_fmap.
      exists x. split; [done |]. by eapply list_elem_of_lookup_2.
Qed.

Lemma deleteMessage_success_iff st messageId userId isModeratorAction :
  Result.success (deleteMessage st messageId userId isModeratorAction).1 = true
  ↔ ∃ m, messageIndex st !! messageId = Some m
         ∧ (isModeratorAction = true ∨ Message.userId m = userId).
Proof.
  unfold deleteMessage. destruct (messageIndex st !! messageId) as [m |] eqn:Hm.
  2: { simpl. split; [done |]. by intros (? & [=] & _). }
  destruct isModeratorAction; simpl.
  { split; [| done]. intros _. exists m. by split; [| left]. }
  destruct (String.eqb (Message.userId m) userId) eqn:Hu; simpl.
  - apply String.eqb_eq in Hu. split; [| done]. intros _. exists m. by split; [| right].
  - apply String.eqb_neq in Hu. split; [done |]. intros (? & [= <-] & [? | ?]); done.
Qed.

(** Property X11 (deleting a message).  [deleteMessage] succeeds exactly
    when the message is indexed and the call is a moderator action or the
    requester is the author; a refused call changes nothing and names its
    reason.  In a consistent store a successful call removes the message
    from the index and takes exactly the messages with that id out of the
    history of its room, keeping the others in their order; the other
    rooms and the other index entries stay as they are. *)
Theorem deleteMessage_outcome (st : t) (messageId userId : string)
    (isModeratorAction : bool) :
  indexConsistent st →
  let res := deleteMessage st messageId userId isModeratorAction in
  (Result.success res.1 = true
   ↔ ∃ m, messageIndex st !! messageId = Some m
          ∧ (isModeratorAction = true ∨ Message.userId m = userId))
  ∧ (Result.success res.1 = false → res.2 = st)
  ∧ (messageIndex st !! messageId = None → res.1 = Result.fail "Message not found")
  ∧ (∀ m, messageIndex st !! messageId = Some m →
          isModeratorAction = false → Message.userId m ≠ userId →
          res.1 = Result.fail "Can only delete your own messages")
  ∧ (Result.success res.1 = true →
     ∀ m, messageIndex st !! messageId = Some m →
          getMessage res.2 messageId = None
          ∧ (∀ k, k ≠ messageId → getMessage res.2 k = getMessage st k)
          ∧ history res.2 (Message.roomId m)
            = filter (λ x, Message.id x ≠ messageId) (history st (Message.roomId m))
          ∧ (∀ r, r ≠ Message.roomId m → history res.2 r = history st r)).
Proof.
  intros Hc. cbv zeta.
  split; [apply deleteMessage_success_iff |].
  split.
  { unfold deleteMessage. destruct (messageIndex st !! messageId) as [m |]; [| done].
    by destruct (negb isModeratorAction && negb (String.eqb (Message.userId m) userId)). }
  split; [by unfold deleteMessage; intros -> |].
  split.
  { intros m Hm -> Hu%String.eqb_neq. unfold deleteMessage. by rewrite Hm, Hu. }
  intros Hok m Hm.
  pose proof Hok as (m' & Hm' & Hauth)%deleteMessage_success_iff.
  assert (m' = m) as -> by congruence.
  destruct Hc as (I1 & I2 & I3).
  destruct (I1 _ _ Hm) as [Hid (ms & Hms & Hin)].
  destruct (list_find (λ x, Message.id x = messageId) ms) as [[i x] |] eqn:Hfind.
  2: { apply list_find_None in Hfind. rewrite Forall_forall in Hfind.
       exfalso. by apply (Hfind m Hin). }
  assert (deleteMessage st messageId userId isModeratorAction
          = (Result.ok,
             mk (<[Message.roomId m := delete i ms]> (messages st))
                (delete messageId (messageIndex st)))) as ->.
  { unfold deleteMessage. rewrite Hm, Hms, Hfind.
    destruct Hauth as [-> | Hu]; [done |].
    apply String.eqb_eq in Hu. rewrite Hu. by rewrite andb_false_r. }
  apply list_find_Some in Hfind as (Hix & Hidx & _).
  cbn [fst snd]. unfold getMessage, history. cbn [messages messageIndex].
  split; [by rewrite lookup_delete_eq |].
  split; [by intros k Hk; rewrite lookup_delete_ne |].
  split.
  - rewrite lookup_insert_eq, Hms. simpl.
    rewrite (delete_filter_NoDup Message.id ms i x) by eauto.
    by rewrite Hidx.
  - intros r Hr. by rewrite lookup_insert_ne.
Qed.

Lemma deleteMessage_outcome_witness :
  let st := (addMessage (addMessage new 1 "m0" "general" "u1" "hello" "text" None).2
               2 "m1" "general" "u2" "hi" "text" None).2 in
  Result.success (deleteMessage st "m0" "u2" false).1 = false
  ∧ Result.success (deleteMessage st "m0" "u2" true).1 = true
  ∧ Message.id <$> history (deleteMessage st "m0" "u2" true).2 "general" = ["m1"%string].
Proof.
  cbv zeta.
  set (st := (addMessage (addMessage new 1 "m0" "general" "u1" "hello" "text" None).2
               2 "m1" "general" "u2" "hi" "text" None).2).
  assert (indexConsistent st) as Hc.
  { apply addMessage_consistent; [| by vm_compute].
    apply addMessage_consistent; [apply indexConsistent_new | by vm_compute]. }
  destruct (deleteMessage_outcome st "m0" "u2" false Hc) as (Hno & _).
  destruct (deleteMessage_outcome st "m0" "u2" true Hc) as (Hyes & _ & _ & _ & Heff).
  assert (Result.success (deleteMessage st "m0" "u2" true).1 = true) as Hok.
  { apply Hyes. eexists. split; [by vm_compute | by left]. }
  split; [| split; [exact Hok |]].
  - destruct (Result.success (deleteMessage st "m0" "u2" false).1) eqn:E; [| done].
    destruct Hno as [(m & Hm & [? | Hu]) _]; [done | done |].
    vm_compute in Hm. injection Hm as <-. vm_compute in Hu. done.
  - destruct (Heff Hok (Message.mk "m0" "general" "u1" "hello" "text" 1 None [] None))
      as (_ & _ & Hh & _); [by vm_compute |].
    cbn [Message.roomId] in Hh. rewrite Hh. by vm_compute.
Defined.

End DeleteFacts.

(** ** chat/messages.ts: reactions *)

Module ReactionFacts.
Import MessageStore StoreInv IndexFacts ReactionInv JsMapFacts JsSetFacts EditFacts.

Lemma removeFirst_snoc x l : x ∉ l → removeFirst x (l ++ [x]) = l.
Proof.
  induction l as [| y l IH]; simpl.
  - intros _. by rewrite decide_True.
  - rewrite not_elem_of_cons. intros [Hne Hl].
    rewrite decide_False by congruence. by rewrite IH.
Qed.

Lemma removeFirst_subseteq x l y : y ∈ removeFirst x l → y ∈ l.
Proof.
  induction l as [| z l IH]; simpl; [done |]. case_decide.
  - apply list_elem_of_further.
  - rewrite !elem_of_cons. intros [-> | Hy]; [by left | right; by apply IH].
Qed.

Lemma elem_of_removeFirst x l y : NoDup l → y ∈ removeFirst x l ↔ y ≠ x ∧ y ∈ l.
Proof.
  induction l as [| z l IH]; simpl.
  - intros _. split; [by intros ?%elem_of_nil | by intros [_ ?%elem_of_nil]].
  - rewrite NoDup_cons. intros [Hz Hnd]. case_decide as Hzx.
    + subst z. rewrite elem_of_cons. split.
      * intros Hy. split; [by intros -> | by right].
      * intros [Hne [-> | Hy]]; done.
    + rewrite !elem_of_cons, IH by done. split.
      * intros [-> | [Hne Hy]]; [split; [congruence | by left] | split; [done | by right]].
      * intros [Hne [-> | Hy]]; [by left | right; done].
Qed.

Lemma NoDup_removeFirst x l : NoDup l → NoDup (removeFirst x l).
Proof.
  induction l as [| z l IH]; simpl; [done |].
  rewrite NoDup_cons. intros [Hz Hnd]. case_decide; [done |].
  apply NoDup_cons. split; [| by apply IH].
  intros Hin. by apply Hz, (removeFirst_subseteq x).
Qed.

Lemma delete_alter {V} (f : V → V) k (m : list (string * V)) :
  JsMap.delete k (JsMap.alter f k m) = JsMap.delete k m.
Proof.
  induction m as [| [k0 v0] m IH]; simpl; [done |].
  case_decide; simpl; [by rewrite decide_True | rewrite decide_False by done].
  by rewrite IH.
Qed.

Lemma reactionsAdd_get userId emoji r e :
  JsMap.get e (reactionsAdd userId emoji r)
  = if decide (e = emoji) then Some (JsSet.add userId (reactedWith r emoji))
    else JsMap.get e r.
Proof.
  unfold reactionsAdd, reactedWith, JsSet.add.
  destruct (JsMap.get emoji r) as [users |] eqn:Hget; case_decide as He; subst.
  - by rewrite get_alter_eq, Hget.
  - by rewrite get_alter_ne by done.
  - by rewrite get_alter_eq, get_set_eq.
  - by rewrite get_alter_ne, get_set_ne by done.
Qed.

Lemma reactionsRemove_get userId emoji r e :
  JsMap.wf r →
  JsMap.get e (reactionsRemove userId emoji r)
  = if decide (e = emoji) then
      match JsMap.get emoji r with
      | Some users =>
          if decide (userId ∈ users) then
            if decide (removeFirst userId users = []) then None
            else Some (removeFirst userId users)
          else Some users
      | None => None
      end
    else JsMap.get e r.
Proof.
  intros Hwf. unfold reactionsRemove.
  destruct (JsMap.get emoji r) as [users |] eqn:Hget.
  2: { case_decide; by subst. }
  destruct (decide (userId ∈ users)) as [Hin | Hin].
  2: { case_decide; by subst. }
  destruct (decide (length (removeFirst userId users) = 0%nat)) as [Hlen | Hlen].
  - pose proof (nil_length_inv _ Hlen) as Hnil. rewrite (decide_True _ _ Hnil).
    case_decide; subst; [by apply get_delete_eq | by apply get_delete_ne].
  - assert (removeFirst userId users ≠ []) as Hnil by (by intros Hnil; rewrite Hnil in Hlen).
    rewrite (decide_False _ _ Hnil).
    case_decide; subst; [by rewrite get_alter_eq, Hget | by apply get_alter_ne].
Qed.

Lemma reactionsAdd_wf userId emoji r : JsMap.wf r → JsMap.wf (reactionsAdd userId emoji r).
Proof.
  intros Hwf. unfold reactionsAdd. apply wf_alter.
  destruct (JsMap.get emoji r); [done | by apply wf_set].
Qed.

Lemma reactionsRemove_wf userId emoji r :
  JsMap.wf r → JsMap.wf (reactionsRemove userId emoji r).
Proof.
  intros Hwf. unfold reactionsRemove.
  destruct (JsMap.get emoji r); [| done].
  repeat case_decide; [by apply wf_delete | by apply wf_alter | done].
Qed.

Lemma reactionsAdd_tidy userId emoji r : tidy r → tidy (reactionsAdd userId emoji r).
Proof.
  intros [Hwf Hl]. split; [by apply reactionsAdd_wf |].
  intros e users. rewrite reactionsAdd_get. case_decide as He; [| apply Hl].
  intros [= <-]. split.
  - intros Hnil. assert (userId ∈ JsSet.add userId (reactedWith r emoji)) as Hin
      by (apply elem_of_add; by left).
    rewrite Hnil in Hin. by apply elem_of_nil in Hin.
  - apply NoDup_add. unfold reactedWith.
    destruct (JsMap.get emoji r) as [us |] eqn:Hget; [by apply (Hl emoji) | apply NoDup_nil_2].
Qed.

Lemma reactionsRemove_tidy userId emoji r : tidy r → tidy (reactionsRemove userId emoji r).
Proof.
  intros [Hwf Hl]. split; [by apply reactionsRemove_wf |].
  intros e users. rewrite reactionsRemove_get by done. case_decide as He; [| apply Hl].
  destruct (JsMap.get emoji r) as [us |] eqn:Hget; [| done].
  destruct (Hl _ _ Hget) as [Hne Hnd].
  repeat case_decide; [done | | by intros [= <-]].
  intros [= <-]. split; [done | by apply NoDup_removeFirst].
Qed.

Lemma reactionsAdd_elem userId emoji r e u :
  u ∈ reactedWith (reactionsAdd userId emoji r) e
  ↔ (e = emoji ∧ u = userId) ∨ u ∈ reactedWith r e.
Proof.
  unfold reactedWith at 1. rewrite reactionsAdd_get. case_decide as He.
  - subst. simpl. rewrite elem_of_add. unfold reactedWith. tauto.
  - fold (reactedWith r e). unfold reactedWith. tauto.
Qed.

Lemma reactionsRemove_elem userId emoji r e u :
  tidy r →
  u ∈ reactedWith (reactionsRemove userId emoji r) e
  ↔ u ∈ reactedWith r e ∧ ¬ (e = emoji ∧ u = userId).
Proof.
  intros [Hwf Hl]. unfold reactedWith. rewrite reactionsRemove_get by done.
  case_decide as He; [subst | tauto].
  destruct (JsMap.get emoji r) as [us |] eqn:Hget; simpl.
  2: { split; [by intros ?%elem_of_nil | by intros [?%elem_of_nil _]]. }
  destruct (Hl _ _ Hget) as [Hne Hnd].
  pose proof (elem_of_removeFirst userId us u Hnd) as Hrem.
  destruct (decide (userId ∈ us)) as [Hin | Hin].
  - destruct (decide (removeFirst userId us = [])) as [Hnil | Hnil]; simpl.
    + rewrite Hnil in Hrem. split; [by intros ?%elem_of_nil |].
      intros [Hu Hnot]. apply Hrem. split; [| done]. intros ->. by apply Hnot.
    + rewrite Hrem. split; [intros [Hu ?]; split; [done | by intros [_ ?]] |].
      intros [? Hnot]. split; [| done]. intros ->. by apply Hnot.
  - simpl. split; [| by intros [? _]]. intros Hu. split; [done |].
    intros [_ ->]. done.
Qed.

Lemma reactionsAdd_idemp userId emoji r :
  reactionsAdd userId emoji (reactionsAdd userId emoji r) = reactionsAdd userId emoji r.
Proof.
  unfold reactionsAdd at 1.
  rewrite reactionsAdd_get, decide_True by done.
  apply alter_id. intros users. rewrite reactionsAdd_get, decide_True by done.
  intros [= <-]. apply decide_True. apply elem_of_add. by left.
Qed.

Lemma reactionsRemove_add userId emoji r :
  (∀ users, JsMap.get emoji r = Some users → users ≠ []) →
  userId ∉ reactedWith r emoji →
  reactionsRemove userId emoji (reactionsAdd userId emoji r) = r.
Proof.
  unfold reactedWith. intros Hne Hnot. unfold reactionsRemove.
  rewrite reactionsAdd_get, decide_True by done.
  unfold JsSet.add, reactedWith, reactionsAdd.
  destruct (JsMap.get emoji r) as [users |] eqn:Hget; simpl in *.
  - destruct (decide (userId ∈ users)) as [? | _]; [done |].
    rewrite decide_True by (apply elem_of_app; right; apply list_elem_of_here).
    rewrite (removeFirst_snoc _ _ Hnot).
    destruct (decide (length users = 0%nat)) as [Hlen%nil_length_inv | Hlen].
    { by destruct (Hne users). }
    rewrite alter_compose. apply alter_id. intros v. rewrite Hget. by intros [= <-].
  - destruct (decide (userId ∈ [])) as [Hin | _]; [by apply elem_of_nil in Hin |].
    simpl. rewrite decide_True by apply list_elem_of_here.
    destruct (decide (userId = userId)) as [_ | ?]; [| done]. simpl.
    rewrite delete_alter. by apply JsMapMore.delete_set_absent.
Qed.

End ReactionFacts.

Module StoreFacts.
Import MessageStore StoreInv IndexFacts ReactionInv StoreRun EditFacts DeleteFacts
  ReactionFacts HistoryFacts.

Lemma with_reactions_same f m :
  f (Message.reactions m) = Message.reactions m → Message.with_reactions f m = m.
Proof. destruct m. unfold Message.with_reactions. simpl. by intros ->. Qed.

Lemma writeMessage_undo (f g : Message.t → Message.t) st messageId m :
  indexConsistent st →
  messageIndex st !! messageId = Some m →
  Message.id (f m) = Message.id m →
  Message.roomId (f m) = Message.roomId m →
  g (f m) = m →
  writeMessage g messageId (f m) (writeMessage f messageId m st) = st.
Proof.
  intros (I1 & I2 & I3) Hm Hfid Hfroom Hgf. destruct st as [msgs idx]. simpl in *.
  destruct (I1 _ _ Hm) as [Hid _].
  unfold writeMessage. simpl. rewrite Hfroom. f_equal.
  - rewrite alter_alter_eq. apply fin_maps.alter_id. intros ms Hms. simpl.
    rewrite <- list_fmap_compose. rewrite <- (list_fmap_id ms) at 2.
    apply list_fmap_ext. intros i x Hx%list_elem_of_lookup_2. simpl.
    destruct (I2 _ _ _ Hms Hx) as [Hidx _].
    destruct (decide (Message.id x = messageId)) as [Hxid | Hxid].
    + assert (x = m) as -> by congruence.
      rewrite decide_True by congruence. done.
    + by rewrite decide_False.
  - rewrite alter_alter_eq. apply fin_maps.alter_id. intros x Hx. simpl.
    by assert (x = m) as -> by congruence.
Qed.

Lemma writeMessage_twice (f : Message.t → Message.t) st messageId m :
  indexConsistent st →
  messageIndex st !! messageId = Some m →
  Message.id (f m) = Message.id m →
  Message.roomId (f m) = Message.roomId m →
  f (f m) = f m →
  writeMessage f messageId (f m) (writeMessage f messageId m st)
  = writeMessage f messageId m st.
Proof.
  intros (I1 & I2 & I3) Hm Hfid Hfroom Hff. destruct st as [msgs idx]. simpl in *.
  destruct (I1 _ _ Hm) as [Hid _].
  unfold writeMessage. simpl. rewrite Hfroom. f_equal.
  - rewrite alter_alter_eq. apply fin_maps.alter_ext. intros ms Hms. simpl.
    rewrite <- list_fmap_compose.
    apply list_fmap_ext. intros i x Hx%list_elem_of_lookup_2. simpl.
    destruct (I2 _ _ _ Hms Hx) as [Hidx _].
    destruct (decide (Message.id x = messageId)) as [Hxid | Hxid].
    + assert (x = m) as -> by congruence.
      rewrite decide_True by congruence. done.
    + by rewrite decide_False.
  - rewrite alter_alter_eq. apply fin_maps.alter_ext. intros x Hx. simpl.
    by assert (x = m) as -> by congruence.
Qed.

Lemma reactionsOf_write f st messageId m :
  messageIndex st !! messageId = Some m →
  reactionsOf (writeMessage (Message.with_reactions f) messageId m st) messageId
  = f (Message.reactions m).
Proof.
  intros Hm. unfold reactionsOf. rewrite writeMessage_getMessage, decide_True by done.
  unfold getMessage. by rewrite Hm.
Qed.

Lemma addReaction_consistent st messageId userId emoji :
  indexConsistent st →
  indexConsistent (addReaction st messageId userId emoji).2.
Proof.
  intros Hc. unfold addReaction.
  destruct (messageIndex st !! messageId) as [m |] eqn:Hm; [| done].
  by apply writeMessage_consistent.
Qed.

(** Property X12 (adding a reaction).  [addReaction] fails only for an
    unknown message, and then changes nothing.  For an indexed message it
    lists the user under the emoji and changes no other listing, keeps the
    reactions tidy, leaves the other fields of the message and the other
    messages alone, keeps the store consistent, and a second identical
    call changes nothing more. *)
Theorem addReaction_outcome (st : t) (messageId userId emoji : string) :
  indexConsistent st →
  let res := addReaction st messageId userId emoji in
  (messageIndex st !! messageId = None → res = (Result.fail "Message not found", st))
  ∧ (∀ m, messageIndex st !! messageId = Some m →
          res.1 = Result.ok
          ∧ getMessage res.2 messageId
            = Some (Message.with_reactions (λ _, reactionsOf res.2 messageId) m)
          ∧ (∀ e u, u ∈ reactedWith (reactionsOf res.2 messageId) e
                    ↔ (e = emoji ∧ u = userId) ∨ u ∈ reactedWith (Message.reactions m) e)
          ∧ (tidy (Message.reactions m) → tidy (reactionsOf res.2 messageId))
          ∧ (∀ k, k ≠ messageId → getMessage res.2 k = getMessage st k)
          ∧ (addReaction res.2 messageId userId emoji).2 = res.2
          ∧ indexConsistent res.2).
Proof.
  intros Hc. cbv zeta. split; [by unfold addReaction; intros -> |].
  intros m Hm.
  set (f := Message.with_reactions (reactionsAdd userId emoji)).
  assert (addReaction st messageId userId emoji = (Result.ok, writeMessage f messageId m st))
    as -> by (by unfold addReaction; rewrite Hm).
  cbn [fst snd].
  assert (getMessage (writeMessage f messageId m st) messageId = Some (f m)) as Hget.
  { rewrite writeMessage_getMessage, decide_True by done. unfold getMessage. by rewrite Hm. }
  assert (reactionsOf (writeMessage f messageId m st) messageId
          = reactionsAdd userId emoji (Message.reactions m)) as ->
    by (by apply reactionsOf_write).
  split; [done |]. split; [exact Hget |].
  split; [intros e u; apply reactionsAdd_elem |].
  split; [apply reactionsAdd_tidy |].
  split; [by intros k Hk; rewrite writeMessage_getMessage, decide_False |].
  split; [| by apply writeMessage_consistent].
  unfold addReaction. unfold getMessage in Hget. rewrite Hget. cbn [snd]. fold f.
  apply writeMessage_twice; try done.
  unfold f, Message.with_reactions. simpl. by rewrite reactionsAdd_idemp.
Qed.

Lemma addReaction_outcome_witness :
  let st := (addMessage new 1 "m0" "general" "u1" "hello" "text" None).2 in
  let st1 := (addReaction st "m0" "u2" "+1").2 in
  reactionsOf st1 "m0" = [("+1", ["u2"])]%string
  ∧ (addReaction st1 "m0" "u2" "+1").2 = st1.
Proof.
  cbv zeta.
  set (st := (addMessage new 1 "m0" "general" "u1" "hello" "text" None).2).
  assert (indexConsistent st) as Hc.
  { apply addMessage_consistent; [apply indexConsistent_new | by vm_compute]. }
  destruct (addReaction_outcome st "m0" "u2" "+1" Hc) as [_ Hsome].
  destruct (Hsome (Message.mk "m0" "general" "u1" "hello" "text" 1 None [] None))
    as (_ & _ & _ & _ & _ & Hidem & _); [by vm_compute |].
  split; [by vm_compute | exact Hidem].
Defined.

(** Property X13 (removing a reaction).  [removeReaction] fails only for
    an unknown message, and then changes nothing.  For an indexed message
    with tidy reactions it takes the user off the emoji and changes no
    other listing, never leaves an emoji with an empty array, leaves the
    other fields of the message and the other messages alone and keeps the
    store consistent. *)
Theorem removeReaction_outcome (st : t) (messageId userId emoji : string) :
  indexConsistent st →
  let res := removeReaction st messageId userId emoji in
  (messageIndex st !! messageId = None → res = (Result.fail "Message not found", st))
  ∧ (∀ m, messageIndex st !! messageId = Some m →
          tidy (Message.reactions m) →
          res.1 = Result.ok
          ∧ getMessage res.2 messageId
            = Some (Message.with_reactions (λ _, reactionsOf res.2 messageId) m)
          ∧ (∀ e u, u ∈ reactedWith (reactionsOf res.2 messageId) e
                    ↔ u ∈ reactedWith (Message.reactions m) e
                      ∧ ¬ (e = emoji ∧ u = userId))
          ∧ tidy (reactionsOf res.2 messageId)
          ∧ (∀ k, k ≠ messageId → getMessage res.2 k = getMessage st k)
          ∧ indexConsistent res.2).
Proof.
  intros Hc. cbv zeta. split; [by unfold removeReaction; intros -> |].
  intros m Hm Htidy.
  set (f := Message.with_reactions (reactionsRemove userId emoji)).
  assert (removeReaction st messageId userId emoji
          = (Result.ok, writeMessage f messageId m st))
    as -> by (by unfold removeReaction; rewrite Hm).
  cbn [fst snd].
  assert (getMessage (writeMessage f messageId m st) messageId = Some (f m)) as Hget.
  { rewrite writeMessage_getMessage, decide_True by done. unfold getMessage. by rewrite Hm. }
  assert (reactionsOf (writeMessage f messageId m st) messageId
          = reactionsRemove userId emoji (Message.reactions m)) as ->
    by (by apply reactionsOf_write).
  split; [done |]. split; [exact Hget |].
  split; [by intros e u; apply reactionsRemove_elem |].
  split; [by apply reactionsRemove_tidy |].
  split; [by intros k Hk; rewrite writeMessage_getMessage, decide_False |].
  by apply writeMessage_consistent.
Qed.

Lemma removeReaction_outcome_witness :
  let st := (addReaction (addReaction
               (addMessage new 1 "m0" "general" "u1" "hello" "text" None).2
               "m0" "u2" "+1").2 "m0" "u3" "+1").2 in
  reactionsOf st "m0" = [("+1", ["u2"; "u3"])]%string
  ∧ (∀ u, u ∈ reactedWith (reactionsOf (removeReaction st "m0" "u2" "+1").2 "m0") "+1"
          ↔ u = "u3"%string).
Proof.
  cbv zeta.
  set (st0 := (addMessage new 1 "m0" "general" "u1" "hello" "text" None).2).
  set (m0 := Message.mk "m0" "general" "u1" "hello" "text" 1 None [] None).
  assert (indexConsistent st0) as Hc0.
  { apply addMessage_consistent; [apply indexConsistent_new | by vm_compute]. }
  assert (indexConsistent (addReaction st0 "m0" "u2" "+1").2) as Hc1.
  { by apply addReaction_consistent. }
  set (st1 := (addReaction st0 "m0" "u2" "+1").2) in *.
  assert (indexConsistent (addReaction st1 "m0" "u3" "+1").2) as Hc2.
  { by apply addReaction_consistent. }
  set (st := (addReaction st1 "m0" "u3" "+1").2) in *.
  split; [by vm_compute |].
  destruct (removeReaction_outcome st "m0" "u2" "+1" Hc2) as [_ Hsome].
  destruct (Hsome (Message.with_reactions (λ _, [("+1", ["u2"; "u3"])]%string) m0))
    as (_ & _ & Helem & _); [by vm_compute | |].
  { split; [apply (bool_decide_unpack _); by vm_compute |].
    intros e us. simpl. case_decide; [| done]. intros [= <-].
    split; [done |]. apply (bool_decide_unpack _). by vm_compute. }
  intros u. rewrite Helem. simpl.
  assert (reactedWith [("+1", ["u2"; "u3"])]%string "+1" = ["u2"; "u3"]%string) as ->
    by (by vm_compute).
  rewrite !elem_of_cons, elem_of_nil. split.
  - intros [[-> | [-> | []]] Hnot]; [| done]. exfalso. by apply Hnot.
  - intros ->. split; [by right; left | by intros [_ ?]].
Defined.

(** Property X14 (reaction round trip).  In a consistent store whose
    message has no emoji with an empty array, adding a reaction that the
    user had not given and removing it again gives back the store: a new
    emoji key is deleted again, an emoji that others used keeps their
    users in their order. *)
Theorem reaction_round_trip (st : t) (messageId userId emoji : string) (m : Message.t) :
  indexConsistent st →
  messageIndex st !! messageId = Some m →
  (∀ users, JsMap.get emoji (Message.reactions m) = Some users → users ≠ []) →
  userId ∉ reactedWith (Message.reactions m) emoji →
  (removeReaction (addReaction st messageId userId emoji).2 messageId userId emoji).2 = st.
Proof.
  intros Hc Hm Hne Hnot.
  set (f := Message.with_reactions (reactionsAdd userId emoji)).
  set (g := Message.with_reactions (reactionsRemove userId emoji)).
  assert (addReaction st messageId userId emoji = (Result.ok, writeMessage f messageId m st))
    as -> by (by unfold addReaction; rewrite Hm).
  cbn [snd]. unfold removeReaction.
  assert (messageIndex (writeMessage f messageId m st) !! messageId = Some (f m)) as ->.
  { pose proof (writeMessage_getMessage f st messageId m messageId) as H.
    rewrite decide_True in H by done. unfold getMessage in H. by rewrite H, Hm. }
  cbn [snd]. fold g. apply writeMessage_undo; try done.
  unfold g, f, Message.with_reactions. simpl. rewrite reactionsRemove_add by done.
  by destruct m.
Qed.

Lemma reaction_round_trip_witness :
  let st := (addReaction (addMessage new 1 "m0" "general" "u1" "hello" "text" None).2
               "m0" "u2" "+1").2 in
  (removeReaction (addReaction st "m0" "u3" "+1").2 "m0" "u3" "+1").2 = st
  ∧ (removeReaction (addReaction st "m0" "u3" "ok").2 "m0" "u3" "ok").2 = st.
Proof.
  cbv zeta.
  set (st0 := (addMessage new 1 "m0" "general" "u1" "hello" "text" None).2).
  set (m0 := Message.mk "m0" "general" "u1" "hello" "text" 1 None [] None).
  assert (indexConsistent st0) as Hc0.
  { apply addMessage_consistent; [apply indexConsistent_new | by vm_compute]. }
  assert (indexConsistent (addReaction st0 "m0" "u2" "+1").2) as Hc1.
  { by apply addReaction_consistent. }
  set (m1 := Message.with_reactions (λ _, [("+1", ["u2"])]%string) m0).
  split.
  - apply (reaction_round_trip _ "m0" "u3" "+1" m1 Hc1); [by vm_compute | |].
    + intros users Hget. vm_compute in Hget. by injection Hget as <-.
    + apply (bool_decide_unpack _). by vm_compute.
  - apply (reaction_round_trip _ "m0" "u3" "ok" m1 Hc1); [by vm_compute | |].
    + intros users Hget. by vm_compute in Hget.
    + apply (bool_decide_unpack _). by vm_compute.
Defined.

End StoreFacts.

(** ** chat/messages.ts: the states of a message store *)

Module StoreRunFacts.
Import MessageStore StoreInv IndexFacts ReactionInv StoreRun EditFacts DeleteFacts
  ReactionFacts HistoryFacts StoreFacts.

Lemma tidy_nil : tidy [].
Proof. split; [apply NoDup_nil_2 | done]. Qed.

Lemma writeMessage_history_length f st messageId m r :
  length (history (writeMessage f messageId m st) r) = length (history st r).
Proof.
  unfold history. simpl. destruct (decide (Message.roomId m = r)) as [<- | Hr].
  - rewrite lookup_alter_eq. destruct (messages st !! Message.roomId m); [| done].
    simpl. by rewrite length_fmap.
  - by rewrite lookup_alter_ne.
Qed.

Lemma writeMessage_tidy f st messageId m :
  messageIndex st !! messageId = Some m →
  (tidy (Message.reactions m) → tidy (Message.reactions (f m))) →
  reactionsTidy st → reactionsTidy (writeMessage f messageId m st).
Proof.
  intros Hm Hf Ht k x. simpl. destruct (decide (messageId = k)) as [<- | Hk].
  - rewrite lookup_alter_eq, Hm. intros [= <-]. apply Hf. by eapply Ht.
  - rewrite lookup_alter_ne by done. apply Ht.
Qed.

Lemma writeMessage_bounded f st messageId m :
  bounded st → bounded (writeMessage f messageId m st).
Proof. intros Hb r. rewrite writeMessage_history_length. apply Hb. Qed.

Lemma new_storeInvariant : storeInvariant new.
Proof.
  split; [apply indexConsistent_new |]. split.
  - intros k m. unfold new. simpl. by rewrite lookup_empty.
  - intros r. rewrite history_new. simpl. lia.
Qed.

Lemma addMessage_storeInvariant st now uuid roomId userId content type replyTo :
  messageIndex st !! uuid = None →
  storeInvariant st →
  storeInvariant (addMessage st now uuid roomId userId content type replyTo).2.
Proof.
  intros Hfresh (Hc & Ht & Hb). split; [by apply addMessage_consistent |]. split.
  - intros k m Hm.
    pose proof (addMessage_getMessage st now uuid roomId userId content type replyTo k)
      as Hget. cbv zeta in Hget. unfold getMessage in Hget. rewrite Hm in Hget.
    case_decide; [done |]. case_decide.
    + injection Hget as ->. apply tidy_nil.
    + by eapply Ht.
  - intros r. rewrite addMessage_history. case_decide; [| apply Hb].
    apply slice_last_length.
Qed.

Lemma editMessage_storeInvariant st now messageId userId newContent :
  storeInvariant st → storeInvariant (editMessage st now messageId userId newContent).2.
Proof.
  intros (Hc & Ht & Hb). unfold editMessage.
  destruct (messageIndex st !! messageId) as [m |] eqn:Hm; [| done].
  destruct (negb (String.eqb (Message.userId m) userId)); [done |].
  destruct (negb (String.eqb (Message.type m) "text")); [done |].
  case_bool_decide; [done |]. cbn [snd].
  split; [by apply writeMessage_consistent |].
  split; [by apply writeMessage_tidy | by apply writeMessage_bounded].
Qed.

Lemma addReaction_storeInvariant st messageId userId emoji :
  storeInvariant st → storeInvariant (addReaction st messageId userId emoji).2.
Proof.
  intros (Hc & Ht & Hb). unfold addReaction.
  destruct (messageIndex st !! messageId) as [m |] eqn:Hm; [| done]. cbn [snd].
  split; [by apply writeMessage_consistent |].
  split; [| by apply writeMessage_bounded].
  apply writeMessage_tidy; [done | apply reactionsAdd_tidy | done].
Qed.

Lemma removeReaction_storeInvariant st messageId userId emoji :
  storeInvariant st → storeInvariant (removeReaction st messageId userId emoji).2.
Proof.
  intros (Hc & Ht & Hb). unfold removeReaction.
  destruct (messageIndex st !! messageId) as [m |] eqn:Hm; [| done]. cbn [snd].
  split; [by apply writeMessage_consistent |].
  split; [| by apply writeMessage_bounded].
  apply writeMessage_tidy; [done | apply reactionsRemove_tidy | done].
Qed.

Lemma deleteMessage_storeInvariant st messageId userId isModeratorAction :
  storeInvariant st →
  storeInvariant (deleteMessage st messageId userId isModeratorAction).2.
Proof.
  intros (Hc & Ht & Hb). split; [by apply deleteMessage_consistent |].
  unfold deleteMessage.
  destruct (messageIndex st !! messageId) as [m |] eqn:Hm; [| done].
  destruct (negb isModeratorAction && negb (String.eqb (Message.userId m) userId));
    [done |].
  cbn [snd]. split.
  - intros k x. simpl. intros [_ Hx]%lookup_delete_Some. by eapply Ht.
  - intros r. unfold history. simpl.
    destruct (messages st !! Message.roomId m) as [ms |] eqn:Hms; [| apply Hb].
    destruct (list_find (λ x, Message.id x = messageId) ms) as [[i x] |]; [| apply Hb].
    destruct (decide (Message.roomId m = r)) as [<- | Hr].
    + rewrite lookup_insert_eq. simpl.
      pose proof (Hb (Message.roomId m)) as Hlen. unfold history in Hlen.
      rewrite Hms in Hlen. simpl in Hlen.
      pose proof (sublist_length _ _ (sublist_delete ms i)). lia.
    + rewrite lookup_insert_ne by done. apply Hb.
Qed.

Lemma reached_storeInvariant st : reached st → storeInvariant st.
Proof.
  induction 1 as [| st now uuid roomId userId content type replyTo _ IH Hfresh
                  | st now messageId userId newContent _ IH
                  | st messageId userId emoji _ IH
                  | st messageId userId emoji _ IH
                  | st messageId userId isModeratorAction _ IH].
  - apply new_storeInvariant.
  - by apply addMessage_storeInvariant.
  - by apply editMessage_storeInvariant.
  - by apply addReaction_storeInvariant.
  - by apply removeReaction_storeInvariant.
  - by apply deleteMessage_storeInvariant.
Qed.

(** Property X15 (the states a message store reaches).  Every store
    built from the empty one by [addMessage] with unused ids,
    [editMessage], [addReaction], [removeReaction] and [deleteMessage],
    whether the calls succeed or not, has an index that agrees with the
    histories, reactions with unique emoji keys, no empty arrays and no
    user twice under an emoji, and no history longer than 1000
    messages. *)
Theorem store_invariant (st : t) :
  reached st →
  indexConsistent st
  ∧ (∀ messageId m,
       getMessage st messageId = Some m →
       JsMap.wf (Message.reactions m)
       ∧ ∀ emoji users,
           JsMap.get emoji (Message.reactions m) = Some users →
           users ≠ [] ∧ NoDup users)
  ∧ ∀ roomId, (length (history st roomId) ≤ 1000)%nat.
Proof.
  intros Hrun. destruct (reached_storeInvariant st Hrun) as (Hc & Ht & Hb).
  split; [exact Hc |]. split; [| exact Hb].
  intros messageId m Hm. exact (Ht messageId m Hm).
Qed.

Lemma store_invariant_witness :
  (length
     (history
        (removeReaction
           (addReaction (addMessage new 1 "m0" "general" "u1" "hello" "text" None).2
              "m0" "u2" "+1").2 "m0" "u2" "+1").2 "general") ≤ 1000)%nat.
Proof.
  destruct (store_invariant
    (removeReaction
       (addReaction (addMessage new 1 "m0" "general" "u1" "hello" "text" None).2
          "m0" "u2" "+1").2 "m0" "u2" "+1").2) as (_ & _ & Hb); [| apply Hb].
  apply run_removeReaction, run_addReaction, run_addMessage; [apply run_new |].
  by vm_compute.
Defined.

Lemma sliceFromEnd_drop {A} (limit : nat) (l : list A) :
  ∃ k, sliceFromEnd limit l = drop k l.
Proof.
  destruct limit as [| n]; [by exists 0%nat |]. by eexists.
Qed.

Lemma sliceFromEnd_length {A} (limit : nat) (l : list A) :
  (0 < limit)%nat → (length (sliceFromEnd limit l) ≤ limit)%nat.
Proof.
  destruct limit as [| n]; [lia |]. intros _. apply slice_last_length.
Qed.

(** Property X16 (paging through a history).  [getMessages] returns the
    last [limit] messages of the history when the cursor [before] is
    absent, empty, not the id of a message of the room, or the id of the
    oldest message; when the cursor is first met at a later position it
    returns the last [limit] messages before that position.  A positive
    limit bounds the length of the result, the limit 0 gives all the
    candidates, and the result is always a run of consecutive messages of
    the history. *)
Theorem getMessages_cursor (st : t) (roomId : string) (limit : nat)
    (before : option string) :
  let h := history st roomId in
  let res := getMessages st roomId limit before in
  (truthy before = false → res = sliceFromEnd limit h)
  ∧ (∀ c, before = Some c → (∀ m, m ∈ h → Message.id m ≠ c) →
          res = sliceFromEnd limit h)
  ∧ (∀ c m, before = Some c → head h = Some m → Message.id m = c →
            res = sliceFromEnd limit h)
  ∧ (∀ c i m, before = Some c → c ≠ ""%string → (0 < i)%nat →
              h !! i = Some m → Message.id m = c →
              (∀ j x, (j < i)%nat → h !! j = Some x → Message.id x ≠ c) →
              res = sliceFromEnd limit (take i h))
  ∧ ((0 < limit)%nat → (length res ≤ limit)%nat)
  ∧ (limit = 0%nat → truthy before = false → res = h)
  ∧ ∃ older newer, h = older ++ res ++ newer.
Proof.
  cbv zeta. unfold getMessages. fold (history st roomId).
  set (h := history st roomId).
  split; [by intros -> |].
  split.
  { intros c -> Hno. destruct (truthy (Some c)); [| done]. simpl.
    destruct (list_find (λ m, Message.id m = c) h) as [[i x] |] eqn:Hfind; [| done].
    apply list_find_Some in Hfind as (Hix & Hid & _).
    exfalso. eapply Hno; [by eapply list_elem_of_lookup_2 | done]. }
  split.
  { intros c m -> Hhead Hid. destruct (truthy (Some c)); [| done]. simpl.
    destruct (list_find (λ m, Message.id m = c) h) as [[i x] |] eqn:Hfind; [| done].
    apply list_find_Some in Hfind as (Hix & Hidx & Hfirst).
    destruct i as [| i]; [done |]. exfalso.
    apply (Hfirst 0%nat m); [| lia | done].
    destruct h; [done |]. simpl in *. congruence. }
  split.
  { intros c i m -> Hc Hi Him Hid Hfirst.
    assert (truthy (Some c) = true) as ->.
    { simpl. apply negb_true_iff. by apply String.eqb_neq. }
    simpl.
    assert (list_find (λ m, Message.id m = c) h = Some (i, m)) as ->.
    { apply list_find_Some. split; [done |]. split; [done |]. intros j x Hj Hlt.
      by eapply Hfirst. }
    by rewrite decide_True. }
  set (messages1 :=
         if truthy before
         then match list_find (λ m, Message.id m = default ""%string before) h with
              | Some (beforeIndex, _) =>
                  if decide (0 < beforeIndex)%nat then take beforeIndex h else h
              | None => h
              end
         else h).
  split; [apply sliceFromEnd_length |].
  split; [by intros -> Ht; unfold messages1; rewrite Ht |].
  assert (∃ i, messages1 = take i h) as [i Hi].
  { unfold messages1. destruct (truthy before); [| by exists (length h); rewrite take_ge].
    destruct (list_find _ h) as [[i x] |]; [| by exists (length h); rewrite take_ge].
    case_decide; [by exists i | by exists (length h); rewrite take_ge]. }
  destruct (sliceFromEnd_drop limit messages1) as [k ->].
  exists (take k messages1), (drop i h).
  rewrite app_assoc, take_drop, Hi. by rewrite take_drop.
Qed.

Lemma getMessages_cursor_witness :
  let st := (addMessage (addMessage (addMessage new 1 "m0" "general" "u1" "a" "text" None).2
               2 "m1" "general" "u2" "b" "text" None).2
               3 "m2" "general" "u1" "c" "text" None).2 in
  Message.id <$> getMessages st "general" 1 (Some "m2"%string) = ["m1"%string]
  ∧ Message.id <$> getMessages st "general" 1 (Some "m0"%string) = ["m2"%string]
  ∧ Message.id <$> getMessages st "general" 1 (Some "zz"%string) = ["m2"%string].
Proof.
  cbv zeta.
  set (st := (addMessage (addMessage (addMessage new 1 "m0" "general" "u1" "a" "text" None).2
               2 "m1" "general" "u2" "b" "text" None).2
               3 "m2" "general" "u1" "c" "text" None).2).
  pose proof (getMessages_cursor st "general" 1 (Some "m2"%string)) as (_ & _ & _ & H2 & _).
  pose proof (getMessages_cursor st "general" 1 (Some "m0"%string)) as (_ & _ & H0 & _).
  pose proof (getMessages_cursor st "general" 1 (Some "zz"%string)) as (_ & Hz & _).
  split; [| split].
  - rewrite (H2 "m2"%string 2%nat (Message.mk "m2" "general" "u1" "c" "text" 3 None [] None));
      [by vm_compute | done | done | lia | by vm_compute | done |].
    intros j x Hj Hx Hid.
    destruct j as [| [| j]]; [| | lia]; vm_compute in Hx; injection Hx as <-; done.
  - rewrite (H0 "m0"%string (Message.mk "m0" "general" "u1" "a" "text" 1 None [] None));
      [by vm_compute | done | by vm_compute | done].
  - rewrite (Hz "zz"%string); [by vm_compute | done |].
    intros m Hm Hid. assert (Message.id m ∈ Message.id <$> history st "general") as Hin
      by (apply list_elem_of_fmap; eauto).
    rewrite Hid in Hin. revert Hin. apply (bool_decide_unpack _). by vm_compute.
Defined.

End StoreRunFacts.

(** ** chat/messages.ts: searching and counting *)

Module QueryFacts.
Import MessageStore StoreInv MessageQuery StoreRunFacts.

Lemma prefix_app_iff sub s : String.prefix sub s = true ↔ ∃ b, s = (sub +:+ b)%string.
Proof.
  revert s. induction sub as [| c sub IH]; intros s.
  - split; [by exists s | by destruct s].
  - destruct s as [| d s]; simpl; [split; [done | by intros [? ?]] |].
    destruct (Ascii.ascii_dec c d) as [-> | Hne].
    + rewrite IH. split; [intros [b ->]; by exists b | intros [b [= ->]]; by exists b].
    + split; [done | intros [b [= ? ?]]; congruence].
Qed.

Lemma includes_spec s sub :
  includes s sub = true ↔ ∃ a b, s = (a +:+ sub +:+ b)%string.
Proof.
  induction s as [| c s IH]; cbn [includes].
  - rewrite orb_false_r, prefix_app_iff. split.
    + intros [b ->]. by exists ""%string, b.
    + intros ([| ? a] & b & Heq); [by exists b | done].
  - rewrite orb_true_iff, prefix_app_iff, IH. split.
    + intros [[b ->] | (a & b & ->)]; [by exists ""%string, b | by exists (String c a), b].
    + intros ([| d a] & b & Heq); [left; by exists b |].
      right. injection Heq as -> ->. by exists a, b.
Qed.

Lemma lowerChar_idemp c : JsString.lowerChar (JsString.lowerChar c) = JsString.lowerChar c.
Proof. destruct c as [[] [] [] [] [] [] [] []]; by vm_compute. Qed.

Lemma toLowerCase_idemp s :
  JsString.toLowerCase (JsString.toLowerCase s) = JsString.toLowerCase s.
Proof. induction s as [| c s IH]; simpl; [done |]. by rewrite lowerChar_idemp, IH. Qed.

Lemma sliceFromEnd_all {A} (limit : nat) (l : list A) :
  limit = 0%nat ∨ (length l ≤ limit)%nat → sliceFromEnd limit l = l.
Proof.
  destruct limit as [| n]; [done |]. intros [? | Hlen]; [done |].
  by apply HistoryFacts.slice_last_short.
Qed.

(** Property X17 (searching a history).  [searchMessages] returns
    messages of the room's history in their order; each is a text message
    whose content contains the query as a substring once both are put in
    lower case, so the letter case of the query does not matter.  A
    positive limit bounds the result, which then holds the latest matches;
    with the limit 0, or when the matches are no more than the limit, the
    result is exactly the matches. *)
Theorem searchMessages_spec (st : t) (roomId query : string) (limit : nat) :
  let res := searchMessages st roomId query limit in
  let found :=
    filter (λ msg, matches (JsString.toLowerCase query) msg = true)
      (history st roomId) in
  (∀ m, m ∈ res →
        m ∈ history st roomId
        ∧ Message.type m = "text"%string
        ∧ ∃ a b, JsString.toLowerCase (Message.content m)
                 = (a +:+ JsString.toLowerCase query +:+ b)%string)
  ∧ res `sublist_of` history st roomId
  ∧ (∃ older, found = older ++ res)
  ∧ ((0 < limit)%nat → (length res ≤ limit)%nat)
  ∧ (limit = 0%nat ∨ (length found ≤ limit)%nat → res = found)
  ∧ (∀ query', JsString.toLowerCase query' = JsString.toLowerCase query →
               searchMessages st roomId query' limit = res)
  ∧ searchMessages st roomId (JsString.toLowerCase query) limit = res.
Proof.
  cbv zeta. unfold searchMessages. fold (history st roomId).
  set (found := filter (λ msg, matches (JsString.toLowerCase query) msg = true)
                  (history st roomId)).
  destruct (sliceFromEnd_drop limit found) as [k Hk].
  split.
  { intros m. rewrite Hk. intros Hm%subseteq_drop.
    apply list_elem_of_filter in Hm as [Hmatch Hin]. split; [done |].
    unfold matches in Hmatch. apply andb_true_iff in Hmatch as [Ht Hi].
    split; [by apply String.eqb_eq | by apply includes_spec]. }
  split.
  { rewrite Hk. etrans; [apply sublist_drop | apply sublist_filter]. }
  split; [exists (take k found); by rewrite Hk, take_drop |].
  split; [apply sliceFromEnd_length |].
  split; [apply sliceFromEnd_all |].
  split; [by intros query' -> |].
  by rewrite toLowerCase_idemp.
Qed.

Lemma searchMessages_spec_witness :
  let st := (addMessage (addMessage (addMessage new 1 "m0" "general" "u1" "Hello all" "text" None).2
               2 "m1" "general" "u2" "bye" "text" None).2
               3 "m2" "general" "sys" "hello" "system" None).2 in
  Message.id <$> searchMessages st "general" "HELLO" 20 = ["m0"%string]
  ∧ searchMessages st "general" "hello" 20 = searchMessages st "general" "HELLO" 20.
Proof.
  cbv zeta.
  set (st := (addMessage (addMessage (addMessage new 1 "m0" "general" "u1" "Hello all" "text" None).2
               2 "m1" "general" "u2" "bye" "text" None).2
               3 "m2" "general" "sys" "hello" "system" None).2).
  destruct (searchMessages_spec st "general" "HELLO" 20) as (_ & _ & _ & _ & _ & Hcase & _).
  split; [by vm_compute |]. apply Hcase. by vm_compute.
Defined.

Lemma length_remove_dups_le {A} `{EqDecision A} (l : list A) :
  (length (remove_dups l) ≤ length l)%nat.
Proof.
  induction l as [| x l IH]; simpl; [lia |]. case_decide; simpl; lia.
Qed.

(** Property X18 (statistics of a room).  In the result of
    [getMessageStats] the number of messages of today and the number of
    active users never exceed the total, the number of active users is the
    number of distinct authors in the history, it is 0 exactly when the
    history is empty, and in every store built from the empty one the
    total is at most 1000. *)
Theorem getMessageStats_bounds (st : t) (today : Z) (roomId : string) :
  let s := getMessageStats st today roomId in
  totalMessages s = length (history st roomId)
  ∧ (todayMessages s ≤ totalMessages s)%nat
  ∧ (activeUsers s ≤ totalMessages s)%nat
  ∧ (activeUsers s = 0%nat ↔ totalMessages s = 0%nat)
  ∧ (∃ authors, NoDup authors
                ∧ length authors = activeUsers s
                ∧ ∀ u, u ∈ authors ↔ ∃ m, m ∈ history st roomId ∧ Message.userId m = u)
  ∧ ((∀ m, m ∈ history st roomId → today ≤ Message.timestamp m) →
     todayMessages s = totalMessages s)
  ∧ (StoreRun.reached st → (totalMessages s ≤ 1000)%nat).
Proof.
  cbv zeta. unfold getMessageStats. fold (history st roomId). simpl.
  set (h := history st roomId).
  split; [done |].
  split; [apply length_filter |].
  split; [etrans; [apply length_remove_dups_le | by rewrite length_fmap] |].
  split.
  { split.
    - intros Hz. apply nil_length_inv in Hz.
      destruct h as [| m h']; [done |]. exfalso.
      assert (Message.userId m ∈ remove_dups (Message.userId <$> m :: h')) as Hin
        by (apply elem_of_remove_dups, list_elem_of_fmap; exists m; split; [done | left]).
      rewrite Hz in Hin. by apply elem_of_nil in Hin.
    - intros Hz. apply nil_length_inv in Hz. by rewrite Hz. }
  split.
  { exists (remove_dups (Message.userId <$> h)).
    split; [apply NoDup_remove_dups |]. split; [done |].
    intros u. rewrite elem_of_remove_dups, list_elem_of_fmap.
    split; intros (m & ? & ?); by exists m. }
  split.
  { intros Hall. f_equal. by apply DeleteFacts.filter_true_on. }
  intros Hrun. destruct (reached_storeInvariant st Hrun) as (_ & _ & Hb). apply Hb.
Qed.

Lemma getMessageStats_bounds_witness :
  let st := (addMessage (addMessage (addMessage new 1 "m0" "general" "u1" "a" "text" None).2
               2 "m1" "general" "u2" "b" "text" None).2
               3 "m2" "general" "u1" "c" "text" None).2 in
  getMessageStats st 2 "general" = mkStats 3 2 2
  ∧ (totalMessages (getMessageStats st 2 "general") ≤ 1000)%nat.
Proof.
  cbv zeta. split; [by vm_compute |].
  apply getMessageStats_bounds.
  repeat (apply StoreRun.run_addMessage; [| by vm_compute]). apply StoreRun.run_new.
Defined.

End QueryFacts.

(** ** chat/messages.ts: the states of a room manager *)

Module RoomRunFacts.
Import RoomManager RoomRun JsSetFacts.

Lemma new_roomInvariant now : roomInvariant (new now).
Proof.
  split.
  - intros d Hd. unfold protectedRooms in Hd.
    apply elem_of_cons in Hd as [-> | Hd]; [by eexists |].
    apply list_elem_of_singleton in Hd as ->. by eexists.
  - intros roomId room. unfold new, createDefaultRooms. simpl.
    intros [[<- <-] | [_ [[<- <-] | [_ H]]%lookup_insert_Some]]%lookup_insert_Some.
    + repeat split; simpl; [apply list_elem_of_here | apply NoDup_nil_2 | apply NoDup_singleton].
    + repeat split; simpl; [apply list_elem_of_here | apply NoDup_nil_2 | apply NoDup_singleton].
    + by rewrite lookup_empty in H.
Qed.

Lemma alter_roomInvariant (f : Room.t → Room.t) rm roomId :
  (∀ room, roomOk roomId room → roomOk roomId (f room)) →
  (∀ room, Room.createdBy (f room) = Room.createdBy room) →
  roomInvariant rm → roomInvariant (mk (alter f roomId (rooms rm))).
Proof.
  intros Hok Hcb [Hd Hr]. split; simpl.
  - intros d Hin. destruct (Hd d Hin) as (room & Hroom & Hsys).
    destruct (decide (roomId = d)) as [-> | Hne].
    + exists (f room). rewrite lookup_alter_eq, Hroom. by rewrite Hcb.
    + exists room. by rewrite lookup_alter_ne.
  - intros r room. destruct (decide (roomId = r)) as [-> | Hne].
    + rewrite lookup_alter_eq. destruct (rooms rm !! r) as [room0 |] eqn:Hroom0; [| done].
      intros [= <-]. by apply Hok, Hr.
    + rewrite lookup_alter_ne by done. apply Hr.
Qed.

Lemma createRoom_roomInvariant rm now uuid name description createdBy isPrivate :
  rooms rm !! uuid = None →
  roomInvariant rm →
  roomInvariant (createRoom rm now uuid name description createdBy isPrivate).2.
Proof.
  intros Hfresh [Hd Hr]. split; simpl.
  - intros d Hin. destruct (Hd d Hin) as (room & Hroom & Hsys).
    exists room. split; [| done]. rewrite lookup_insert_ne; [done |].
    intros <-. congruence.
  - intros r room [[<- <-] | [_ H]]%lookup_insert_Some; [| by apply Hr].
    repeat split; simpl; [apply list_elem_of_here | apply NoDup_nil_2 | apply NoDup_singleton].
Qed.

Lemma joinRoom_roomInvariant rm roomId userId :
  roomInvariant rm → roomInvariant (joinRoom rm roomId userId).2.
Proof.
  intros Hinv. unfold joinRoom. destruct (rooms rm !! roomId) as [room |]; [| done].
  destruct (match Room.maxUsers room with Some n => _ | None => _ end); [done |].
  apply alter_roomInvariant; [| done | done].
  intros r (? & ? & ? & ? & ?). repeat split; simpl; try done. by apply NoDup_add.
Qed.

Lemma leaveRoom_roomInvariant rm roomId userId :
  roomInvariant rm → roomInvariant (leaveRoom rm roomId userId).2.
Proof.
  intros Hinv. unfold leaveRoom. destruct (rooms rm !! roomId) as [room |]; [| done].
  apply alter_roomInvariant; [| done | done].
  intros r (? & ? & ? & ? & ?). repeat split; simpl; try done. by apply NoDup_delete.
Qed.

Lemma addModerator_roomInvariant rm roomId userId requesterId :
  roomInvariant rm → roomInvariant (addModerator rm roomId userId requesterId).2.
Proof.
  intros Hinv. unfold addModerator. destruct (rooms rm !! roomId) as [room |]; [| done].
  destruct (negb (isModerator rm roomId requesterId)
            && negb (String.eqb (Room.createdBy room) requesterId)); [done |].
  apply alter_roomInvariant; [| done | done].
  intros r (? & ? & ? & ? & ?). repeat split; simpl; try done.
  - apply elem_of_add. by right.
  - by apply NoDup_add.
Qed.

Lemma removeModerator_roomInvariant rm roomId userId requesterId :
  roomInvariant rm → roomInvariant (removeModerator rm roomId userId requesterId).2.
Proof.
  intros Hinv. unfold removeModerator.
  destruct (rooms rm !! roomId) as [room |] eqn:Hroom; [| done].
  destruct (negb (String.eqb (Room.createdBy room) requesterId)); [done |].
  destruct (String.eqb userId (Room.createdBy room)) eqn:Hu; [done |].
  apply String.eqb_neq in Hu. destruct Hinv as [Hd Hr]. split; simpl.
  - intros d Hin. destruct (Hd d Hin) as (room0 & Hroom0 & Hsys).
    destruct (decide (roomId = d)) as [-> | Hne].
    + eexists. rewrite lookup_alter_eq, Hroom0. done.
    + exists room0. by rewrite lookup_alter_ne.
  - intros r room1. destruct (decide (roomId = r)) as [-> | Hne].
    + rewrite lookup_alter_eq, Hroom. intros [= <-].
      destruct (Hr _ _ Hroom) as (? & ? & ? & ? & ?).
      repeat split; simpl; try done.
      * apply elem_of_delete. split; [congruence | done].
      * by apply NoDup_delete.
    + rewrite lookup_alter_ne by done. apply Hr.
Qed.

Lemma deleteRoom_roomInvariant rm roomId requesterId :
  roomInvariant rm → roomInvariant (deleteRoom rm roomId requesterId).2.
Proof.
  intros [Hd Hr]. unfold deleteRoom.
  destruct (rooms rm !! roomId) as [room |] eqn:Hroom; [| done].
  destruct (negb (String.eqb (Room.createdBy room) requesterId)); [done |].
  case_bool_decide as Hp; [done |]. split; simpl.
  - intros d Hin. destruct (Hd d Hin) as (room0 & Hroom0 & Hsys).
    exists room0. split; [| done]. rewrite lookup_delete_ne; [done |]. by intros ->.
  - intros r room1 [_ H]%lookup_delete_Some. by apply Hr.
Qed.

(** Property X19 (the states a room manager reaches).  In every state
    built from a new manager by [createRoom] with unused ids, [joinRoom],
    [leaveRoom], [addModerator], [removeModerator] and [deleteRoom], the
    rooms [general] and [random] exist and belong to [system], every room
    is stored under its own id, has no user limit, counts its creator
    among its moderators, and lists no user and no moderator twice. *)
Theorem room_invariant (rm : t) : roomsReached rm → roomInvariant rm.
Proof.
  induction 1 as [now
                 | rm now uuid name description createdBy isPrivate _ IH Hfresh
                 | rm roomId userId _ IH
                 | rm roomId userId _ IH
                 | rm roomId userId requesterId _ IH
                 | rm roomId userId requesterId _ IH
                 | rm roomId requesterId _ IH].
  - apply new_roomInvariant.
  - by apply createRoom_roomInvariant.
  - by apply joinRoom_roomInvariant.
  - by apply leaveRoom_roomInvariant.
  - by apply addModerator_roomInvariant.
  - by apply removeModerator_roomInvariant.
  - by apply deleteRoom_roomInvariant.
Qed.

Lemma withClub_reached : roomsReached DemoRooms.withClub.
Proof. apply rooms_createRoom; [apply rooms_new | by vm_compute]. Qed.

Lemma withClub_invariant : roomInvariant DemoRooms.withClub.
Proof.
  apply createRoom_roomInvariant; [by vm_compute | apply new_roomInvariant].
Qed.

Lemma room_invariant_witness :
  roomInvariant (removeModerator (deleteRoom DemoRooms.withClub "general" "system").2
                   "club" "u1" "u1").2.
Proof.
  apply room_invariant, rooms_removeModerator, rooms_deleteRoom, withClub_reached.
Defined.

Lemma with_users_same f room :
  f (Room.users room) = Room.users room → Room.with_users f room = room.
Proof. destruct room. unfold Room.with_users. simpl. by intros ->. Qed.

Lemma isUserInRoom_alter_users f rm roomId r u :
  isUserInRoom (mk (alter (Room.with_users f) roomId (rooms rm))) r u
  = match rooms rm !! r with
    | Some room =>
        bool_decide (u ∈ if decide (r = roomId) then f (Room.users room)
                         else Room.users room)
    | None => false
    end.
Proof.
  unfold isUserInRoom. simpl. case_decide as Hr.
  - subst. rewrite lookup_alter_eq. by destruct (rooms rm !! roomId).
  - rewrite lookup_alter_ne by done. done.
Qed.

Lemma isModerator_alter_users f rm roomId r u :
  isModerator (mk (alter (Room.with_users f) roomId (rooms rm))) r u = isModerator rm r u.
Proof.
  unfold isModerator. simpl. destruct (decide (roomId = r)) as [-> | Hr].
  - rewrite lookup_alter_eq. by destruct (rooms rm !! r).
  - by rewrite lookup_alter_ne.
Qed.

Lemma isModerator_alter_moderators f rm roomId r u :
  isModerator (mk (alter (Room.with_moderators f) roomId (rooms rm))) r u
  = match rooms rm !! r with
    | Some room =>
        bool_decide (u ∈ if decide (r = roomId) then f (Room.moderators room)
                         else Room.moderators room)
    | None => false
    end.
Proof.
  unfold isModerator. simpl. case_decide as Hr.
  - subst. rewrite lookup_alter_eq. by destruct (rooms rm !! roomId).
  - rewrite lookup_alter_ne by done. done.
Qed.

Lemma isUserInRoom_alter_moderators f rm roomId r u :
  isUserInRoom (mk (alter (Room.with_moderators f) roomId (rooms rm))) r u
  = isUserInRoom rm r u.
Proof.
  unfold isUserInRoom. simpl. destruct (decide (roomId = r)) as [-> | Hr].
  - rewrite lookup_alter_eq. by destruct (rooms rm !! r).
  - by rewrite lookup_alter_ne.
Qed.

Lemma joinRoom_found rm roomId userId room :
  roomInvariant rm →
  rooms rm !! roomId = Some room →
  joinRoom rm roomId userId
  = (Result.ok, mk (alter (Room.with_users (JsSet.add userId)) roomId (rooms rm))).
Proof.
  intros [_ Hr] Hroom. unfold joinRoom. rewrite Hroom.
  destruct (Hr _ _ Hroom) as (_ & -> & _). done.
Qed.

(** Property X20 (joining a room of the room manager).  In a state that
    satisfies the room invariant no room has a user limit, so [joinRoom]
    succeeds exactly when the room exists and never answers that the room
    is full; a failed call changes nothing.  A successful call puts the
    user at the end of the member list unless already there, makes
    [isUserInRoom] true for this user and room and changes it for no other
    pair, changes no moderator, and a second identical call changes
    nothing. *)
Theorem room_join_outcome (rm : t) (roomId userId : string) :
  roomInvariant rm →
  let res := joinRoom rm roomId userId in
  (Result.success res.1 = true ↔ is_Some (rooms rm !! roomId))
  ∧ (rooms rm !! roomId = None → res = (Result.fail "Room not found", rm))
  ∧ (Result.success res.1 = true →
     getRoomUsers res.2 roomId = JsSet.add userId (getRoomUsers rm roomId)
     ∧ isUserInRoom res.2 roomId userId = true
     ∧ (∀ r u, r ≠ roomId ∨ u ≠ userId → isUserInRoom res.2 r u = isUserInRoom rm r u)
     ∧ (∀ r u, isModerator res.2 r u = isModerator rm r u)
     ∧ (joinRoom res.2 roomId userId).2 = res.2).
Proof.
  intros Hinv. cbv zeta.
  destruct (rooms rm !! roomId) as [room |] eqn:Hroom.
  2: { unfold joinRoom. rewrite Hroom. simpl. split; [split; [done | by intros [? ?]] |].
       split; done. }
  rewrite (joinRoom_found _ _ _ _ Hinv Hroom). cbn [fst snd].
  split; [split; [by eexists | done] |]. split; [done |]. intros _.
  split; [| split; [| split; [| split]]].
  - unfold getRoomUsers. simpl. by rewrite lookup_alter_eq, Hroom.
  - rewrite isUserInRoom_alter_users, Hroom, decide_True by done.
    apply bool_decide_eq_true_2, elem_of_add. by left.
  - intros r u Hne. rewrite isUserInRoom_alter_users. unfold isUserInRoom.
    destruct (rooms rm !! r) as [room' |] eqn:Hroom'; [| done].
    case_decide as Hr; [| done]. subst r.
    destruct Hne as [? | Hu]; [done |].
    apply bool_decide_ext. rewrite elem_of_add. split; [intros [? | ?]; done | by right].
  - intros r u. apply isModerator_alter_users.
  - unfold joinRoom. simpl. rewrite lookup_alter_eq, Hroom. simpl.
    destruct Hinv as [_ Hr]. destruct (Hr _ _ Hroom) as (_ & -> & _). cbn [snd].
    f_equal. rewrite alter_alter_eq. apply fin_maps.alter_ext. intros x _. simpl.
    destruct x. unfold Room.with_users. simpl. f_equal.
    unfold JsSet.add at 1. apply decide_True, elem_of_add. by left.
Qed.

Lemma room_join_outcome_witness :
  Result.success (joinRoom DemoRooms.withClub "club" "u2").1 = true
  ∧ getRoomUsers (joinRoom DemoRooms.withClub "club" "u2").2 "club" = ["u2"%string]
  ∧ isUserInRoom (joinRoom DemoRooms.withClub "club" "u2").2 "general" "u2" = false.
Proof.
  pose proof (room_join_outcome DemoRooms.withClub "club" "u2"
                withClub_invariant) as (Hiff & _ & Hok).
  assert (Result.success (joinRoom DemoRooms.withClub "club" "u2").1 = true) as Hs.
  { apply Hiff. eexists. by vm_compute. }
  destruct (Hok Hs) as (Husers & _ & Hother & _).
  split; [exact Hs |]. split.
  - rewrite Husers. by vm_compute.
  - rewrite Hother by (by left). by vm_compute.
Defined.

(** Property X21 (leaving a room of the room manager).  [leaveRoom]
    succeeds exactly when the room exists, and a failed call changes
    nothing.  A successful call makes [isUserInRoom] false for this user
    and room and changes it for no other pair; it changes no moderator, so
    a moderator who leaves stays a moderator.  In a state that satisfies
    the room invariant, a user who was not a member and joins and leaves
    again leaves the state as it was. *)
Theorem room_leave_outcome (rm : t) (roomId userId : string) :
  roomInvariant rm →
  let res := leaveRoom rm roomId userId in
  (Result.success res.1 = true ↔ is_Some (rooms rm !! roomId))
  ∧ (rooms rm !! roomId = None → res = (Result.fail "Room not found", rm))
  ∧ (Result.success res.1 = true →
     getRoomUsers res.2 roomId = JsSet.delete userId (getRoomUsers rm roomId)
     ∧ isUserInRoom res.2 roomId userId = false
     ∧ (∀ r u, r ≠ roomId ∨ u ≠ userId → isUserInRoom res.2 r u = isUserInRoom rm r u)
     ∧ (∀ r u, isModerator res.2 r u = isModerator rm r u))
  ∧ (isUserInRoom rm roomId userId = false →
     (leaveRoom (joinRoom rm roomId userId).2 roomId userId).2 = rm).
Proof.
  intros Hinv. cbv zeta.
  destruct (rooms rm !! roomId) as [room |] eqn:Hroom.
  2: { unfold joinRoom, leaveRoom. rewrite Hroom. simpl. rewrite Hroom.
       split; [split; [done | by intros [? ?]] |]. split; [done |]. split; done. }
  rewrite (joinRoom_found _ _ _ _ Hinv Hroom).
  assert (leaveRoom rm roomId userId
          = (Result.ok,
             mk (alter (Room.with_users (JsSet.delete userId)) roomId (rooms rm)))) as ->
    by (by unfold leaveRoom; rewrite Hroom).
  cbn [fst snd].
  split; [split; [by eexists | done] |]. split; [done |]. split.
  - intros _. split; [| split; [| split]].
    + unfold getRoomUsers. simpl. by rewrite lookup_alter_eq, Hroom.
    + rewrite isUserInRoom_alter_users, Hroom, decide_True by done.
      apply bool_decide_eq_false_2. rewrite elem_of_delete. by intros [? _].
    + intros r u Hne. rewrite isUserInRoom_alter_users. unfold isUserInRoom.
      destruct (rooms rm !! r) as [room' |] eqn:Hroom'; [| done].
      case_decide as Hr; [| done]. subst r.
      destruct Hne as [? | Hu]; [done |].
      apply bool_decide_ext. rewrite elem_of_delete. split; [by intros [_ ?] | done].
    + intros r u. apply isModerator_alter_users.
  - unfold isUserInRoom. rewrite Hroom. intros Hnot%bool_decide_eq_false.
    unfold leaveRoom. simpl. rewrite lookup_alter_eq, Hroom. simpl.
    destruct rm as [rs]. simpl in *. f_equal.
    rewrite alter_alter_eq. apply fin_maps.alter_id. intros x Hx.
    assert (x = room) as -> by congruence. simpl.
    destruct room. unfold Room.with_users. simpl in *. f_equal.
    unfold JsSet.add. rewrite decide_False by done.
    unfold JsSet.delete. rewrite filter_app, filter_cons_False by (by intros H; apply H).
    rewrite filter_nil, app_nil_r. by apply delete_not_elem.
Qed.

Lemma room_leave_outcome_witness :
  (leaveRoom (joinRoom DemoRooms.withClub "club" "u2").2 "club" "u2").2
  = DemoRooms.withClub.
Proof.
  pose proof (room_leave_outcome DemoRooms.withClub "club" "u2" withClub_invariant)
    as (_ & _ & _ & Hback).
  apply Hback. by vm_compute.
Defined.

Lemma addModerator_success_iff rm roomId userId requesterId :
  roomInvariant rm →
  Result.success (addModerator rm roomId userId requesterId).1 = true
  ↔ ∃ room, rooms rm !! roomId = Some room ∧ requesterId ∈ Room.moderators room.
Proof.
  intros [_ Hr]. unfold addModerator, isModerator.
  destruct (rooms rm !! roomId) as [room |] eqn:Hroom.
  2: { simpl. split; [done | by intros (? & [=] & _)]. }
  destruct (Hr _ _ Hroom) as (_ & _ & Hcreator & _).
  case_bool_decide as Hmod; simpl.
  - split; [| done]. intros _. by exists room.
  - destruct (String.eqb (Room.createdBy room) requesterId) eqn:Hc; simpl.
    + apply String.eqb_eq in Hc. subst. done.
    + split; [done |]. by intros (? & [= <-] & ?).
Qed.

(** Property X22 (appointing moderators).  In a state that satisfies the
    room invariant the creator of a room is one of its moderators, so
    [addModerator] succeeds exactly when the room exists and the requester
    is one of its moderators; otherwise it names the reason and changes
    nothing.  A successful call makes [isModerator] true for the user and
    the room, changes it for no other pair, changes no membership and
    keeps the invariant. *)
Theorem addModerator_outcome (rm : t) (roomId userId requesterId : string) :
  roomInvariant rm →
  let res := addModerator rm roomId userId requesterId in
  (Result.success res.1 = true
   ↔ ∃ room, rooms rm !! roomId = Some room ∧ requesterId ∈ Room.moderators room)
  ∧ (Result.success res.1 = false → res.2 = rm)
  ∧ (rooms rm !! roomId = None → res.1 = Result.fail "Room not found")
  ∧ (isModerator rm roomId requesterId = false → is_Some (rooms rm !! roomId) →
     res.1 = Result.fail "Only moderators can add moderators")
  ∧ (Result.success res.1 = true →
     isModerator res.2 roomId userId = true
     ∧ (∀ r u, r ≠ roomId ∨ u ≠ userId → isModerator res.2 r u = isModerator rm r u)
     ∧ (∀ r u, isUserInRoom res.2 r u = isUserInRoom rm r u)
     ∧ roomInvariant res.2).
Proof.
  intros Hinv. cbv zeta.
  split; [by apply addModerator_success_iff |].
  split.
  { unfold addModerator. destruct (rooms rm !! roomId) as [room |]; [| done].
    by destruct (negb (isModerator rm roomId requesterId)
                 && negb (String.eqb (Room.createdBy room) requesterId)). }
  split; [by unfold addModerator; intros -> |].
  split.
  { intros Hmod [room Hroom]. unfold addModerator. rewrite Hroom, Hmod. simpl.
    destruct (String.eqb (Room.createdBy room) requesterId) eqn:Hc; [| done].
    apply String.eqb_eq in Hc. destruct Hinv as [_ Hr].
    destruct (Hr _ _ Hroom) as (_ & _ & Hcreator & _).
    unfold isModerator in Hmod. rewrite Hroom in Hmod.
    apply bool_decide_eq_false in Hmod. by subst. }
  intros Hok. split; [| split; [| split]]; [| | | by apply addModerator_roomInvariant].
  - pose proof Hok as (room & Hroom & Hreq)%addModerator_success_iff; [| done].
    unfold addModerator, isModerator in *. rewrite Hroom in *.
    rewrite bool_decide_eq_true_2 by done. simpl.
    rewrite lookup_alter_eq, Hroom. simpl.
    apply bool_decide_eq_true_2, elem_of_add. by left.
  - intros r u Hne.
    pose proof Hok as (room & Hroom & Hreq)%addModerator_success_iff; [| done].
    assert (addModerator rm roomId userId requesterId
            = (Result.ok,
               mk (alter (Room.with_moderators (JsSet.add userId)) roomId (rooms rm))))
      as ->.
    { unfold addModerator, isModerator. rewrite Hroom.
      by rewrite bool_decide_eq_true_2. }
    cbn [snd]. rewrite isModerator_alter_moderators. unfold isModerator.
    destruct (rooms rm !! r) as [room' |] eqn:Hroom'; [| done].
    case_decide as Hr; [| done]. subst r.
    destruct Hne as [? | Hu]; [done |].
    apply bool_decide_ext. rewrite elem_of_add. split; [intros [? | ?]; done | by right].
  - intros r u.
    pose proof Hok as (room & Hroom & Hreq)%addModerator_success_iff; [| done].
    unfold addModerator, isModerator. rewrite Hroom.
    rewrite bool_decide_eq_true_2 by done. simpl.
    apply isUserInRoom_alter_moderators.
Qed.

Lemma addModerator_outcome_witness :
  Result.success (addModerator DemoRooms.withClub "club" "u3" "u2").1 = false
  ∧ isModerator (addModerator DemoRooms.withClub "club" "u2" "u1").2 "club" "u2" = true.
Proof.
  pose proof (addModerator_outcome DemoRooms.withClub "club" "u3" "u2" withClub_invariant)
    as (_ & _ & _ & Hno & _).
  pose proof (addModerator_outcome DemoRooms.withClub "club" "u2" "u1" withClub_invariant)
    as (Hiff & _ & _ & _ & Hyes).
  split.
  - rewrite Hno; [done | by vm_compute |]. eexists. by vm_compute.
  - apply Hyes, Hiff. eexists. split; [by vm_compute |]. simpl. apply list_elem_of_here.
Defined.

Lemma removeModerator_success_iff rm roomId userId requesterId :
  Result.success (removeModerator rm roomId userId requesterId).1 = true
  ↔ ∃ room, rooms rm !! roomId = Some room
            ∧ Room.createdBy room = requesterId
            ∧ userId ≠ requesterId.
Proof.
  unfold removeModerator. destruct (rooms rm !! roomId) as [room |] eqn:Hroom.
  2: { simpl. split; [done | by intros (? & [=] & _)]. }
  destruct (String.eqb (Room.createdBy room) requesterId) eqn:Hc; simpl.
  2: { apply String.eqb_neq in Hc. split; [done |]. by intros (? & [= <-] & ? & _). }
  apply String.eqb_eq in Hc. subst requesterId.
  destruct (String.eqb userId (Room.createdBy room)) eqn:Hu; simpl.
  - apply String.eqb_eq in Hu. split; [done |]. by intros (? & [= <-] & _ & ?).
  - apply String.eqb_neq in Hu. split; [| done]. intros _. by exists room.
Qed.

(** Property X23 (dismissing moderators).  [removeModerator] succeeds
    exactly when the room exists, the requester is its creator and the
    user to dismiss is someone else; otherwise it changes nothing.  In a
    state that satisfies the room invariant a successful call makes
    [isModerator] false for the user and the room, changes it for no other
    pair, so that the creator stays a moderator, and changes no
    membership. *)
Theorem removeModerator_outcome (rm : t) (roomId userId requesterId : string) :
  roomInvariant rm →
  let res := removeModerator rm roomId userId requesterId in
  (Result.success res.1 = true
   ↔ ∃ room, rooms rm !! roomId = Some room
             ∧ Room.createdBy room = requesterId
             ∧ userId ≠ requesterId)
  ∧ (Result.success res.1 = false → res.2 = rm)
  ∧ (Result.success res.1 = true →
     isModerator res.2 roomId userId = false
     ∧ isModerator res.2 roomId requesterId = true
     ∧ (∀ r u, r ≠ roomId ∨ u ≠ userId → isModerator res.2 r u = isModerator rm r u)
     ∧ (∀ r u, isUserInRoom res.2 r u = isUserInRoom rm r u)).
Proof.
  intros Hinv. cbv zeta.
  split; [by apply removeModerator_success_iff |].
  split.
  { unfold removeModerator. destruct (rooms rm !! roomId) as [room |]; [| done].
    destruct (negb (String.eqb (Room.createdBy room) requesterId)); [done |].
    by destruct (String.eqb userId (Room.createdBy room)). }
  intros (room & Hroom & Hc & Hu)%removeModerator_success_iff.
  assert (removeModerator rm roomId userId requesterId
          = (Result.ok,
             mk (alter (Room.with_moderators (JsSet.delete userId)) roomId (rooms rm))))
    as ->.
  { unfold removeModerator. rewrite Hroom.
    assert (String.eqb (Room.createdBy room) requesterId = true) as ->
      by (by apply String.eqb_eq).
    assert (String.eqb userId (Room.createdBy room) = false) as ->
      by (apply String.eqb_neq; congruence).
    done. }
  cbn [snd]. destruct Hinv as [_ Hr].
  destruct (Hr _ _ Hroom) as (_ & _ & Hcreator & _).
  split; [| split; [| split]].
  - rewrite isModerator_alter_moderators, Hroom, decide_True by done.
    apply bool_decide_eq_false_2. rewrite elem_of_delete. by intros [? _].
  - rewrite isModerator_alter_moderators, Hroom, decide_True by done.
    apply bool_decide_eq_true_2, elem_of_delete. split; [congruence |]. by subst.
  - intros r u Hne. rewrite isModerator_alter_moderators. unfold isModerator.
    destruct (rooms rm !! r) as [room' |] eqn:Hroom'; [| done].
    case_decide as Hreq; [| done]. subst r.
    destruct Hne as [? | Hne]; [done |].
    apply bool_decide_ext. rewrite elem_of_delete. split; [by intros [_ ?] | done].
  - intros r u. apply isUserInRoom_alter_moderators.
Qed.

Lemma removeModerator_outcome_witness :
  let rm := (addModerator DemoRooms.withClub "club" "u2" "u1").2 in
  isModerator rm "club" "u2" = true
  ∧ Result.success (removeModerator rm "club" "u1" "u2").1 = false
  ∧ isModerator (removeModerator rm "club" "u2" "u1").2 "club" "u2" = false
  ∧ isModerator (removeModerator rm "club" "u2" "u1").2 "club" "u1" = true.
Proof.
  cbv zeta.
  set (rm := (addModerator DemoRooms.withClub "club" "u2" "u1").2).
  assert (roomInvariant rm) as Hinv
    by apply addModerator_roomInvariant, withClub_invariant.
  pose proof (removeModerator_outcome rm "club" "u2" "u1" Hinv) as (Hiff & _ & Hyes).
  assert (Result.success (removeModerator rm "club" "u2" "u1").1 = true) as Hok.
  { apply Hiff. eexists. split; [by vm_compute |]. done. }
  destruct (Hyes Hok) as (Hgone & Hkept & _).
  split; [by vm_compute |]. split; [by vm_compute |]. split; [exact Hgone | exact Hkept].
Defined.

End RoomRunFacts.

(** ** SessionManager: sessions and names *)

Module SessionRunFacts.
Import SessionManager SessionSpec SessionRun JsMapFacts SessionFacts.

Lemma new_sessionInvariant : sessionInvariant new.
Proof.
  split; [apply NoDup_nil_2 |]. split; [done |].
  intros s u. unfold new. simpl. by rewrite lookup_empty.
Qed.

Lemma get_alter_is_Some {V} (f : V → V) k k' (m : list (string * V)) :
  is_Some (JsMap.get k' (JsMap.alter f k m)) ↔ is_Some (JsMap.get k' m).
Proof.
  destruct (decide (k = k')) as [-> | Hne].
  - rewrite get_alter_eq. by rewrite fmap_is_Some.
  - by rewrite get_alter_ne.
Qed.

Lemma updateUserStatus_sessionInvariant sm now userId st :
  sessionInvariant sm → sessionInvariant (updateUserStatus sm now userId st).
Proof.
  intros (Hwf & Hid & Hs). split; [by apply wf_alter |]. split; simpl.
  - intros k u. destruct (decide (userId = k)) as [-> | Hne].
    + rewrite get_alter_eq. destruct (JsMap.get k (users sm)) as [u0 |] eqn:Hu0; [| done].
      intros [= <-]. simpl. by apply Hid.
    + rewrite get_alter_ne by done. apply Hid.
  - intros s u Hsu. apply get_alter_is_Some. by eapply Hs.
Qed.

Lemma step_sessionInvariant sm sm' :
  sessionStep sm sm' → sessionInvariant sm → sessionInvariant sm'.
Proof.
  intros Hstep (Hwf & Hid & Hs).
  destruct Hstep as [sm now uuid username isGuest Hne Hfresh
                    | sm uuid user Huser
                    | sm now userId st
                    | sm now sessionId].
  - split; [by apply wf_set |]. split; simpl.
    + intros k u. destruct (decide (uuid = k)) as [-> | Hk].
      * rewrite get_set_eq. by intros [= <-].
      * rewrite get_set_ne by done. apply Hid.
    + intros s u Hsu. destruct (decide (uuid = u)) as [-> | Hk].
      * rewrite get_set_eq. by eexists.
      * rewrite get_set_ne by done. by eapply Hs.
  - split; [done |]. split; [done |]. simpl.
    intros s u [[_ <-] | [_ Hsu]]%lookup_insert_Some; [by eexists | by eapply Hs].
  - by apply updateUserStatus_sessionInvariant.
  - unfold removeSession. destruct (sessions sm !! sessionId) as [userId |]; [| done].
    destruct (negb (String.eqb userId "")); [| done].
    destruct (updateUserStatus_sessionInvariant sm now userId User.offline)
      as (Hwf' & Hid' & Hs'); [done |].
    split; [done |]. split; [done |]. simpl.
    intros s u [_ Hsu]%lookup_delete_Some. by eapply Hs'.
Qed.

Lemma reached_sessionInvariant sm sm' :
  rtc sessionStep sm sm' → sessionInvariant sm → sessionInvariant sm'.
Proof.
  induction 1 as [| sm sm1 sm2 Hstep _ IH]; [done |].
  intros Hinv. by apply IH, (step_sessionInvariant sm).
Qed.

(** Property X24 (the states a session manager reaches).  In every
    state built from the empty manager by [createUser] with unused ids,
    [createSession] for a stored user, [updateUserStatus] and
    [removeSession], the users are stored under their own ids, and every
    session id that the manager holds is resolved by [getUserBySession] to
    the user it was created for. *)
Theorem session_invariant (sm : t) :
  rtc sessionStep new sm →
  sessionInvariant sm
  ∧ ∀ sessionId userId,
      sessions sm !! sessionId = Some userId →
      ∃ u, getUserBySession sm sessionId = Some u ∧ User.id u = userId.
Proof.
  intros Hrun.
  assert (sessionInvariant sm) as Hinv
    by (by eapply reached_sessionInvariant; [| apply new_sessionInvariant]).
  split; [done |]. destruct Hinv as (Hwf & Hid & Hs).
  intros s uid Hsu. destruct (Hs _ _ Hsu) as [u Hu]. exists u.
  destruct (Hid _ _ Hu) as [Huid Hne]. split; [| done].
  unfold getUserBySession. rewrite Hsu.
  assert (String.eqb uid "" = false) as -> by (by apply String.eqb_neq). done.
Qed.

Lemma bobGone_reached : rtc sessionStep new DemoUsers.bobGone.
Proof.
  eapply rtc_l; [by apply (step_createUser new 1 "u1" "Bob" false) |].
  eapply rtc_l.
  { apply (step_createSession _ "s1"
             (User.mk "u1" "Bob" "Bob" false 1 1 None User.online)). by vm_compute. }
  eapply rtc_l; [apply (step_removeSession _ 2 "s1") |].
  by vm_compute.
Qed.

Lemma session_invariant_witness :
  ∃ u, getUserBySession
         (createSession DemoUsers.bobGone "s2"
            (User.mk "u1" "Bob" "Bob" false 1 2 None User.offline)).2 "s2"
       = Some u
       ∧ User.id u = "u1"%string.
Proof.
  apply (session_invariant
           (createSession DemoUsers.bobGone "s2"
              (User.mk "u1" "Bob" "Bob" false 1 2 None User.offline)).2);
    [| by vm_compute].
  eapply rtc_r; [apply bobGone_reached |].
  apply step_createSession. by vm_compute.
Defined.

Lemma elem_of_values_alter {V} (f : V → V) k (m : list (string * V)) v :
  v ∈ m.*2 → v ∈ (JsMap.alter f k m).*2 ∨ f v ∈ (JsMap.alter f k m).*2.
Proof.
  induction m as [| [k0 v0] m IH]; csimpl; [by intros ?%elem_of_nil |].
  rewrite elem_of_cons. case_decide; csimpl; rewrite !elem_of_cons.
  - intros [-> | Hin]; [right; by left | left; by right].
  - intros [-> | Hin]; [left; by left |].
    destruct (IH Hin) as [? | ?]; [left; by right | right; by right].
Qed.

Lemma elem_of_values_set_absent {V} k (v : V) (m : list (string * V)) x :
  JsMap.get k m = None → x ∈ (JsMap.set k v m).*2 ↔ x = v ∨ x ∈ m.*2.
Proof.
  induction m as [| [k0 v0] m IH]; csimpl.
  - intros _. rewrite list_elem_of_singleton. split; [by left | intros [? | ?%elem_of_nil]; done].
  - case_decide; [done |]. intros Hnone. csimpl. rewrite !elem_of_cons, IH by done. tauto.
Qed.

Lemma updateUserStatus_nameTaken sm now userId st username :
  nameTaken sm username → nameTaken (updateUserStatus sm now userId st) username.
Proof.
  intros (u & Hin & Hu). simpl.
  destruct (elem_of_values_alter (User.with_status st now) userId (users sm) u Hin)
    as [Hin' | Hin'].
  - by exists u.
  - by exists (User.with_status st now u).
Qed.

Lemma step_nameTaken sm sm' username :
  sessionStep sm sm' → nameTaken sm username → nameTaken sm' username.
Proof.
  intros Hstep Htaken.
  destruct Hstep as [sm now uuid name isGuest Hne Hfresh
                    | sm uuid user Huser
                    | sm now userId st
                    | sm now sessionId].
  - destruct Htaken as (u & Hin & Hu). exists u. split; [| done]. simpl.
    apply elem_of_values_set_absent; [done | by right].
  - done.
  - by apply updateUserStatus_nameTaken.
  - unfold removeSession. destruct (sessions sm !! sessionId) as [userId |]; [| done].
    destruct (negb (String.eqb userId "")); [| done].
    by apply (updateUserStatus_nameTaken sm now userId User.offline).
Qed.

Lemma validateUsername_wellFormed sm username :
  wellFormedName username →
  validateUsername sm username
  = match existingUser sm username with
    | Some _ => Validation.mk false (Some "Username already taken"%string)
    | None => Validation.mk true None
    end.
Proof.
  intros [Hlen Hchars]. unfold validateUsername, JsString.testNamePattern.
  destruct username as [| c rest]; [simpl in Hlen; lia |].
  assert (String.eqb (String c rest) "" = false) as -> by done.
  assert (JsString.trimIsEmpty (String c rest) = false) as ->.
  { unfold JsString.trimIsEmpty. simpl in *.
    apply andb_true_iff in Hchars as [Hc _]. apply nameChar_not_space in Hc.
    by rewrite Hc. }
  assert (((String.length (String c rest) <? 2)%nat
           || (20 <? String.length (String c rest))%nat) = false) as ->.
  { apply orb_false_iff. split; apply Nat.ltb_ge; lia. }
  rewrite Hchars. done.
Qed.

(** Property X25 (names are never freed).  Once a user is created with
    a name, that name is taken in every letter case in every later state,
    and [validateUsername] refuses it, with the answer that it is taken
    when its format is right: no call changes a name or removes a user,
    and going offline or closing the session does not free the name. *)
Theorem name_stays_taken (sm sm' : t) (now : Z) (uuid username candidate : string)
    (isGuest : bool) :
  JsMap.get uuid (users sm) = None →
  rtc sessionStep (createUser sm now uuid username isGuest).2 sm' →
  JsString.toLowerCase candidate = JsString.toLowerCase username →
  nameTaken sm' candidate
  ∧ Validation.valid (validateUsername sm' candidate) = false
  ∧ (wellFormedName candidate →
     validateUsername sm' candidate
     = Validation.mk false (Some "Username already taken"%string)).
Proof.
  intros Hfresh Hrun Hcase.
  assert (nameTaken sm' candidate) as Htaken.
  { assert (nameTaken (createUser sm now uuid username isGuest).2 candidate) as H0.
    { exists (createUser sm now uuid username isGuest).1.
      split; [| simpl; symmetry; exact Hcase]. simpl.
      apply elem_of_values_set_absent; [done | by left]. }
    clear Hfresh. induction Hrun as [| x y z Hstep _ IH]; [done |].
    by apply IH, (step_nameTaken x). }
  split; [done |]. split.
  - apply not_true_is_false. by intros [_ Hn]%validateUsername_valid_iff.
  - intros Hwf. rewrite validateUsername_wellFormed by done.
    destruct (existingUser sm' candidate) eqn:Hex; [done |].
    by apply existingUser_None in Hex.
Qed.

Lemma name_stays_taken_witness :
  nameTaken DemoUsers.bobGone "BOB"
  ∧ validateUsername DemoUsers.bobGone "BOB"
    = Validation.mk false (Some "Username already taken"%string).
Proof.
  destruct (name_stays_taken new DemoUsers.bobGone 1 "u1" "Bob" "BOB" false)
    as (Htaken & _ & Hres); [done | | by vm_compute |].
  - eapply rtc_l.
    { apply (step_createSession _ "s1"
               (User.mk "u1" "Bob" "Bob" false 1 1 None User.online)). by vm_compute. }
    eapply rtc_l; [apply (step_removeSession _ 2 "s1") |].
    by vm_compute.
  - split; [exact Htaken |]. apply Hres. split; [simpl; lia | by vm_compute].
Defined.

Lemma status_of_online sm u :
  u ∈ getOnlineUsers sm → User.userStatus u = User.online ∧ u ∈ (users sm).*2.
Proof. unfold getOnlineUsers. by rewrite list_elem_of_filter. Qed.

Lemma elem_of_values_get {V} (m : list (string * V)) v :
  JsMap.wf m → v ∈ m.*2 → ∃ k, JsMap.get k m = Some v.
Proof.
  intros Hwf (kv & -> & Hin)%list_elem_of_fmap. destruct kv as [k v].
  exists k. by apply elem_of_get.
Qed.

(** Property X26 (closing a session).  [removeSession] on an unknown
    session id changes nothing.  In a state that satisfies the session
    invariant, closing a known session removes that session id only, sets
    the status of its user to offline and the time last seen to now,
    keeps the user stored, leaves every other user as before, and the user
    is no longer among the online users, even if another session of the
    same user is still open. *)
Theorem session_end_outcome (sm : t) (now : Z) (sessionId : string) :
  sessionInvariant sm →
  let sm' := removeSession sm now sessionId in
  (sessions sm !! sessionId = None → sm' = sm)
  ∧ ∀ userId,
      sessions sm !! sessionId = Some userId →
      getUserBySession sm' sessionId = None
      ∧ (∀ s, s ≠ sessionId → sessions sm' !! s = sessions sm !! s)
      ∧ (∃ u, getUserById sm userId = Some u
              ∧ getUserById sm' userId = Some (User.with_status User.offline now u))
      ∧ (∀ k, k ≠ userId → getUserById sm' k = getUserById sm k)
      ∧ (∀ u, u ∈ getOnlineUsers sm' → User.id u ≠ userId)
      ∧ sessionInvariant sm'.
Proof.
  intros Hinv. cbv zeta. split; [by unfold removeSession; intros -> |].
  intros userId Hsu. pose proof Hinv as (Hwf & Hid & Hs).
  destruct (Hs _ _ Hsu) as [u Hu]. destruct (Hid _ _ Hu) as [Huid Hne].
  assert (sessionInvariant (removeSession sm now sessionId)) as Hinv'
    by (by eapply step_sessionInvariant; [apply step_removeSession |]).
  assert (removeSession sm now sessionId
          = mk (delete sessionId (sessions sm))
               (JsMap.alter (User.with_status User.offline now) userId (users sm))) as Heq.
  { unfold removeSession. rewrite Hsu.
    assert (String.eqb userId "" = false) as -> by (by apply String.eqb_neq). done. }
  rewrite Heq in *. clear Heq.
  split; [by unfold getUserBySession; simpl; rewrite lookup_delete_eq |].
  split; [by intros s Hs'; simpl; rewrite lookup_delete_ne |].
  split.
  { exists u. split; [done |]. unfold getUserById. simpl. by rewrite get_alter_eq, Hu. }
  split; [by intros k Hk; unfold getUserById; simpl; rewrite get_alter_ne |].
  split; [| done].
  intros x [Hon Hin]%status_of_online Hx.
  destruct Hinv' as (Hwf' & Hid' & _).
  destruct (elem_of_values_get _ _ Hwf' Hin) as [k Hk].
  destruct (Hid' _ _ Hk) as [Hkid _].
  assert (k = userId) as -> by congruence.
  simpl in Hk. rewrite get_alter_eq, Hu in Hk. injection Hk as <-. done.
Qed.

Lemma session_end_outcome_witness :
  let sm2 := (createSession (createUser new 1 "u1" "Bob" false).2 "s1"
                (createUser new 1 "u1" "Bob" false).1).2 in
  getUserBySession sm2 "s1" = Some (User.mk "u1" "Bob" "Bob" false 1 1 None User.online)
  ∧ getUserBySession (removeSession sm2 2 "s1") "s1" = None
  ∧ getUserById (removeSession sm2 2 "s1") "u1"
    = Some (User.mk "u1" "Bob" "Bob" false 1 2 None User.offline)
  ∧ getOnlineUsers (removeSession sm2 2 "s1") = [].
Proof.
  cbv zeta.
  set (sm2 := (createSession (createUser new 1 "u1" "Bob" false).2 "s1"
                 (createUser new 1 "u1" "Bob" false).1).2).
  assert (sessionInvariant sm2) as Hinv.
  { eapply step_sessionInvariant; [apply step_createSession; by vm_compute |].
    eapply step_sessionInvariant; [by apply step_createUser |].
    apply new_sessionInvariant. }
  destruct (session_end_outcome sm2 2 "s1" Hinv) as [_ Hknown].
  destruct (Hknown "u1"%string) as (Hgone & _ & (u & Hu & Hu') & _); [by vm_compute |].
  split; [by vm_compute |]. split; [exact Hgone |]. split; [| by vm_compute].
  rewrite Hu'. vm_compute in Hu. by injection Hu as <-.
Defined.

End SessionRunFacts.
